(** * Bing search scraper: fetch-and-extract pipeline

    A shallow embedding of [src/extractors/softblock_handler.py] and
    [src/extractors/bing_parser.py], and the properties of the block
    detector, the backoff policy, the block-recovery loop, the page
    fetcher, the record extractor and the query orchestrator.

    Conventions of the embedding.
    - A Python [str] is a [string]: the bytes of its UTF-8 encoding.
      Where the code looks at characters ([isdigit], [int], [strip],
      [split]) the bytes are read back into code points (module
      [Utf8]).  [str.lower] is modelled on the ASCII letters.  For the block
      detector this loses nothing: a phrase is ASCII, the bytes of a
      non-ASCII character are all above 127, and the only non-ASCII
      characters whose lower case holds an ASCII letter are the Kelvin
      sign (to [k], which no phrase holds) and the dotted capital I (to
      [i] and a combining dot, which no phrase has after an [i]).  For
      the keywords of an organic result it tells apart two that differ
      in the case of a letter outside ASCII.
    - A Python [int] is a [Z].
    - A Python [float] is a binary64 number, kept as a dyadic
      [mant * 2^expo] with the rounding to 53 significant bits written
      out (module [Binary64]); the kernel's own floats are run beside it
      on the decisive sums (module [KernelFloat]).
    - [random], [time.sleep], [logging] and [requests.Session.get] are
      effects of a state monad over an explicit world: the generator is a
      stream of draws, the network a stream of replies, the monotonic
      clock a stream of readings, and every effect is appended to a
      trace.  [time.sleep] refuses the delays CPython 3.11 refuses on
      Linux.  The two [while] loops are unrolled by a
      fuel that is shown to suffice.
    - BeautifulSoup is an interface ([Soup]) whose calls return or raise,
      with a model on trees ([DomSoup]). *)

From Stdlib Require Import String Ascii List ZArith NArith Lia Bool.
From Stdlib Require Import DecimalString.
From Stdlib Require DecimalZ DecimalPos.
From Stdlib Require Floats.
Import ListNotations.
Local Open Scope string_scope.
Local Open Scope Z_scope.

(* ================================================================== *)
(** * Part I: definitions *)
(* ================================================================== *)

(** ** Python strings *)

Module PyStr.

(** [c.lower()] for one character: [A-Z] move to [a-z]. *)
Definition lower_char (c : ascii) : ascii :=
  let n := N_of_ascii c in
  if ((65 <=? n) && (n <=? 90))%N then ascii_of_N (n + 32) else c.

(** [s.lower()] *)
Fixpoint lower (s : string) : string :=
  match s with
  | EmptyString => EmptyString
  | String c t => String (lower_char c) (lower t)
  end.

(** [needle in hay]: some suffix of [hay] starts with [needle]. *)
Fixpoint contains (needle hay : string) : bool :=
  if String.prefix needle hay then true
  else match hay with
       | EmptyString => false
       | String _ t => contains needle t
       end.

(** [str(n)] for an [int]. *)
Definition of_int (n : Z) : string := NilZero.string_of_int (Z.to_int n).

(** [sep.join(parts)] *)
Fixpoint join (sep : string) (parts : list string) : string :=
  match parts with
  | [] => EmptyString
  | [p] => p
  | p :: rest => p ++ sep ++ join sep rest
  end.

End PyStr.

(** ** Characters

    Where Python looks at the characters of a [str] ([isdigit],
    [isspace], [int]), the bytes are read back into code points.  The
    tables are those of Unicode 14, which CPython 3.11 carries. *)

Module Utf8.

(** A byte [10xxxxxx], which continues a sequence. *)
Definition continuation (b : ascii) : bool :=
  let n := N_of_ascii b in ((128 <=? n) && (n <? 192))%N.

Definition low6 (b : ascii) : N := (N_of_ascii b mod 64)%N.

(** The characters of a text: the code point of each, with the bytes
    that write it.  A byte that begins no sequence (the encoding of a
    [str] holds none) is read as a character of its own. *)
Fixpoint chars (s : string) : list (N * string) :=
  match s with
  | EmptyString => []
  | String b1 r1 =>
      let n1 := N_of_ascii b1 in
      match r1 with
      | String b2 r2 =>
          if ((192 <=? n1) && (n1 <? 224))%N && continuation b2 then
            ((n1 mod 32 * 64 + low6 b2)%N,
             String b1 (String b2 EmptyString)) :: chars r2
          else
            match r2 with
            | String b3 r3 =>
                if ((224 <=? n1) && (n1 <? 240))%N
                   && continuation b2 && continuation b3 then
                  (((n1 mod 16 * 64 + low6 b2) * 64 + low6 b3)%N,
                   String b1 (String b2 (String b3 EmptyString)))
                  :: chars r3
                else
                  match r3 with
                  | String b4 r4 =>
                      if ((240 <=? n1) && (n1 <? 248))%N
                         && continuation b2 && continuation b3
                         && continuation b4 then
                        ((((n1 mod 8 * 64 + low6 b2) * 64 + low6 b3) * 64
                          + low6 b4)%N,
                         String b1 (String b2 (String b3
                           (String b4 EmptyString))))
                        :: chars r4
                      else (n1, String b1 EmptyString) :: chars r1
                  | EmptyString => (n1, String b1 EmptyString) :: chars r1
                  end
            | EmptyString => (n1, String b1 EmptyString) :: chars r1
            end
      | EmptyString => [(n1, String b1 EmptyString)]
      end
  end.

(** The text a list of characters writes. *)
Definition text_of (cs : list (N * string)) : string :=
  fold_right (fun ch acc => snd ch ++ acc) EmptyString cs.

Definition in_ranges (ranges : list (N * N)) (c : N) : bool :=
  existsb (fun r => (fst r <=? c) && (c <=? snd r))%N ranges.

(** [ch.isspace()]: what [str.strip] and [str.split] take for white
    space. *)
Definition WHITE_SPACE : list (N * N) :=
  [
    (9, 13); (28, 32); (133, 133); (160, 160);
    (5760, 5760); (8192, 8202); (8232, 8233); (8239, 8239);
    (8287, 8287); (12288, 12288) ]%N.

Definition isspace (c : N) : bool := in_ranges WHITE_SPACE c.

(** [ch.isdecimal()]: the decimal digits of every script, in runs of ten
    from zero to nine (the mathematical digits are five such runs on
    end). *)
Definition DECIMAL_DIGITS : list (N * N) :=
  [
    (48, 57); (1632, 1641); (1776, 1785); (1984, 1993);
    (2406, 2415); (2534, 2543); (2662, 2671); (2790, 2799);
    (2918, 2927); (3046, 3055); (3174, 3183); (3302, 3311);
    (3430, 3439); (3558, 3567); (3664, 3673); (3792, 3801);
    (3872, 3881); (4160, 4169); (4240, 4249); (6112, 6121);
    (6160, 6169); (6470, 6479); (6608, 6617); (6784, 6793);
    (6800, 6809); (6992, 7001); (7088, 7097); (7232, 7241);
    (7248, 7257); (42528, 42537); (43216, 43225); (43264, 43273);
    (43472, 43481); (43504, 43513); (43600, 43609); (44016, 44025);
    (65296, 65305); (66720, 66729); (68912, 68921); (69734, 69743);
    (69872, 69881); (69942, 69951); (70096, 70105); (70384, 70393);
    (70736, 70745); (70864, 70873); (71248, 71257); (71360, 71369);
    (71472, 71481); (71904, 71913); (72016, 72025); (72784, 72793);
    (73040, 73049); (73120, 73129); (92768, 92777); (92864, 92873);
    (93008, 93017); (120782, 120831); (123200, 123209); (123632, 123641);
    (125264, 125273); (130032, 130041) ]%N.

(** The characters that are digits and no decimal digits: superscripts,
    subscripts, circled and dotted digits and the like. *)
Definition OTHER_DIGITS : list (N * N) :=
  [
    (178, 179); (185, 185); (4969, 4977); (6618, 6618);
    (8304, 8304); (8308, 8313); (8320, 8329); (9312, 9320);
    (9332, 9340); (9352, 9360); (9450, 9450); (9461, 9469);
    (9471, 9471); (10102, 10110); (10112, 10120); (10122, 10130);
    (68160, 68163); (69216, 69224); (69714, 69722); (127232, 127242) ]%N.

Definition isdecimal (c : N) : bool := in_ranges DECIMAL_DIGITS c.

(** [ch.isdigit()] *)
Definition isdigit (c : N) : bool := isdecimal c || in_ranges OTHER_DIGITS c.

(** What [int] reads a decimal digit as: its place in its run of ten. *)
Definition decimal_value (c : N) : option Z :=
  match find (fun r => (fst r <=? c) && (c <=? snd r))%N DECIMAL_DIGITS with
  | Some r => Some (Z.of_N ((c - fst r) mod 10))
  | None => None
  end.

Fixpoint lstrip (cs : list (N * string)) : list (N * string) :=
  match cs with
  | [] => []
  | ch :: t => if isspace (fst ch) then lstrip t else cs
  end.

(** [s.strip()] *)
Definition strip (s : string) : string :=
  text_of (rev (lstrip (rev (lstrip (chars s))))).

(** [s.split()]: the runs of characters that are not white space; [cur]
    is the run being read. *)
Fixpoint runs (cs : list (N * string)) (cur : string) : list string :=
  match cs with
  | [] => match cur with EmptyString => [] | _ => [cur] end
  | ch :: t =>
      if isspace (fst ch)
      then match cur with
           | EmptyString => runs t EmptyString
           | _ => cur :: runs t EmptyString
           end
      else runs t (cur ++ snd ch)
  end.

Definition split (s : string) : list string := runs (chars s) EmptyString.

End Utf8.

(** ** Block detector ([softblock_handler.py]) *)

Definition SOFT_BLOCK_HINTS : list string :=
  [ "unusual traffic";
    "verify that you are a human";
    "detected unusual activity";
    "please try again later";
    "are you a robot";
    "unusual behavior from your computer" ].

(** The [for hint in ...: if hint in lower: return True] loop, with its
    early return, and [return False] after the last hint. *)
Fixpoint any_hint_in (hints : list string) (lower : string) : bool :=
  match hints with
  | [] => false
  | hint :: rest =>
      if PyStr.contains hint lower then true else any_hint_in rest lower
  end.

Definition is_soft_blocked (html : string) : bool :=
  let lower := PyStr.lower html in
  any_hint_in SOFT_BLOCK_HINTS lower.

(** What the detector is specified against: [phrase] occurs in [text] in
    some letter case. *)
Definition occurs_ignoring_case (phrase text : string) : Prop :=
  exists pre s post,
    text = pre ++ s ++ post /\ PyStr.lower s = PyStr.lower phrase.

(** ** Binary64 arithmetic

    The floats of the backoff policy and of the pacing are finite.  A
    value is kept as the dyadic [mant * 2^expo]; an operation computes
    the exact result and rounds it to the nearest number with 53
    significant bits (and a quantum of at least [2^-1074]), ties to even,
    as IEEE 754 does for binary64.  Overflow is tested where Python
    raises on it, in [**]; the sums and products at hand are of numbers
    that [**] has let through and of numbers below 2, and stay finite. *)

Module Binary64.

Record dy : Set := Dy { mant : Z; expo : Z }.

Definition prec : Z := 53.
Definition emin : Z := -1074.
Definition emax : Z := 1024.

(** [m / 2^s] for [0 <= m] and [0 < s], rounded to the nearest integer,
    ties to even: [q] is the quotient, [r] the bits shifted out. *)
Definition rne_shift (m s : Z) : Z :=
  let q := Z.shiftr m s in
  let r := Z.land m (Z.ones s) in
  let half := Z.shiftl 1 (s - 1) in
  if r <? half then q
  else if half <? r then q + 1
  else if Z.even q then q else q + 1.

(** Rounding to binary64: drop the bits below the 53rd significant one
    (below [2^-1074] for a subnormal result). *)
Definition round (x : dy) : dy :=
  let m := Z.abs (mant x) in
  let s := Z.max (Z.log2 m + 1 - prec) (emin - expo x) in
  if s <=? 0 then x
  else Dy (Z.sgn (mant x) * rne_shift m s) (expo x + s).

(** Both mantissas over the smaller of the two exponents. *)
Definition align (x y : dy) : Z * Z * Z :=
  let e := Z.min (expo x) (expo y) in
  (mant x * 2 ^ (expo x - e), mant y * 2 ^ (expo y - e), e).

Definition leb (x y : dy) : bool :=
  let '(a, b, _) := align x y in a <=? b.

Definition ltb (x y : dy) : bool :=
  let '(a, b, _) := align x y in a <? b.

Definition eqb (x y : dy) : bool :=
  let '(a, b, _) := align x y in a =? b.

Definition add (x y : dy) : dy :=
  let '(a, b, e) := align x y in round (Dy (a + b) e).

Definition sub (x y : dy) : dy :=
  let '(a, b, e) := align x y in round (Dy (a - b) e).

Definition mul (x y : dy) : dy :=
  round (Dy (mant x * mant y) (expo x + expo y)).

(** [2^1024 <= |x|]: beyond the largest binary64 number. *)
Definition overflows (x : dy) : bool :=
  negb (mant x =? 0) && (emax <=? Z.log2 (Z.abs (mant x)) + expo x).

(** The power whose exact mantissa is [p = mant x ^ n], rounded; [None]
    is Python's [OverflowError]. *)
Definition pow_rounded (x : dy) (n p : Z) : option dy :=
  let r := round (Dy p (expo x * n)) in
  if overflows r then None else Some r.

(** [x ** n] for an integer [0 <= n]: libm's [pow], taken as correctly
    rounded. *)
Definition pow (x : dy) (n : Z) : option dy :=
  pow_rounded x n (mant x ^ n).

Definition zero : dy := Dy 0 0.
Definition one : dy := Dy 1 0.
Definition half : dy := Dy 1 (-1).
Definition three_halves : dy := Dy 3 (-1).

(** The literals [0.8] and [1.6] of the pacing sleep, as binary64 reads
    them ([0x1.999999999999ap-1] and [0x1.999999999999ap+0]). *)
Definition lit_0_8 : dy := Dy 7205759403792794 (-53).
Definition lit_1_6 : dy := Dy 7205759403792794 (-52).

(** [random.random()] returns [k * 2^-53] for an integer [0 <= k < 2^53];
    [raw] is the generator's draw. *)
Definition random_of_draw (raw : Z) : dy := Dy (raw mod 2 ^ 53) (-53).

(** [random.uniform(a, b)]: [a + (b - a) * self.random()]. *)
Definition uniform_of_draw (a b : dy) (raw : Z) : dy :=
  add a (mul (sub b a) (random_of_draw raw)).

End Binary64.

(** The exact sum of two dyadics, which [Binary64.add] rounds. *)
Definition exact_sum (x y : Binary64.dy) : Binary64.dy :=
  let '(a, b, e) := Binary64.align x y in Binary64.Dy (a + b) e.

(** ** Exceptions, effects and the world *)

Inductive exn : Set :=
| Timeout                      (* requests.Timeout *)
| ConnectionError              (* requests.ConnectionError *)
| OtherError (name : string)   (* any exception the code names nowhere *)
| RuntimeError (msg : string)
| OverflowError
| ValueError.

(** [except (requests.Timeout, requests.ConnectionError)] *)
Definition is_network_failure (e : exn) : bool :=
  match e with
  | Timeout | ConnectionError => true
  | _ => false
  end.

(** What a computation ends in.  [OutOfFuel] is no behaviour of the
    program: it marks a loop unrolled less often than it runs, and the
    loops below are shown never to end there. *)
Inductive outcome (A : Type) : Type :=
| Ok (a : A)
| Raise (e : exn)
| OutOfFuel.
Arguments Ok {A} a.
Arguments Raise {A} e.
Arguments OutOfFuel {A}.

Inductive level : Set := DEBUG | INFO | WARNING | ERROR.

Record Request : Set := mkRequest {
  req_url : string;
  req_headers : list (string * string);
  req_timeout : Z
}.

Record Response : Set := mkResponse {
  text : string;
  status_code : Z
}.

(** [Response.ok]: [raise_for_status] would not raise, which it does
    for the statuses from 400 to 599. *)
Definition ok (r : Response) : bool :=
  negb ((400 <=? status_code r) && (status_code r <? 600)).

Inductive draw_kind : Set := DChoice | DUniform | DRandint.

Inductive event : Set :=
| EDraw (k : draw_kind) (raw : Z)
| ESleep (seconds : Binary64.dy)
| EGet (r : Request)
| ELog (lvl : level) (msg : string).

(** What a request comes back with: a response, or an exception of
    [requests]. *)
Inductive reply : Set :=
| Answers (r : Response)
| Fails (e : exn).

(** The world a run meets: the [n]-th draw of the generator, what the
    [n]-th request on the session comes back with, and what the
    monotonic clock reads, in nanoseconds, once [n] events have taken
    place.  The requests themselves are in the trace. *)
Record World : Set := mkWorld {
  draws : nat -> Z;
  replies : nat -> reply;
  clock : nat -> Z
}.

Record State : Set := mkState {
  n_draws : nat;
  n_gets : nat;
  trace : list event
}.

Definition initial : State := mkState 0 0 [].

Definition M (A : Type) : Type := World -> State -> outcome A * State.

Definition ret {A} (a : A) : M A := fun _ s => (Ok a, s).

Definition raise {A} (e : exn) : M A := fun _ s => (Raise e, s).

Definition out_of_fuel {A} : M A := fun _ s => (OutOfFuel, s).

Definition bind {A B} (c : M A) (k : A -> M B) : M B :=
  fun w s =>
    match c w s with
    | (Ok a, s') => k a w s'
    | (Raise e, s') => (Raise e, s')
    | (OutOfFuel, s') => (OutOfFuel, s')
    end.

(** [try: c  except <the classes handler accepts>: handler e] *)
Definition try_except {A} (c : M A) (handler : exn -> option (M A)) : M A :=
  fun w s =>
    match c w s with
    | (Raise e, s') =>
        match handler e with
        | Some h => h w s'
        | None => (Raise e, s')
        end
    | r => r
    end.

Declare Scope py_scope.
Delimit Scope py_scope with py.
Notation "x <- c ;; k" := (bind c (fun x => k))
  (at level 61, c at next level, right associativity) : py_scope.
Notation "c ;; k" := (bind c (fun _ => k))
  (at level 61, right associativity) : py_scope.
Local Open Scope py_scope.

Definition emit (e : event) : M unit :=
  fun _ s => (Ok tt, mkState (n_draws s) (n_gets s) (trace s ++ [e])).

Definition draw (k : draw_kind) : M Z :=
  fun w s =>
    let raw := draws w (n_draws s) in
    (Ok raw, mkState (S (n_draws s)) (n_gets s) (trace s ++ [EDraw k raw])).

(** [random.choice(pool)] on a pool that is not empty. *)
Definition random_choice (pool : list string) : M string :=
  raw <- draw DChoice ;;
  ret (nth (Z.to_nat (raw mod Z.of_nat (length pool))) pool "").

(** [random.randint(a, b)] *)
Definition random_randint (a b : Z) : M Z :=
  raw <- draw DRandint ;;
  ret (a + raw mod (b - a + 1)).

(** [random.uniform(a, b)] *)
Definition random_uniform (a b : Binary64.dy) : M Binary64.dy :=
  raw <- draw DUniform ;;
  ret (Binary64.uniform_of_draw a b raw).

(** [time.sleep(seconds)], as CPython 3.11 has it on Linux.  The delay
    is turned into nanoseconds in binary64 and must fit a signed 64-bit
    count, or [OverflowError] is raised; a negative delay is refused
    with [ValueError] (and so is the count [2^63] itself, which the
    conversion lets through and turns negative); the deadline, which is
    the clock's reading plus the delay, must fit the count as well, or
    the system call fails and [OSError] is raised. *)
Definition nanoseconds (seconds : Binary64.dy) : Binary64.dy :=
  Binary64.mul seconds (Binary64.Dy 1000000000 0).

(** What the clock reads at a state: below [2^62] nanoseconds, the
    machine having been up for less than 146 years. *)
Definition monotonic (w : World) (s : State) : Binary64.dy :=
  Binary64.Dy (clock w (length (trace s)) mod 2 ^ 62) 0.

(** The exception [time.sleep] refuses a delay with, when the clock
    reads [now]; [None] when it sleeps. *)
Definition sleep_refusal (seconds now : Binary64.dy) : option exn :=
  let ns := nanoseconds seconds in
  if Binary64.ltb seconds Binary64.zero then
    if Binary64.ltb ns (Binary64.Dy (-1) 63) then Some OverflowError
    else Some ValueError
  else if Binary64.leb (Binary64.Dy 1 63) ns then
    if Binary64.leb ns (Binary64.Dy 1 63) then Some ValueError
    else Some OverflowError
  else if Binary64.ltb (exact_sum ns now) (Binary64.Dy 1 63) then None
  else Some (OtherError "OSError").

Definition sleep (seconds : Binary64.dy) : M unit :=
  fun w s =>
    match sleep_refusal seconds (monotonic w s) with
    | None => emit (ESleep seconds) w s
    | Some e => raise e w s
    end.

(** A delay [time.sleep] takes whatever the clock reads: not negative,
    and below [2^62] nanoseconds (146 years). *)
Definition sleepable (seconds : Binary64.dy) : bool :=
  Binary64.leb Binary64.zero seconds
  && Binary64.ltb (nanoseconds seconds) (Binary64.Dy 1 62).

Definition log (lvl : level) (msg : string) : M unit := emit (ELog lvl msg).

(** [session.get(url, headers=..., timeout=...)] *)
Definition session_get (r : Request) : M Response :=
  fun w s =>
    (match replies w (n_gets s) with
     | Answers resp => Ok resp
     | Fails e => Raise e
     end,
     mkState (n_draws s) (S (n_gets s)) (trace s ++ [EGet r])).

(** ** Backoff policy and block recovery ([softblock_handler.py]) *)

Record SoftBlockHandler : Set := mkHandler {
  max_retries : Z;
  backoff_factor : Binary64.dy
}.

(** The constructor's defaults. *)
Definition default_handler : SoftBlockHandler :=
  mkHandler 3 Binary64.three_halves.

(** The jitter-free part of the delay:
    [(self.backoff_factor ** (attempt - 1)) if attempt > 0 else 1.0] *)
Definition backoff_base (h : SoftBlockHandler) (attempt : Z)
  : option Binary64.dy :=
  if attempt >? 0 then Binary64.pow (backoff_factor h) (attempt - 1)
  else Some Binary64.one.

Definition compute_backoff (h : SoftBlockHandler) (attempt : Z)
  : M Binary64.dy :=
  base <- match backoff_base h attempt with
          | Some b => ret b
          | None => raise OverflowError
          end ;;
  jitter <- random_uniform Binary64.zero Binary64.half ;;
  ret (Binary64.add base jitter).

Definition recovery_headers (chrome : Z) : list (string * string) :=
  [ ("User-Agent",
     "Mozilla/5.0 (Windows NT 10.0; Win64; x64) "
     ++ "AppleWebKit/537.36 (KHTML, like Gecko) "
     ++ "Chrome/" ++ PyStr.of_int chrome ++ ".0 Safari/537.36");
    ("Cache-Control", "no-cache") ].

(** One turn of the [while] loop of [handle_soft_block], from the backoff
    to the end of the [try] statement: the body received, or [None] when
    the handler's [continue] is taken. *)
Definition recovery_attempt (h : SoftBlockHandler) (url : string)
    (attempt : Z) : M (option string) :=
  delay <- compute_backoff h attempt ;;
  log WARNING "Soft block detected. Retrying attempt %d/%d after %.2fs" ;;
  sleep delay ;;
  chrome <- random_randint 110 125 ;;
  let headers := recovery_headers chrome in
  try_except
    (resp <- session_get (mkRequest url headers 15) ;;
     ret (Some (text resp)))
    (fun e =>
       if is_network_failure e then
         Some (log WARNING
                 "Network error while resolving soft block on attempt %d: %s" ;;
               ret None)
       else None).

(** The [while attempt < self.max_retries] loop and what follows it. *)
Fixpoint recovery_loop (h : SoftBlockHandler) (url : string)
    (fuel : nat) (attempt : Z) (last_html : string) : M string :=
  match fuel with
  | O => out_of_fuel
  | S fuel' =>
      if attempt <? max_retries h then
        let attempt := attempt + 1 in
        got <- recovery_attempt h url attempt ;;
        match got with
        | None => recovery_loop h url fuel' attempt last_html
        | Some last_html =>
            if negb (is_soft_blocked last_html) then
              log INFO "Soft block resolved successfully on attempt %d." ;;
              ret last_html
            else recovery_loop h url fuel' attempt last_html
        end
      else
        log ERROR "Failed to resolve soft block after %d retries for URL: %s" ;;
        raise (RuntimeError "Soft block could not be resolved after retries.")
  end.

(** [original_html or ""] *)
Definition or_empty (o : option string) : string :=
  match o with
  | Some s => s
  | None => ""
  end.

(** Iterations the recovery loop can make, and one more for the test
    that leaves it. *)
Definition recovery_fuel (h : SoftBlockHandler) : nat :=
  S (Z.to_nat (max_retries h)).

(** [original_html is not None and not self.is_soft_blocked(original_html)] *)
Definition known_unblocked (original_html : option string) : bool :=
  match original_html with
  | Some html => negb (is_soft_blocked html)
  | None => false
  end.

Definition handle_soft_block (h : SoftBlockHandler) (url : string)
    (original_html : option string) : M string :=
  if known_unblocked original_html then ret (or_empty original_html)
  else
    let attempt := 0 in
    let last_html := or_empty original_html in
    recovery_loop h url (recovery_fuel h) attempt last_html.

(** The spec's name for the failure that ends [handle_soft_block]. *)
Definition SoftBlockUnresolved : exn :=
  RuntimeError "Soft block could not be resolved after retries.".

(** A reply that leaves the recovery loop running: a blocked body, or a
    failure the loop's handler catches. *)
Definition keeps_blocked (r : reply) : bool :=
  match r with
  | Answers resp => is_soft_blocked (text resp)
  | Fails e => is_network_failure e
  end.

(** ** Target locator ([bing_parser.py], [urllib.parse]) *)

Module Url.

(** The characters [urllib.parse.quote] never quotes: letters, digits and
    [_.-~]. *)
Definition always_safe (c : ascii) : bool :=
  let n := N_of_ascii c in
  (((65 <=? n) && (n <=? 90)) || ((97 <=? n) && (n <=? 122))
   || ((48 <=? n) && (n <=? 57))
   || (n =? 95) || (n =? 46) || (n =? 45) || (n =? 126))%N.

Definition hex_digit (n : N) : ascii :=
  if (n <? 10)%N then ascii_of_N (48 + n) else ascii_of_N (55 + n).

(** [quote_plus] on one byte: a blank becomes [+], a safe byte stays, any
    other becomes [%XX] in upper-case hexadecimal. *)
Definition quote_plus_char (c : ascii) : string :=
  if Ascii.eqb c " " then "+"
  else if always_safe c then String c EmptyString
  else
    let n := N_of_ascii c in
    String "%" (String (hex_digit (n / 16)) (String (hex_digit (n mod 16))
      EmptyString)).

(** [urllib.parse.quote_plus(s)] on the bytes of [s]. *)
Fixpoint quote_plus (s : string) : string :=
  match s with
  | EmptyString => EmptyString
  | String c t => quote_plus_char c ++ quote_plus t
  end.

(** A value of the parameter dictionary: a [str] or an [int]. *)
Inductive value : Set :=
| VStr (s : string)
| VInt (n : Z).

(** [v if isinstance(v, str) else str(v)] *)
Definition to_str (v : value) : string :=
  match v with
  | VStr s => s
  | VInt n => PyStr.of_int n
  end.

(** [urllib.parse.urlencode(params)] for a dictionary in insertion
    order: [key=value] pairs, both quoted, joined by [&]. *)
Definition urlencode (params : list (string * value)) : string :=
  PyStr.join "&"
    (map (fun kv => quote_plus (fst kv) ++ "=" ++ quote_plus (to_str (snd kv)))
         params).

(** What an encoded value is made of. *)
Definition query_char (c : ascii) : bool :=
  always_safe c || Ascii.eqb c "+" || Ascii.eqb c "%".

Fixpoint all_chars (p : ascii -> bool) (s : string) : bool :=
  match s with
  | EmptyString => true
  | String c t => p c && all_chars p t
  end.

End Url.

Definition BASE_URL : string := "https://www.bing.com/search".

Definition _build_search_url (term : string) (page results_per_page : Z)
    (market_code language_code : string) : string :=
  let first := (page - 1) * results_per_page + 1 in
  let params :=
    [ ("q", Url.VStr term);
      ("mkt", Url.VStr market_code);
      ("setLang", Url.VStr language_code);
      ("count", Url.VInt results_per_page);
      ("first", Url.VInt first) ] in
  BASE_URL ++ "?" ++ Url.urlencode params.

(** The locator as the spec writes it:
    [{searchBaseUrl}?q={term}&mkt={marketCode}&setLang={languageCode}&count={resultsPerPage}&first={(page-1)*resultsPerPage+1}],
    every value query-encoded. *)
Definition target_locator_spec (search_base_url term market_code
    language_code : string) (results_per_page page : Z) : string :=
  search_base_url
  ++ "?q=" ++ Url.quote_plus term
  ++ "&mkt=" ++ Url.quote_plus market_code
  ++ "&setLang=" ++ Url.quote_plus language_code
  ++ "&count=" ++ Url.quote_plus (PyStr.of_int results_per_page)
  ++ "&first="
  ++ Url.quote_plus (PyStr.of_int ((page - 1) * results_per_page + 1)).

(** ** Page fetcher ([bing_parser.py]) *)

Definition DEFAULT_USER_AGENTS : list string :=
  [ "Mozilla/5.0 (Windows NT 10.0; Win64; x64) "
    ++ "AppleWebKit/537.36 (KHTML, like Gecko) "
    ++ "Chrome/123.0 Safari/537.36";
    "Mozilla/5.0 (Macintosh; Intel Mac OS X 10_15_7) "
    ++ "AppleWebKit/605.1.15 (KHTML, like Gecko) "
    ++ "Version/17.0 Safari/605.1.15";
    "Mozilla/5.0 (X11; Linux x86_64) "
    ++ "AppleWebKit/537.36 (KHTML, like Gecko) "
    ++ "Chrome/122.0 Safari/537.36" ].

Record BingSearchScraper : Set := mkScraper {
  market_code : string;
  language_code : string;
  results_per_page : Z;
  include_html : bool;
  softblock_handler : SoftBlockHandler;
  request_timeout : Z;
  proxy : option string
}.

(** The constructor's defaults. *)
Definition default_scraper : BingSearchScraper :=
  mkScraper "en-US" "en" 10 false default_handler 10 None.

(** One request of [_fetch_page] and the handler of its [try]: the
    response, or [None] when the handler's [continue] is taken. *)
Definition fetch_attempt (sc : BingSearchScraper) (url : string)
    (headers : list (string * string)) (attempt : Z) : M (option Response) :=
  let h := softblock_handler sc in
  try_except
    (resp <- session_get (mkRequest url headers (request_timeout sc)) ;;
     ret (Some resp))
    (fun e =>
       if is_network_failure e then
         Some (log WARNING "Network error on attempt %d fetching %s: %s" ;;
               if attempt >=? max_retries h then raise e
               else
                 delay <- compute_backoff h attempt ;;
                 sleep delay ;;
                 ret None)
       else None).

(** The [while True] loop of [_fetch_page]; [headers] was built before
    it. *)
Fixpoint fetch_loop (sc : BingSearchScraper) (url : string)
    (headers : list (string * string)) (fuel : nat) (attempt : Z)
  : M string :=
  match fuel with
  | O => out_of_fuel
  | S fuel' =>
      let attempt := attempt + 1 in
      got <- fetch_attempt sc url headers attempt ;;
      match got with
      | None => fetch_loop sc url headers fuel' attempt
      | Some resp =>
          if is_soft_blocked (text resp) then
            log WARNING "Potential soft-block detected for url: %s" ;;
            handle_soft_block (softblock_handler sc) url (Some (text resp))
          else
            (if negb (ok resp)
             then log WARNING "Unexpected HTTP status %s for url %s"
             else ret tt) ;;
            ret (text resp)
      end
  end.

(** A failed attempt is retried only while [attempt < max_retries]. *)
Definition fetch_fuel (sc : BingSearchScraper) : nat :=
  S (Z.to_nat (max_retries (softblock_handler sc))).

Definition _fetch_page (sc : BingSearchScraper) (url : string) : M string :=
  ua <- random_choice DEFAULT_USER_AGENTS ;;
  let headers := [("User-Agent", ua)] in
  log DEBUG "Requesting Bing SERP: %s" ;;
  let attempt := 0 in
  fetch_loop sc url headers (fetch_fuel sc) attempt.

(** ** Record extractor ([bing_parser.py])

    BeautifulSoup is not part of the repository: the extractor is
    written over the calls it makes on it, each of which may return or
    raise.  [DomSoup] below gives these calls a meaning on trees. *)

(** What a call on the library comes back with. *)
Inductive result (A : Type) : Type :=
| Returns (a : A)
| Raises (e : exn).
Arguments Returns {A} a.
Arguments Raises {A} e.

Class Soup (node : Type) : Type := {
  (** [BeautifulSoup(html, "lxml")] *)
  parse : string -> result node;
  (** [el.select(css)] *)
  select : node -> string -> result (list node);
  (** [el.select_one(css)] *)
  select_one : node -> string -> result (option node);
  (** [el.find(name)] *)
  find : node -> string -> result (option node);
  (** [el.find(name, class_=cls)] *)
  find_class : node -> string -> string -> result (option node);
  (** [el.find(name, href=True)] *)
  find_href : node -> string -> result (option node);
  (** [el.find_all(name)] *)
  find_all : node -> string -> result (list node);
  (** [el.get(attr)] for an attribute with one value *)
  get : node -> string -> result (option string);
  (** [el.get("class", [])] *)
  get_classes : node -> result (list string);
  (** [el.get_text(sep, strip=True)] *)
  get_text : node -> string -> result string
}.

(** A call on the library inside the monad. *)
Definition call {A} (r : result A) : M A :=
  fun _ s =>
    (match r with
     | Returns a => Ok a
     | Raises e => Raise e
     end, s).

(** A library that answers every call on a node: none raises. *)
Record answers_every_call {node : Type} (api : Soup node) : Prop := {
  answers_select :
    forall n css, exists r, select n css = Returns r;
  answers_select_one :
    forall n css, exists r, select_one n css = Returns r;
  answers_find :
    forall n name, exists r, find n name = Returns r;
  answers_find_class :
    forall n name cls, exists r, find_class n name cls = Returns r;
  answers_find_href :
    forall n name, exists r, find_href n name = Returns r;
  answers_find_all :
    forall n name, exists r, find_all n name = Returns r;
  answers_get :
    forall n name, exists r, get n name = Returns r;
  answers_get_classes :
    forall n, exists r, get_classes n = Returns r;
  answers_get_text :
    forall n sep, exists r, get_text n sep = Returns r
}.

Record SearchQueryMeta : Set := mkMeta {
  meta_term : string;
  meta_resultsPerPage : Z;
  meta_page : Z;
  meta_url : string;
  meta_marketCode : string;
  meta_languageCode : string
}.

Record OrganicItem : Set := mkOrganic {
  org_iconUrl : option string;
  org_displayedUrl : string;
  org_title : string;
  org_url : string;
  org_description : string;
  org_emphasizedKeywords : list string;
  org_type : string;
  org_position : Z
}.

Record PaidItem : Set := mkPaid {
  ad_title : string;
  ad_url : string;
  ad_displayedUrl : string;
  ad_description : string;
  ad_type : string;
  ad_position : Z
}.

Record QAItem : Set := mkQA {
  qa_url : option string;
  qa_question : string;
  qa_answer : option string
}.

Record RelatedItem : Set := mkRelated {
  rel_title : string;
  rel_url : option string
}.

Record PageRecord : Set := mkPage {
  searchQuery : SearchQueryMeta;
  html : option string;
  htmlSnapshotUrl : option string;
  resultsTotal : option Z;
  organicResults : list OrganicItem;
  paidResults : list PaidItem;
  peopleAlsoAsk : list QAItem;
  relatedQueries : list RelatedItem
}.

(** Truth of a [str] or [None]: a string that is there and not empty. *)
Definition truthy (o : option string) : bool :=
  match o with
  | Some (String _ _) => true
  | _ => false
  end.

Definition is_empty (s : string) : bool :=
  match s with
  | EmptyString => true
  | _ => false
  end.

(** ["".join(ch for ch in text if ch.isdigit())], character by
    character. *)
Definition digits_of (text : string) : list N :=
  filter Utf8.isdigit (map fst (Utf8.chars text)).

(** The number a run of decimal digits writes, from the value [acc] of
    the digits read so far; [None] at a digit that is no decimal
    digit. *)
Fixpoint digits_value (acc : Z) (digits : list N) : option Z :=
  match digits with
  | [] => Some acc
  | c :: t =>
      match Utf8.decimal_value c with
      | Some d => digits_value (10 * acc + d) t
      | None => None
      end
  end.

(** [int(digits)] on digits, of which there is one at least.  It raises
    [ValueError] at a digit that is no decimal digit (a superscript, say),
    and CPython refuses more than
    [sys.int_info.default_max_str_digits = 4300] digits with
    [ValueError]. *)
Definition int_of_digits (digits : list N) : result Z :=
  if (4300 <? length digits)%nat then Raises ValueError
  else match digits_value 0 digits with
       | Some n => Returns n
       | None => Raises ValueError
       end.

Section Extractor.

Context {node : Type} {api : Soup node}.

(** The body of the [try] of [_extract_results_total]. *)
Definition results_total_body (soup : node) : M (option Z) :=
  count_el <- call (select_one soup "#b_tween .sb_count") ;;
  match count_el with
  | None => ret None
  | Some el =>
      stripped <- call (get_text el "") ;;
      if is_empty stripped then ret None
      else
        text <- call (get_text el " ") ;;
        let digits := digits_of text in
        match digits with
        | [] => ret None
        | _ :: _ =>
            n <- call (int_of_digits digits) ;;
            ret (Some n)
        end
  end.

(** [try: ... except Exception as exc: logger.debug(...); return None] *)
Definition _extract_results_total (soup : node) : M (option Z) :=
  try_except (results_total_body soup)
    (fun _ => Some (log DEBUG "Failed to parse results total: %s" ;;
                    ret None)).

(** The title/link requirement of a listing: the link of its heading,
    with its address, when [h2], [a] and a [href] that is not empty are
    all there; [None] is the [continue] of the loops. *)
Definition heading_link (li : node) : result (option (node * string)) :=
  match find li "h2" with
  | Raises e => Raises e
  | Returns None => Returns None
  | Returns (Some title_el) =>
      match find title_el "a" with
      | Raises e => Raises e
      | Returns None => Returns None
      | Returns (Some link) =>
          match get link "href" with
          | Raises e => Raises e
          | Returns None => Returns None
          | Returns (Some url) =>
              if is_empty url then Returns None
              else Returns (Some (link, url))
          end
      end
  end.

(** The addresses of the listings that pass the requirement, in order. *)
Definition passing_urls (listings : list node) : list string :=
  flat_map (fun li => match heading_link li with
                      | Returns (Some (_, url)) => [url]
                      | _ => []
                      end)
           listings.

(** [kw.lower() not in {k.lower() for k in emphasized_keywords}] *)
Definition seen_ignoring_case (kw : string) (keywords : list string) : bool :=
  existsb (String.eqb (PyStr.lower kw)) (map PyStr.lower keywords).

(** The [for strong in li.find_all("strong")] loop. *)
Fixpoint keywords_loop (strongs : list node) (emphasized : list string)
  : M (list string) :=
  match strongs with
  | [] => ret emphasized
  | strong :: rest =>
      kw <- call (get_text strong "") ;;
      if negb (is_empty kw) && negb (seen_ignoring_case kw emphasized)
      then keywords_loop rest (emphasized ++ [kw])
      else keywords_loop rest emphasized
  end.

(** The item of a listing that passed, from [url = link.get("href")]
    on. *)
Definition organic_item (li link : node) (url : string) (position : Z)
  : M OrganicItem :=
  title <- call (get_text link "") ;;
  desc_el <- call (find li "p") ;;
  description <- match desc_el with
                 | Some p => call (get_text p " ")
                 | None => ret ""
                 end ;;
  display_url_el <- call (select_one li "div.b_attribution cite") ;;
  displayed_url <- match display_url_el with
                   | Some c => call (get_text c "")
                   | None => ret url
                   end ;;
  icon_el <- call (select_one li "img.favicon, img.b_primicon") ;;
  icon_url <- match icon_el with
              | Some img =>
                  src <- call (get img "src") ;;
                  ret (if truthy src then src else None)
              | None => ret None
              end ;;
  strongs <- call (find_all li "strong") ;;
  emphasized_keywords <- keywords_loop strongs [] ;;
  ret (mkOrganic icon_url displayed_url title url description
         emphasized_keywords "organic" position).

(** The [for li in ...] loop of [_extract_organic_results] and of
    [_extract_paid_results], with its counter and the list it appends to;
    [build] is what each of the two makes of a listing that passed. *)
Fixpoint listing_loop {I : Type} (build : node -> node -> string -> Z -> M I)
    (listings : list node) (position : Z) (items : list I) : M (list I) :=
  match listings with
  | [] => ret items
  | li :: rest =>
      passed <- call (heading_link li) ;;
      match passed with
      | None => listing_loop build rest position items
      | Some (link, url) =>
          let position := position + 1 in
          item <- build li link url position ;;
          listing_loop build rest position (items ++ [item])
      end
  end.

Definition _extract_organic_results (soup : node) : M (list OrganicItem) :=
  organic_listings <- call (select soup "#b_results li.b_algo") ;;
  listing_loop organic_item organic_listings 0 [].

Definition paid_item (li link : node) (url : string) (position : Z)
  : M PaidItem :=
  title <- call (get_text link "") ;;
  desc_el <- call (find li "p") ;;
  description <- match desc_el with
                 | Some p => call (get_text p " ")
                 | None => ret ""
                 end ;;
  display_url_el <-
    call (select_one li "div.b_adurl cite, div.b_attribution cite") ;;
  displayed_url <- match display_url_el with
                   | Some c => call (get_text c "")
                   | None => ret url
                   end ;;
  ret (mkPaid title url displayed_url description "ad" position).

Definition _extract_paid_results (soup : node) : M (list PaidItem) :=
  paid_blocks <-
    call (select soup "#b_results li.b_ad, #b_results li.b_adresult") ;;
  listing_loop paid_item paid_blocks 0 [].

(** [s or None] *)
Definition or_none (s : string) : option string :=
  if is_empty s then None else Some s.

Fixpoint paa_loop (blocks : list node) (items : list QAItem)
  : M (list QAItem) :=
  match blocks with
  | [] => ret items
  | block :: rest =>
      question_el <- call (find_class block "div" "b_qa") ;;
      found <-
        match question_el with
        | Some q =>
            q_el <- call (find_class q "div" "b_q") ;;
            question_text <- match q_el with
                             | Some el => call (get_text el " ")
                             | None => ret ""
                             end ;;
            a_el <- call (find_class q "div" "b_a") ;;
            answer_text <- match a_el with
                           | Some el => call (get_text el " ")
                           | None => ret ""
                           end ;;
            link <- call (find_href q "a") ;;
            url <- match link with
                   | Some a => call (get a "href")
                   | None => ret None
                   end ;;
            ret (question_text, answer_text, url)
        | None => ret ("", "", None)
        end ;;
      let '(question_text, answer_text, url) := found in
      if negb (is_empty question_text)
      then paa_loop rest (items ++ [mkQA url question_text (or_none answer_text)])
      else paa_loop rest items
  end.

Definition _extract_people_also_ask (soup : node) : M (list QAItem) :=
  paa_blocks <- call (select soup "#b_context .b_expando") ;;
  paa_loop paa_blocks [].

Fixpoint related_loop (li_items : list node) (items : list RelatedItem)
  : M (list RelatedItem) :=
  match li_items with
  | [] => ret items
  | li :: rest =>
      link <- call (find_href li "a") ;;
      match link with
      | None => related_loop rest items
      | Some a =>
          title <- call (get_text a " ") ;;
          url <- call (get a "href") ;;
          if negb (is_empty title)
          then related_loop rest (items ++ [mkRelated title url])
          else related_loop rest items
      end
  end.

Definition _extract_related_queries (soup : node) : M (list RelatedItem) :=
  related_section <-
    call (select soup "#b_context .b_rs, #b_context .b_rs ul li") ;;
  match related_section with
  | [] => ret []
  | first :: _ =>
      classes <- call (get_classes first) ;;
      li_items <- (if existsb (String.eqb "b_rs") classes
                   then call (select first "li")
                   else ret related_section) ;;
      related_loop li_items []
  end.

Definition _parse_page (sc : BingSearchScraper) (markup : string)
    (meta : SearchQueryMeta) : M PageRecord :=
  soup <- call (parse markup) ;;
  results_total <- _extract_results_total soup ;;
  organic_results <- _extract_organic_results soup ;;
  paid_results <- _extract_paid_results soup ;;
  people_also_ask <- _extract_people_also_ask soup ;;
  related_queries <- _extract_related_queries soup ;;
  ret (mkPage meta
         (if include_html sc then Some markup else None)
         None
         results_total
         organic_results
         paid_results
         people_also_ask
         related_queries).

End Extractor.

(** ** Query orchestrator ([bing_parser.py]) *)

(** [n or default] for an [Optional[int]] *)
Definition or_int (o : option Z) (default : Z) : Z :=
  match o with
  | Some n => if n =? 0 then default else n
  | None => default
  end.

(** [s or default] for an [Optional[str]] *)
Definition or_str (o : option string) (default : string) : string :=
  if truthy o then or_empty o else default.

(** [range(a, b)] *)
Definition py_range (a b : Z) : list Z :=
  map (fun i => a + Z.of_nat i) (seq 0 (Z.to_nat (b - a))).

Section Orchestrator.

Context {node : Type} {api : Soup node}.

(** The [for page in range(1, pages + 1)] loop of [search], with the
    list it appends to. *)
Fixpoint search_loop (sc : BingSearchScraper) (term : string) (rp : Z)
    (mkt lang : string) (pages : list Z) (results : list PageRecord)
  : M (list PageRecord) :=
  match pages with
  | [] => ret results
  | page :: rest =>
      let url := _build_search_url term page rp mkt lang in
      let search_meta := mkMeta term rp page url mkt lang in
      markup <- _fetch_page sc url ;;
      page_result <- _parse_page sc markup search_meta ;;
      let results := (results ++ [page_result])%list in
      pause <- random_uniform Binary64.lit_0_8 Binary64.lit_1_6 ;;
      sleep pause ;;
      search_loop sc term rp mkt lang rest results
  end.

(** The arguments [results_per_page], [market_code] and [language_code]
    of [search] are written [rp_arg], [mkt_arg] and [lang_arg]: the
    scraper's fields have these names. *)
Definition search (sc : BingSearchScraper) (term : string) (pages : Z)
    (rp_arg : option Z) (mkt_arg lang_arg : option string)
  : M (list PageRecord) :=
  let rp := or_int rp_arg (results_per_page sc) in
  let mkt := or_str mkt_arg (market_code sc) in
  let lang := or_str lang_arg (language_code sc) in
  search_loop sc term rp mkt lang (py_range 1 (pages + 1)) [].

End Orchestrator.

(** ** A document model for the calls on BeautifulSoup

    Modelled from the library's documented behaviour: a parsed document is
    a tree of elements and text; [find], [find_all] and [select] walk the
    descendants in document order; a selector is a list of chains of
    compound selectors ([tag], [#id], [.class]) under the descendant
    combinator, which is all the source uses.  The HTML parser itself is
    a parameter. *)

Module Dom.

#[warnings="-register-all"]
Inductive tree : Set :=
| Text (s : string)
| Elem (tag : string) (attrs : list (string * string)) (kids : list tree).

Definition ancestors : Set := list (string * list (string * string)).

(** A node as the library hands it out: the subtree, and the elements
    above it, nearest first (the library reaches them through [parent]). *)
Record handle : Set := mkHandle { above : ancestors; here : tree }.

Fixpoint attr (name : string) (attrs : list (string * string))
  : option string :=
  match attrs with
  | [] => None
  | (k, v) :: rest => if String.eqb k name then Some v else attr name rest
  end.

Fixpoint rev_onto (s acc : string) : string :=
  match s with
  | EmptyString => acc
  | String c t => rev_onto t (String c acc)
  end.

Definition rev (s : string) : string := rev_onto s EmptyString.

(** [s.split(sep)] on one character, empty pieces kept; [cur] is the
    piece being read, backwards. *)
Fixpoint split_on (sep : ascii) (s : string) (cur : string) : list string :=
  match s with
  | EmptyString => [rev cur]
  | String c t =>
      if Ascii.eqb c sep then rev cur :: split_on sep t EmptyString
      else split_on sep t (String c cur)
  end.

Definition classes_of (attrs : list (string * string)) : list string :=
  match attr "class" attrs with
  | Some v => Utf8.split v
  | None => []
  end.

(** The nodes below [t], in document order; [up] is what is above [t]. *)
Fixpoint descendants (up : ancestors) (t : tree) : list handle :=
  match t with
  | Text _ => []
  | Elem tag attrs kids =>
      let up' := (tag, attrs) :: up in
      (fix walk (ks : list tree) : list handle :=
         match ks with
         | [] => []
         | k :: ks' => mkHandle up' k :: descendants up' k ++ walk ks'
         end) kids
  end.

Definition below (h : handle) : list handle := descendants (above h) (here h).

(** A compound selector: [tag#id.class.class]. *)
Record compound : Set := mkCompound {
  c_tag : option string;
  c_id : option string;
  c_classes : list string
}.

Definition matches_compound (c : compound) (tag : string)
    (attrs : list (string * string)) : bool :=
  match c_tag c with Some t => String.eqb t tag | None => true end
  && match c_id c with
     | Some i => match attr "id" attrs with
                 | Some v => String.eqb i v
                 | None => false
                 end
     | None => true
     end
  && forallb (fun k => existsb (String.eqb k) (classes_of attrs))
             (c_classes c).

(** The compounds [cs], nearest first, are matched by elements of [up]
    in this order (each by the nearest element that can). *)
Fixpoint matches_up (cs : list compound) (up : ancestors) : bool :=
  match cs with
  | [] => true
  | c :: cs' =>
      (fix scan (u : ancestors) : bool :=
         match u with
         | [] => false
         | (tag, attrs) :: u' =>
             if matches_compound c tag attrs then matches_up cs' u'
             else scan u'
         end) up
  end.

(** A chain of compounds under the descendant combinator, the subject
    last. *)
Definition matches_chain (chain : list compound) (h : handle) : bool :=
  match List.rev chain, here h with
  | subject :: before, Elem tag attrs _ =>
      matches_compound subject tag attrs && matches_up before (above h)
  | _, _ => false
  end.

Definition flush (mode : nat) (cur : string) (c : compound) : compound :=
  if is_empty cur then c
  else match mode with
       | O => mkCompound (Some (rev cur)) (c_id c) (c_classes c)
       | S O => mkCompound (c_tag c) (Some (rev cur)) (c_classes c)
       | _ => mkCompound (c_tag c) (c_id c) (c_classes c ++ [rev cur])
       end.

(** Reading a compound: [#] starts an id, [.] a class, what comes first
    is the tag. *)
Fixpoint read_compound (s : string) (mode : nat) (cur : string)
    (c : compound) : compound :=
  match s with
  | EmptyString => flush mode cur c
  | String x t =>
      if Ascii.eqb x "#" then read_compound t 1 EmptyString (flush mode cur c)
      else if Ascii.eqb x "."
      then read_compound t 2 EmptyString (flush mode cur c)
      else read_compound t mode (String x cur) c
  end.

Definition read_chain (s : string) : list compound :=
  map (fun w => read_compound w 0 EmptyString (mkCompound None None []))
      (Utf8.split s).

(** A selector list: chains separated by commas. *)
Definition read_selector (css : string) : list (list compound) :=
  map read_chain (split_on "," css EmptyString).

Definition is_tag (name : string) (h : handle) : bool :=
  match here h with
  | Elem tag _ _ => String.eqb tag name
  | Text _ => false
  end.

Definition attrs_of (h : handle) : list (string * string) :=
  match here h with
  | Elem _ attrs _ => attrs
  | Text _ => []
  end.

Definition dom_select (h : handle) (css : string) : list handle :=
  let chains := read_selector css in
  filter (fun d => existsb (fun chain => matches_chain chain d) chains)
         (below h).

Definition dom_find_all (h : handle) (name : string) : list handle :=
  filter (is_tag name) (below h).

Definition dom_find_class (h : handle) (name cls : string) : option handle :=
  hd_error
    (filter (fun d => is_tag name d
                      && existsb (String.eqb cls) (classes_of (attrs_of d)))
            (below h)).

Definition dom_find_href (h : handle) (name : string) : option handle :=
  hd_error
    (filter (fun d => is_tag name d
                      && match attr "href" (attrs_of d) with
                         | Some _ => true
                         | None => false
                         end)
            (below h)).

(** The stripped strings below [h] that are not empty, joined. *)
Definition dom_get_text (h : handle) (sep : string) : string :=
  PyStr.join sep
    (flat_map (fun d => match here d with
                        | Text s =>
                            if is_empty (Utf8.strip s) then []
                            else [Utf8.strip s]
                        | Elem _ _ _ => []
                        end)
              (below h)).

(** The document object above the top-level nodes. *)
Definition document (top : list tree) : handle :=
  mkHandle [] (Elem "[document]" [] top).

End Dom.

(** The calls on documents, none of which raises once the parser has
    returned. *)
#[export] Instance DomSoup (parser : string -> result (list Dom.tree))
  : Soup Dom.handle := {
  parse markup :=
    match parser markup with
    | Returns top => Returns (Dom.document top)
    | Raises e => Raises e
    end;
  select h css := Returns (Dom.dom_select h css);
  select_one h css := Returns (hd_error (Dom.dom_select h css));
  find h name := Returns (hd_error (Dom.dom_find_all h name));
  find_class h name cls := Returns (Dom.dom_find_class h name cls);
  find_href h name := Returns (Dom.dom_find_href h name);
  find_all h name := Returns (Dom.dom_find_all h name);
  get h name := Returns (Dom.attr name (Dom.attrs_of h));
  get_classes h := Returns (Dom.classes_of (Dom.attrs_of h));
  get_text h sep := Returns (Dom.dom_get_text h sep)
}.

(** What one turn of the recovery loop adds to the trace before its
    request is answered, when the backoff's base is [base]. *)
Definition attempt_events (url : string) (base : Binary64.dy)
    (w : World) (s : State) : list event :=
  let raw1 := draws w (n_draws s) in
  let raw2 := draws w (S (n_draws s)) in
  [ EDraw DUniform raw1;
    ELog WARNING "Soft block detected. Retrying attempt %d/%d after %.2fs";
    ESleep (Binary64.add base
              (Binary64.uniform_of_draw Binary64.zero Binary64.half raw1));
    EDraw DRandint raw2;
    EGet (mkRequest url (recovery_headers (110 + raw2 mod (125 - 110 + 1))) 15) ].

(** The delay of [attempt] under the draw [raw] can be computed and
    slept: the power does not overflow, and the delay is not negative
    and below [2^62] nanoseconds. *)
Definition delay_ready (h : SoftBlockHandler) (attempt raw : Z) : Prop :=
  exists base,
    backoff_base h attempt = Some base /\
    sleepable (Binary64.add base
                 (Binary64.uniform_of_draw Binary64.zero Binary64.half raw))
    = true.

(** The delays of the [n] attempts after attempt [from] can be computed
    and slept, the first of them drawing the generator's [d]-th number
    (an attempt of the recovery takes two draws). *)
Definition recovery_ready (h : SoftBlockHandler) (w : World) (d : nat)
    (from : Z) (n : nat) : Prop :=
  forall i, (i < n)%nat ->
    delay_ready h (from + 1 + Z.of_nat i) (draws w (d + 2 * i)).

(** The [n] replies from the [g]-th on all leave the loop running. *)
Definition all_keep_blocked (w : World) (g n : nat) : Prop :=
  forall i, (i < n)%nat -> keeps_blocked (replies w (g + i)) = true.

(** The number of requests in a trace. *)
Definition requests_in (t : list event) : nat :=
  length (filter (fun e => match e with EGet _ => true | _ => false end) t).

(** The number of draws from the user-agent pool in a trace. *)
Definition agent_draws_in (t : list event) : nat :=
  length (filter (fun e => match e with
                           | EDraw DChoice _ => true
                           | _ => false
                           end) t).

(** The user-agent a request carries. *)
Definition agent_of (r : Request) : option string :=
  match req_headers r with
  | (_, ua) :: _ => Some ua
  | [] => None
  end.

(** The requests of a trace, in order. *)
Fixpoint requests_of (t : list event) : list Request :=
  match t with
  | [] => []
  | EGet r :: t' => r :: requests_of t'
  | _ :: t' => requests_of t'
  end.

(** An event of the network-retry loop of [_fetch_page] under the
    headers [headers]: no draw from the pool, and every request is the
    same one. *)
Definition fetch_event (sc : BingSearchScraper) (url : string)
    (headers : list (string * string)) (e : event) : Prop :=
  match e with
  | EDraw DUniform _ => True
  | EDraw _ _ => False
  | EGet r => r = mkRequest url headers (request_timeout sc)
  | _ => True
  end.

(** An event of the block recovery: no draw from the pool, and every
    request carries the recovery's own headers. *)
Definition recovery_event (url : string) (e : event) : Prop :=
  match e with
  | EDraw DChoice _ => False
  | EGet r => exists chrome, r = mkRequest url (recovery_headers chrome) 15
  | _ => True
  end.

(** An event that is no request, or a request for [url]. *)
Definition request_for (url : string) (e : event) : Prop :=
  match e with
  | EGet r => req_url r = url
  | _ => True
  end.

(** A stretch of trace in which the locators [urls] are served one after
    the other, possibly not all of them: it falls into segments, the
    [i]-th holding requests for the [i]-th locator only. *)
Inductive served : list string -> list event -> Prop :=
| served_stop (urls : list string) : served urls []
| served_page (url : string) (urls : list string) (segment t : list event) :
    Forall (request_for url) segment ->
    served urls t ->
    served (url :: urls) (segment ++ t).

(** A computation that returns, in every world and from every state. *)
Definition total {A} (c : M A) : Prop :=
  forall w s, exists a s', c w s = (Ok a, s').

(** A computation that ends, returning or raising: its loops are
    unrolled often enough. *)
Definition finishes {A} (c : M A) : Prop :=
  forall w s, fst (c w s) <> OutOfFuel.

(** The positions [1, 2, ..., n]. *)
Definition one_to (n : nat) : list Z := map Z.of_nat (seq 1 n).

(** What a computation adds to the trace satisfies [P], event by
    event. *)
Definition adds {A} (c : M A) (P : event -> Prop) : Prop :=
  forall w s, exists more,
    trace (snd (c w s)) = (trace s ++ more)%list /\ Forall P more.

(** [x ** j < x ** (j + 1)], both defined, for the [n] exponents [j]
    from [i] on; [p] is the exact mantissa [mant x ^ i], carried along. *)
Fixpoint pow_increasing_from (x : Binary64.dy) (n : nat) (i p : Z) : bool :=
  match n with
  | O => true
  | S n' =>
      let p' := p * Binary64.mant x in
      match Binary64.pow_rounded x i p,
            Binary64.pow_rounded x (i + 1) p' with
      | Some a, Some b =>
          Binary64.ltb a b && pow_increasing_from x n' (i + 1) p'
      | _, _ => false
      end
  end.

(** ** Scenarios

    Concrete handlers, bodies and worlds, on which the theorems below are
    run. *)

Module Scenario.

Definition url : string := "https://www.bing.com/search?q=rocq&first=1".

Definition blocked_body : string :=
  "<html><body>We have detected unusual traffic.</body></html>".

Definition plain_body : string :=
  "<html><body><ol id=b_results></ol></body></html>".

(** Retry ceiling 2, the default backoff factor (scenario F). *)
Definition handler2 : SoftBlockHandler := mkHandler 2 Binary64.three_halves.

Definition some_draws (n : nat) : Z := 7919 * Z.of_nat n + 4242.

(** The clock of a machine that has been up for some hours. *)
Definition uptime (n : nat) : Z := 17026819295635 + 1000000 * Z.of_nat n.

(** Every request is answered with a blocked body. *)
Definition always_blocked : World :=
  mkWorld some_draws (fun _ => Answers (mkResponse blocked_body 200)) uptime.

(** The first request times out, the second is answered with a blocked
    body, every later one with a plain body. *)
Definition timeout_then_blocked : World :=
  mkWorld some_draws
    (fun n => match n with
              | O => Fails Timeout
              | S O => Answers (mkResponse blocked_body 200)
              | _ => Answers (mkResponse plain_body 200)
              end)
    uptime.

(** Every request times out. *)
Definition always_timeout : World :=
  mkWorld some_draws (fun _ => Fails Timeout) uptime.

(** The first request times out, every later one is answered with a
    plain body (scenario D). *)
Definition timeout_then_plain : World :=
  mkWorld some_draws
    (fun n => match n with
              | O => Fails Timeout
              | _ => Answers (mkResponse plain_body 200)
              end)
    uptime.

(** A results page: a count, three organic listings of which the second
    has a heading without a link (scenario C) and the first no paragraph
    (scenario B), one ad, one question, and two related searches of
    which the second has no visible text. *)
Definition serp_markup : string := "<html>a results page</html>".

Definition serp : Dom.tree :=
  let E := Dom.Elem in let T := Dom.Text in
  E "html" [] [ E "body" []
    [ E "div" [("id", "b_tween")]
        [ E "span" [("class", "sb_count")] [T " About 1,234 results "] ];
      E "ol" [("id", "b_results")]
        [ E "li" [("class", "b_algo")]
            [ E "h2" []
                [ E "a" [("href", "https://example.com")]
                    [T "Example "; E "strong" [] [T "Domain"]] ] ];
          E "li" [("class", "b_algo")]
            [ E "h2" [] [T "No link here"]; E "p" [] [T "text"] ];
          E "li" [("class", "b_algo rich")]
            [ E "h2" [] [ E "a" [("href", "https://rocq-prover.org")] [T "Rocq"] ];
              E "div" [("class", "b_attribution")]
                [ E "cite" [] [T "rocq-prover.org"] ];
              E "p" []
                [ T "The "; E "strong" [] [T "Rocq"]; T " prover, ";
                  E "strong" [] [T "rocq"]; T " again" ] ];
          E "li" [("class", "b_ad")]
            [ E "h2" [] [ E "a" [("href", "https://ads.example")] [T "Ad"] ];
              E "p" [] [T "Buy"] ] ];
      E "div" [("id", "b_context")]
        [ E "div" [("class", "b_expando")]
            [ E "div" [("class", "b_qa")]
                [ E "div" [("class", "b_q")] [T "What is Rocq?"];
                  E "div" [("class", "b_a")] [T "A prover."];
                  E "a" [("href", "https://q.example")] [T "more"] ] ];
          E "div" [("class", "b_rs")]
            [ E "ul" []
                [ E "li" [] [ E "a" [("href", "/search?q=coq")] [T "coq"] ];
                  E "li" [] [ E "a" [("href", "/x")] [T " "] ] ] ] ] ] ].

(** A page whose count region holds 4301 digits, more than [int] takes,
    and one organic listing. *)
Definition long_count_markup : string := "<html>a long count</html>".

Fixpoint sevens (n : nat) : string :=
  match n with
  | O => EmptyString
  | S n' => String "7" (sevens n')
  end.

Definition long_count : Dom.tree :=
  let E := Dom.Elem in let T := Dom.Text in
  E "html" [] [ E "body" []
    [ E "div" [("id", "b_tween")]
        [ E "span" [("class", "sb_count")] [T (sevens 4301)] ];
      E "ol" [("id", "b_results")]
        [ E "li" [("class", "b_algo")]
            [ E "h2" []
                [ E "a" [("href", "https://example.com")] [T "Example"] ] ] ] ] ].

(** A page whose count region reads "10" and a superscript two (the
    character U+00B2, a digit to [isdigit] and none to [int]), and the
    same organic listing. *)
Definition squared_count_markup : string := "<html>a squared count</html>".

Definition superscript_two : string :=
  String "194" (String "178" EmptyString).

Definition squared_count : Dom.tree :=
  let E := Dom.Elem in let T := Dom.Text in
  E "html" [] [ E "body" []
    [ E "div" [("id", "b_tween")]
        [ E "span" [("class", "sb_count")]
            [T ("About 10" ++ superscript_two ++ " results")] ];
      E "ol" [("id", "b_results")]
        [ E "li" [("class", "b_algo")]
            [ E "h2" []
                [ E "a" [("href", "https://example.com")] [T "Example"] ] ] ] ] ].

(** A parser that knows these three pages; any other markup is an empty
    document to it. *)
Definition parser (markup : string) : result (list Dom.tree) :=
  if String.eqb markup serp_markup then Returns [serp]
  else if String.eqb markup long_count_markup then Returns [long_count]
  else if String.eqb markup squared_count_markup then Returns [squared_count]
  else Returns [].

(** The first request is answered with the results page, every later
    one times out. *)
Definition serp_then_timeouts : World :=
  mkWorld some_draws
    (fun n => match n with
              | O => Answers (mkResponse serp_markup 200)
              | _ => Fails Timeout
              end)
    uptime.

(** Every request is answered with the results page. *)
Definition always_serp : World :=
  mkWorld some_draws (fun _ => Answers (mkResponse serp_markup 200)) uptime.

Definition meta : SearchQueryMeta :=
  mkMeta "rocq" 10 1 url "en-US" "en".

(** The generator's largest draw, [random.random() = 1 - 2^-53], every
    time; every request is answered with a plain body. *)
Definition top_draw : World :=
  mkWorld (fun _ => 2 ^ 53 - 1)
          (fun _ => Answers (mkResponse plain_body 200))
          uptime.

(** The results total [_parse_page] gives for a page the parser
    knows. *)
Definition results_total_of (markup : string) : option (option Z) :=
  match @_parse_page _ (DomSoup parser) default_scraper markup meta
          always_serp initial with
  | (Ok page, _) => Some (resultsTotal page)
  | _ => None
  end.

End Scenario.

(** ** Further vocabulary of the properties *)

(** A request of the block recovery: the locator the recovery was given,
    the user-agent of a Chrome from 110 to 125, no caching, 15 seconds. *)
Definition recovery_request (url : string) (r : Request) : Prop :=
  exists chrome,
    110 <= chrome <= 125 /\ r = mkRequest url (recovery_headers chrome) 15.

(** An event that is no request, or such a request. *)
Definition recovery_sends (url : string) (e : event) : Prop :=
  match e with
  | EGet r => recovery_request url r
  | _ => True
  end.

(** The [n] replies from the [g]-th on are all timeouts or connection
    failures. *)
Definition all_network_failures (w : World) (g n : nat) : Prop :=
  forall i, (i < n)%nat ->
    exists e, replies w (g + i) = Fails e /\ is_network_failure e = true.

(** The delays after the failed attempts [from + 1], ..., [from + n] of
    a fetch can be computed and slept, the first of them drawing the
    generator's [d]-th number (a delay of the fetch takes one draw). *)
Definition fetch_ready (h : SoftBlockHandler) (w : World) (d : nat)
    (from : Z) (n : nat) : Prop :=
  forall i, (i < n)%nat ->
    delay_ready h (from + 1 + Z.of_nat i) (draws w (d + i)).

(** The requests a fetch makes before it gives up on a network that
    only fails: one for each retry the ceiling allows, and one at
    least. *)
Definition fetch_attempts (sc : BingSearchScraper) : nat :=
  Z.to_nat (Z.max 1 (max_retries (softblock_handler sc))).

(** ** Further scenarios *)

Module Cases.

(** Every request fails with an exception of [requests] that is neither
    a timeout nor a connection failure. *)
Definition redirect_loop : World :=
  mkWorld Scenario.some_draws
    (fun _ => Fails (OtherError "TooManyRedirects")) Scenario.uptime.

(** Every request is answered with a server error whose body is not
    blocked. *)
Definition server_error : World :=
  mkWorld Scenario.some_draws
    (fun _ => Answers (mkResponse Scenario.plain_body 503)) Scenario.uptime.

End Cases.

(** The user-agent [random.choice] takes from the pool at the draw
    [raw]. *)
Definition drawn_agent (raw : Z) : string :=
  nth (Z.to_nat (raw mod Z.of_nat (length DEFAULT_USER_AGENTS)))
      DEFAULT_USER_AGENTS "".

(** Keywords that are not empty and differ from each other even when
    the case of the letters A to Z is set aside. *)
Definition distinct_keywords (keywords : list string) : Prop :=
  NoDup (map PyStr.lower keywords) /\ Forall (fun k => k <> "") keywords.

(** A computation that leaves the state as it found it: no draw, no
    request, no sleep, no line in the log. *)
Definition quiet {A} (c : M A) : Prop :=
  forall w s, snd (c w s) = s.

(** A dyadic that is a binary64 number as it stands, and not negative:
    at most 53 bits ([2^53] itself included, the one 54-bit mantissa a
    rounding can give), over an exponent binary64 has. *)
Definition is_binary64 (x : Binary64.dy) : Prop :=
  0 <= Binary64.mant x <= 2 ^ 53 /\ Binary64.emin <= Binary64.expo x.

(** The exact product of two dyadics, which [mul] rounds. *)
Definition exact_product (x y : Binary64.dy) : Binary64.dy :=
  Binary64.Dy (Binary64.mant x * Binary64.mant y)
              (Binary64.expo x + Binary64.expo y).


(** ** Reading an encoded value back

    [read_byte] is no part of the program: it reads the first byte off a
    string written by [Url.quote_plus], and is what shows that the
    encoding of two different values differs. *)

Definition hex_value (c : ascii) : N :=
  let n := N_of_ascii c in
  if (n <? 58)%N then (n - 48)%N else (n - 55)%N.

Definition read_byte (s : string) : option (ascii * string) :=
  match s with
  | EmptyString => None
  | String c r =>
      if Ascii.eqb c "+" then Some (" "%char, r)
      else if Ascii.eqb c "%" then
        match r with
        | String h1 (String h2 r') =>
            Some (ascii_of_N (16 * hex_value h1 + hex_value h2), r')
        | _ => None
        end
      else Some (c, r)
  end.

(* ================================================================== *)
(** * Part II: properties *)
(* ================================================================== *)

(** ** Strings *)

Section StringFacts.

Lemma prefix_app (a b : string) : String.prefix a (a ++ b) = true.
Proof.
  induction a as [|c a IH]; simpl.
  - destruct b; reflexivity.
  - destruct (ascii_dec c c) as [_|n]; [exact IH | contradiction].
Qed.

Lemma prefix_split (a h : string) :
  String.prefix a h = true -> exists t, h = a ++ t.
Proof.
  revert h; induction a as [|c a IH]; intros h H.
  - exists h; reflexivity.
  - destruct h as [|d h]; simpl in H; [discriminate|].
    destruct (ascii_dec c d) as [->|]; [|discriminate].
    destruct (IH _ H) as [t ->]. exists t; reflexivity.
Qed.

Lemma contains_cons (needle : string) (c : ascii) (hay : string) :
  PyStr.contains needle (String c hay) =
  if String.prefix needle (String c hay) then true
  else PyStr.contains needle hay.
Proof. reflexivity. Qed.

Lemma contains_iff (needle hay : string) :
  PyStr.contains needle hay = true <->
  exists pre post, hay = pre ++ needle ++ post.
Proof.
  split.
  - induction hay as [|c hay IH].
    + destruct needle; [|intros; discriminate].
      intros _. exists "", ""; reflexivity.
    + rewrite contains_cons.
      destruct (String.prefix needle (String c hay)) eqn:E.
      * intros _. destruct (prefix_split _ _ E) as [t Ht].
        exists "", t; exact Ht.
      * intros H. destruct (IH H) as (pre & post & ->).
        exists (String c pre), post; reflexivity.
  - intros (pre & post & ->).
    induction pre as [|c pre IH].
    + change ("" ++ needle ++ post) with (needle ++ post).
      destruct (needle ++ post) eqn:E.
      * destruct needle; [reflexivity | discriminate].
      * rewrite contains_cons, <- E, prefix_app; reflexivity.
    + change (String c pre ++ needle ++ post)
        with (String c (pre ++ needle ++ post)).
      rewrite contains_cons, IH.
      destruct (String.prefix needle _); reflexivity.
Qed.

Lemma lower_app (a b : string) :
  PyStr.lower (a ++ b) = PyStr.lower a ++ PyStr.lower b.
Proof. induction a as [|c a IH]; simpl; [|rewrite IH]; reflexivity. Qed.

Lemma lower_split (x a b : string) :
  PyStr.lower x = a ++ b ->
  exists x1 x2, x = x1 ++ x2 /\ PyStr.lower x1 = a /\ PyStr.lower x2 = b.
Proof.
  revert x; induction a as [|c a IH]; intros x H.
  - exists "", x; auto.
  - destruct x as [|d x]; simpl in H; [discriminate|].
    injection H as Hc Ht.
    destruct (IH _ Ht) as (x1 & x2 & -> & H1 & H2).
    exists (String d x1), x2; simpl. rewrite Hc, H1; auto.
Qed.

End StringFacts.

(** ** Block detector *)

Section BlockDetector.

Lemma any_hint_in_iff (hints : list string) (lower : string) :
  any_hint_in hints lower = true <->
  exists hint, In hint hints /\ PyStr.contains hint lower = true.
Proof.
  induction hints as [|x hints IH]; simpl.
  - split; [discriminate | intros (? & [] & _)].
  - destruct (PyStr.contains x lower) eqn:E.
    + split; [intros _; exists x; auto | reflexivity].
    + rewrite IH. split.
      * intros (k & Hin & Hk). exists k; auto.
      * intros (k & [<- | Hin] & Hk); [congruence | exists k; auto].
Qed.

Lemma hints_are_lower_case :
  forall hint, In hint SOFT_BLOCK_HINTS -> PyStr.lower hint = hint.
Proof.
  intros hint Hin. simpl in Hin.
  repeat (destruct Hin as [<- | Hin]; [reflexivity|]).
  contradiction.
Qed.

Lemma contains_lower_iff (hint html : string) :
  PyStr.lower hint = hint ->
  PyStr.contains hint (PyStr.lower html) = true <->
  occurs_ignoring_case hint html.
Proof.
  intros Hl. rewrite contains_iff. split.
  - intros (pre & post & H).
    destruct (lower_split _ _ _ H) as (x1 & x2 & -> & H1 & H2).
    destruct (lower_split _ _ _ H2) as (x3 & x4 & -> & H3 & H4).
    exists x1, x3, x4. rewrite Hl. auto.
  - intros (pre & x & post & -> & Hx).
    exists (PyStr.lower pre), (PyStr.lower post).
    rewrite !lower_app, Hx, Hl. reflexivity.
Qed.

(** C1. [is_soft_blocked] answers true exactly for the markup in which
    one of the block-indicator phrases occurs in some letter case, and
    false exactly for the markup in which none does. *)
Theorem is_soft_blocked_iff_phrase (html : string) :
  (is_soft_blocked html = true <->
   exists hint, In hint SOFT_BLOCK_HINTS /\ occurs_ignoring_case hint html)
  /\
  (is_soft_blocked html = false <->
   forall hint, In hint SOFT_BLOCK_HINTS -> ~ occurs_ignoring_case hint html).
Proof.
  assert (T : is_soft_blocked html = true <->
              exists hint, In hint SOFT_BLOCK_HINTS /\
                           occurs_ignoring_case hint html).
  { unfold is_soft_blocked. rewrite any_hint_in_iff. split.
    - intros (k & Hin & Hk). exists k. split; [exact Hin|].
      apply contains_lower_iff; auto using hints_are_lower_case.
    - intros (k & Hin & Hk). exists k. split; [exact Hin|].
      apply contains_lower_iff; auto using hints_are_lower_case. }
  split; [exact T|].
  destruct (is_soft_blocked html) eqn:E.
  - split; [discriminate|]. intros H.
    destruct (proj1 T eq_refl) as (k & Hin & Hk). destruct (H k Hin Hk).
  - split; [|reflexivity]. intros _ k Hin Hk.
    assert (false = true) by (apply T; exists k; auto). discriminate.
Qed.

Example blocked_upper_case :
  is_soft_blocked "<p>Please VERIFY that You Are A Human.</p>" = true.
Proof. reflexivity. Qed.

Example not_blocked_plain :
  is_soft_blocked "<html><body>1,234 results</body></html>" = false.
Proof. reflexivity. Qed.

End BlockDetector.

(** ** Binary64 arithmetic: the order of dyadics *)

Section OrderOfDyadics.

Import Binary64.

Lemma ltb_scaled (x y : dy) (e : Z) :
  e <= expo x -> e <= expo y ->
  ltb x y = true <->
  mant x * 2 ^ (expo x - e) < mant y * 2 ^ (expo y - e).
Proof.
  intros Hx Hy. unfold ltb, align.
  set (e0 := Z.min (expo x) (expo y)).
  assert (He0 : e <= e0) by (unfold e0; lia).
  replace (expo x - e) with ((expo x - e0) + (e0 - e)) by lia.
  replace (expo y - e) with ((expo y - e0) + (e0 - e)) by lia.
  rewrite !Z.pow_add_r by (unfold e0; lia).
  rewrite !Z.mul_assoc, Z.ltb_lt.
  assert (0 < 2 ^ (e0 - e)) by (apply Z.pow_pos_nonneg; lia).
  split; intros Hlt; nia.
Qed.

Lemma ltb_trans (x y z : dy) :
  ltb x y = true -> ltb y z = true -> ltb x z = true.
Proof.
  set (e := Z.min (expo x) (Z.min (expo y) (expo z))).
  intros Hxy Hyz.
  apply (ltb_scaled x y e) in Hxy; [|unfold e; lia ..].
  apply (ltb_scaled y z e) in Hyz; [|unfold e; lia ..].
  apply (ltb_scaled x z e); [unfold e; lia ..|]. lia.
Qed.

Lemma leb_scaled (x y : dy) (e : Z) :
  e <= expo x -> e <= expo y ->
  leb x y = true <->
  mant x * 2 ^ (expo x - e) <= mant y * 2 ^ (expo y - e).
Proof.
  intros Hx Hy. unfold leb, align.
  set (e0 := Z.min (expo x) (expo y)).
  assert (He0 : e <= e0) by (unfold e0; lia).
  replace (expo x - e) with ((expo x - e0) + (e0 - e)) by lia.
  replace (expo y - e) with ((expo y - e0) + (e0 - e)) by lia.
  rewrite !Z.pow_add_r by (unfold e0; lia).
  rewrite !Z.mul_assoc, Z.leb_le.
  assert (0 < 2 ^ (e0 - e)) by (apply Z.pow_pos_nonneg; lia).
  split; intros Hle; nia.
Qed.

Lemma leb_trans (x y z : dy) :
  leb x y = true -> leb y z = true -> leb x z = true.
Proof.
  set (e := Z.min (expo x) (Z.min (expo y) (expo z))).
  intros Hxy Hyz.
  apply (leb_scaled x y e) in Hxy; [|unfold e; lia ..].
  apply (leb_scaled y z e) in Hyz; [|unfold e; lia ..].
  apply (leb_scaled x z e); [unfold e; lia ..|]. lia.
Qed.

Lemma leb_ltb_trans (x y z : dy) :
  leb x y = true -> ltb y z = true -> ltb x z = true.
Proof.
  set (e := Z.min (expo x) (Z.min (expo y) (expo z))).
  intros Hxy Hyz.
  apply (leb_scaled x y e) in Hxy; [|unfold e; lia ..].
  apply (ltb_scaled y z e) in Hyz; [|unfold e; lia ..].
  apply (ltb_scaled x z e); [unfold e; lia ..|]. lia.
Qed.

Lemma ltb_leb (x y : dy) : ltb x y = true -> leb x y = true.
Proof.
  unfold ltb, leb. destruct (align x y) as [[a b] e].
  rewrite Z.ltb_lt, Z.leb_le. lia.
Qed.

Lemma leb_refl (x : dy) : leb x x = true.
Proof. unfold leb, align. apply Z.leb_le. lia. Qed.

Lemma leb_not_ltb (x y : dy) : leb x y = true -> ltb y x = false.
Proof.
  intros H. apply (leb_scaled x y (Z.min (expo x) (expo y))) in H; [|lia ..].
  destruct (ltb y x) eqn:E; [|reflexivity].
  apply (ltb_scaled y x (Z.min (expo x) (expo y))) in E; [|lia ..]. lia.
Qed.

Lemma ltb_not_leb (x y : dy) : ltb x y = true -> leb y x = false.
Proof.
  intros H. apply (ltb_scaled x y (Z.min (expo x) (expo y))) in H; [|lia ..].
  destruct (leb y x) eqn:E; [|reflexivity].
  apply (leb_scaled y x (Z.min (expo x) (expo y))) in E; [|lia ..]. lia.
Qed.

Lemma leb_zero (x : dy) : 0 <= mant x -> leb zero x = true.
Proof.
  intros Hx. unfold leb, align. cbn [mant expo zero].
  apply Z.leb_le. rewrite Z.mul_0_l.
  apply Z.mul_nonneg_nonneg; [exact Hx | apply Z.pow_nonneg; lia].
Qed.

Lemma leb_zero_mant (x : dy) : leb zero x = true -> 0 <= mant x.
Proof.
  unfold leb, align. cbn [mant expo zero].
  rewrite Z.leb_le, Z.mul_0_l. intros H.
  assert (0 < 2 ^ (expo x - Z.min 0 (expo x)))
    by (apply Z.pow_pos_nonneg; lia).
  nia.
Qed.

Lemma exact_sum_expo (x y : dy) :
  expo (exact_sum x y) = Z.min (expo x) (expo y).
Proof. reflexivity. Qed.

Lemma exact_sum_scaled (x y : dy) (e : Z) :
  e <= expo x -> e <= expo y ->
  mant (exact_sum x y) * 2 ^ (expo (exact_sum x y) - e)
  = mant x * 2 ^ (expo x - e) + mant y * 2 ^ (expo y - e).
Proof.
  intros Hx Hy. unfold exact_sum, align. cbn [mant expo].
  set (e0 := Z.min (expo x) (expo y)).
  replace (expo x - e) with ((expo x - e0) + (e0 - e)) by lia.
  replace (expo y - e) with ((expo y - e0) + (e0 - e)) by lia.
  rewrite !Z.pow_add_r by (unfold e0; lia). ring.
Qed.

Lemma rne_shift_lower (m s : Z) :
  0 <= m -> 0 < s -> m / 2 ^ s <= rne_shift m s.
Proof.
  intros Hm Hs. unfold rne_shift.
  rewrite Z.shiftr_div_pow2 by lia.
  destruct (_ <? _); [lia|]. destruct (_ <? _); [lia|].
  destruct (Z.even _); lia.
Qed.

End OrderOfDyadics.

(** ** Sleeping *)

Section Sleeping.

Import Binary64.

(** A delay that is not negative and below [2^62] nanoseconds is slept,
    whatever the clock reads. *)
Lemma sleep_run (d : dy) (w : World) (s : State) :
  sleepable d = true ->
  sleep d w s
  = (Ok tt, mkState (n_draws s) (n_gets s) (trace s ++ [ESleep d])).
Proof.
  unfold sleepable. intros H. apply andb_prop in H. destruct H as [H0 H62].
  unfold sleep, sleep_refusal.
  rewrite (leb_not_ltb _ _ H0).
  assert (H63 : leb (Dy 1 63) (nanoseconds d) = false).
  { apply ltb_not_leb. apply (ltb_trans _ _ _ H62). reflexivity. }
  rewrite H63.
  assert (Hsum : ltb (exact_sum (nanoseconds d) (monotonic w s)) (Dy 1 63)
                 = true).
  { set (ns := nanoseconds d) in *.
    set (E := Z.min (expo ns) 0).
    apply (ltb_scaled ns (Dy 1 62) E) in H62; [|unfold E; cbn; lia ..].
    cbn [mant expo] in H62.
    apply (ltb_scaled _ _ E);
      [rewrite exact_sum_expo; unfold E, monotonic; cbn [expo]; lia
      | unfold E; cbn [expo]; lia |].
    rewrite exact_sum_scaled by (unfold E, monotonic; cbn [expo]; lia).
    unfold monotonic. cbn [mant expo].
    pose proof (Z.mod_pos_bound (clock w (length (trace s))) (2 ^ 62)
                  eq_refl) as Hr.
    set (r := clock w (length (trace s)) mod 2 ^ 62) in *.
    replace (63 - E) with (1 + (62 - E)) by lia.
    replace (0 - E) with ((62 - E) - 62) by lia.
    rewrite (Z.pow_add_r 2 1 (62 - E)) by (unfold E; lia).
    assert (HP : 2 ^ (62 - E) = 2 ^ 62 * 2 ^ (62 - E - 62)).
    { rewrite <- Z.pow_add_r by (unfold E; lia). f_equal. lia. }
    assert (0 < 2 ^ (62 - E - 62))
      by (apply Z.pow_pos_nonneg; unfold E; lia).
    nia. }
  rewrite Hsum. reflexivity.
Qed.

(** Whatever the delay and the clock, [time.sleep] sleeps or raises, and
    raising costs nothing. *)
Lemma sleep_outcomes (d : dy) (w : World) (s : State) :
  sleep d w s
  = (Ok tt, mkState (n_draws s) (n_gets s) (trace s ++ [ESleep d]))
  \/ exists e, sleep d w s = (Raise e, s).
Proof.
  unfold sleep. destruct (sleep_refusal d (monotonic w s)) as [e|].
  - right. exists e. reflexivity.
  - left. reflexivity.
Qed.

(** What [time.sleep] does on a machine that has been up for some hours:
    it refuses [-1.0] and the smallest negative number, sleeps for
    [9e9] seconds, fails in the system call on [9223372036.0], whose
    deadline is beyond the count, refuses [9223372036.854776], which is
    [2^63] nanoseconds, as if it were negative, and cannot convert
    [9.3e9] or [-9.3e9]. *)
Example sleep_refusals :
  let now := Dy (Scenario.uptime 0) 0 in
  sleep_refusal (Dy (-1) 0) now = Some ValueError /\
  sleep_refusal (Dy (-1) (-1074)) now = Some ValueError /\
  sleep_refusal (Dy 17578125 9) now = None /\
  sleep_refusal (Dy 2305843009 2) now = Some (OtherError "OSError") /\
  sleep_refusal (Dy 4835703278458517 (-19)) now = Some ValueError /\
  sleep_refusal (Dy 36328125 8) now = Some OverflowError /\
  sleep_refusal (Dy (-36328125) 8) now = Some OverflowError.
Proof. vm_compute. repeat split; reflexivity. Qed.

End Sleeping.

(** ** Block recovery *)

Section BlockRecovery.

Import Binary64.

Variable h : SoftBlockHandler.
Variable url : string.
Variable w : World.

Lemma recovery_attempt_run (attempt : Z) (base : dy) (s : State) :
  backoff_base h attempt = Some base ->
  sleepable (add base (uniform_of_draw zero half (draws w (n_draws s))))
    = true ->
  recovery_attempt h url attempt w s =
  (match replies w (n_gets s) with
   | Answers resp => Ok (Some (text resp))
   | Fails e => if is_network_failure e then Ok None else Raise e
   end,
   mkState (S (S (n_draws s))) (S (n_gets s))
     (trace s ++ attempt_events url base w s ++
      match replies w (n_gets s) with
      | Answers _ => []
      | Fails e =>
          if is_network_failure e then
            [ELog WARNING
               "Network error while resolving soft block on attempt %d: %s"]
          else []
      end)).
Proof.
  intros Hb Hs.
  unfold recovery_attempt, compute_backoff, random_uniform, random_randint,
    try_except, session_get, log, emit, draw, bind, ret, raise.
  rewrite Hb. cbn [n_draws n_gets trace fst snd].
  rewrite (sleep_run _ _ _ Hs).
  cbn [n_draws n_gets trace fst snd].
  unfold attempt_events.
  destruct (replies w (n_gets s)) as [resp|e]; cbn [n_draws n_gets trace].
  - f_equal. f_equal. rewrite <- !app_assoc. reflexivity.
  - destruct (is_network_failure e); cbn [n_draws n_gets trace].
    + f_equal. f_equal. rewrite <- !app_assoc. reflexivity.
    + f_equal. f_equal. rewrite <- !app_assoc. reflexivity.
Qed.

Lemma recovery_loop_step (fuel : nat) (attempt : Z) (last_html : string)
    (s : State) :
  attempt < max_retries h ->
  delay_ready h (attempt + 1) (draws w (n_draws s)) ->
  recovery_loop h url (S fuel) attempt last_html w s =
  let s' := snd (recovery_attempt h url (attempt + 1) w s) in
  match replies w (n_gets s) with
  | Answers resp =>
      if is_soft_blocked (text resp)
      then recovery_loop h url fuel (attempt + 1) (text resp) w s'
      else (Ok (text resp),
            mkState (n_draws s') (n_gets s')
              (trace s' ++
               [ELog INFO "Soft block resolved successfully on attempt %d."]))
  | Fails e =>
      if is_network_failure e
      then recovery_loop h url fuel (attempt + 1) last_html w s'
      else (Raise e, s')
  end.
Proof.
  intros Hlt (base & Hb & Hs). cbn [recovery_loop].
  destruct (Z.ltb_spec attempt (max_retries h)) as [_|]; [|lia].
  unfold bind at 1. rewrite (recovery_attempt_run _ _ _ Hb Hs).
  cbn [snd].
  destruct (replies w (n_gets s)) as [resp|e].
  - destruct (is_soft_blocked (text resp)); cbn [negb]; reflexivity.
  - destruct (is_network_failure e); reflexivity.
Qed.

Lemma recovery_loop_exit (fuel : nat) (attempt : Z) (last_html : string)
    (s : State) :
  max_retries h <= attempt ->
  recovery_loop h url (S fuel) attempt last_html w s =
  (Raise SoftBlockUnresolved,
   mkState (n_draws s) (n_gets s)
     (trace s ++
      [ELog ERROR "Failed to resolve soft block after %d retries for URL: %s"])).
Proof.
  intros Hge. cbn [recovery_loop].
  destruct (Z.ltb_spec attempt (max_retries h)) as [|_]; [lia|].
  reflexivity.
Qed.

Lemma attempt_state (attempt : Z) (s : State) :
  delay_ready h attempt (draws w (n_draws s)) ->
  let s' := snd (recovery_attempt h url attempt w s) in
  n_gets s' = S (n_gets s) /\ n_draws s' = S (S (n_draws s)) /\
  exists base more,
    backoff_base h attempt = Some base /\
    trace s' = (trace s ++ attempt_events url base w s ++ more)%list /\
    requests_in more = 0%nat.
Proof.
  intros (base & Hb & Hs). rewrite (recovery_attempt_run _ _ _ Hb Hs). cbn.
  repeat split. exists base. eexists. repeat split; [exact Hb|].
  destruct (replies w (n_gets s)) as [|e]; [reflexivity|].
  destruct (is_network_failure e); reflexivity.
Qed.

Lemma recovery_ready_next (d : nat) (from : Z) (n : nat) :
  recovery_ready h w d from (S n) ->
  delay_ready h (from + 1) (draws w d) /\
  recovery_ready h w (S (S d)) (from + 1) n.
Proof.
  intros H. split.
  - specialize (H 0%nat ltac:(lia)).
    rewrite Nat.mul_0_r, Nat.add_0_r, Z.add_0_r in H. exact H.
  - intros i Hi. specialize (H (S i) ltac:(lia)).
    replace (from + 1 + 1 + Z.of_nat i) with (from + 1 + Z.of_nat (S i))
      by lia.
    replace (S (S d) + 2 * i)%nat with (d + 2 * S i)%nat by lia.
    exact H.
Qed.

(** The loop does not read [last_html]: the body it returns is one it
    received. *)
Lemma recovery_loop_last_html (fuel : nat) (attempt : Z) (l1 l2 : string)
    (s : State) :
  recovery_loop h url fuel attempt l1 w s =
  recovery_loop h url fuel attempt l2 w s.
Proof.
  revert attempt l1 l2 s; induction fuel as [|fuel IH]; intros; [reflexivity|].
  cbn [recovery_loop].
  destruct (attempt <? max_retries h); [|reflexivity].
  unfold bind.
  destruct (recovery_attempt h url (attempt + 1) w s) as [[[got|]|e|] s'];
    try reflexivity.
  apply IH.
Qed.

(** With every reply blocked (or a caught failure) the loop makes one
    request per remaining retry and then raises. *)
Lemma recovery_loop_exhausted (fuel : nat) :
  forall (attempt : Z) (last_html : string) (s : State),
  0 <= attempt ->
  (Z.to_nat (max_retries h - attempt) < fuel)%nat ->
  recovery_ready h w (n_draws s) attempt
    (Z.to_nat (max_retries h - attempt)) ->
  all_keep_blocked w (n_gets s) (Z.to_nat (max_retries h - attempt)) ->
  exists s',
    recovery_loop h url fuel attempt last_html w s
      = (Raise SoftBlockUnresolved, s') /\
    n_gets s' = (n_gets s + Z.to_nat (max_retries h - attempt))%nat.
Proof.
  induction fuel as [|fuel IH]; intros attempt last_html s Ha Hfuel Hrdy Hall;
    [lia|].
  destruct (Z_lt_le_dec attempt (max_retries h)) as [Hlt|Hge].
  - assert (Hn : Z.to_nat (max_retries h - attempt)
                 = S (Z.to_nat (max_retries h - (attempt + 1)))) by lia.
    rewrite Hn in Hrdy.
    apply recovery_ready_next in Hrdy. destruct Hrdy as [Hnow Hrdy].
    rewrite (recovery_loop_step _ _ _ _ Hlt Hnow). cbn zeta.
    destruct (attempt_state _ s Hnow) as (Hg & Hd & _).
    set (s1 := snd (recovery_attempt h url (attempt + 1) w s)) in *.
    rewrite <- Hd in Hrdy.
    assert (Hall' : all_keep_blocked w (n_gets s1)
                      (Z.to_nat (max_retries h - (attempt + 1)))).
    { intros i Hi. rewrite Hg.
      replace (S (n_gets s) + i)%nat with (n_gets s + S i)%nat by lia.
      apply Hall. lia. }
    assert (H0 : keeps_blocked (replies w (n_gets s)) = true).
    { replace (n_gets s) with (n_gets s + 0)%nat by lia. apply Hall. lia. }
    destruct (replies w (n_gets s)) as [resp|e]; cbn [keeps_blocked] in H0;
      rewrite H0.
    + destruct (IH (attempt + 1) (text resp) s1) as (s' & -> & Hs');
        [lia | lia | exact Hrdy | exact Hall' |].
      exists s'. split; [reflexivity | lia].
    + destruct (IH (attempt + 1) last_html s1) as (s' & -> & Hs');
        [lia | lia | exact Hrdy | exact Hall' |].
      exists s'. split; [reflexivity | lia].
  - rewrite (recovery_loop_exit _ _ _ _ Hge).
    eexists; split; [reflexivity|]. cbn. lia.
Qed.

(** The first reply that is an unblocked body ends the loop with that
    body. *)
Lemma recovery_loop_first_unblocked (i : nat) :
  forall (fuel : nat) (attempt : Z) (last_html : string) (s : State)
         (resp : Response),
  0 <= attempt ->
  attempt + Z.of_nat i < max_retries h ->
  (i < fuel)%nat ->
  recovery_ready h w (n_draws s) attempt (S i) ->
  all_keep_blocked w (n_gets s) i ->
  replies w (n_gets s + i) = Answers resp ->
  is_soft_blocked (text resp) = false ->
  exists s',
    recovery_loop h url fuel attempt last_html w s = (Ok (text resp), s') /\
    n_gets s' = (n_gets s + S i)%nat.
Proof.
  induction i as [|i IH];
    intros fuel attempt last_html s resp Ha Hlt Hfuel Hrdy Hall Hr Hu;
    (destruct fuel as [|fuel]; [lia|]);
    (apply recovery_ready_next in Hrdy; destruct Hrdy as [Hnow Hrdy]);
    (assert (Hlt' : attempt < max_retries h) by lia);
    (rewrite (recovery_loop_step _ _ _ _ Hlt' Hnow); cbn zeta);
    destruct (attempt_state _ s Hnow) as (Hg & Hd & _);
    set (s1 := snd (recovery_attempt h url (attempt + 1) w s)) in *;
    rewrite <- Hd in Hrdy.
  - rewrite Nat.add_0_r in Hr. rewrite Hr, Hu.
    eexists; split; [reflexivity|]. cbn. lia.
  - assert (H0 : keeps_blocked (replies w (n_gets s)) = true).
    { replace (n_gets s) with (n_gets s + 0)%nat by lia. apply Hall. lia. }
    assert (Hall' : all_keep_blocked w (n_gets s1) i).
    { intros j Hj. rewrite Hg.
      replace (S (n_gets s) + j)%nat with (n_gets s + S j)%nat by lia.
      apply Hall. lia. }
    assert (Hr' : replies w (n_gets s1 + i) = Answers resp).
    { rewrite Hg. rewrite <- Hr. f_equal. lia. }
    destruct (replies w (n_gets s)) as [r0|e]; cbn [keeps_blocked] in H0;
      rewrite H0.
    + destruct (IH fuel (attempt + 1) (text r0) s1 resp) as (s' & -> & Hs');
        auto; try lia.
      exists s'. split; [reflexivity | lia].
    + destruct (IH fuel (attempt + 1) last_html s1 resp) as (s' & -> & Hs');
        auto; try lia.
      exists s'. split; [reflexivity | lia].
Qed.

Lemma recovery_attempt_extends (attempt : Z) (s : State) :
  exists more,
    trace (snd (recovery_attempt h url attempt w s)) = (trace s ++ more)%list.
Proof.
  unfold recovery_attempt, compute_backoff, random_uniform, random_randint,
    try_except, session_get, log, emit, draw, bind, ret, raise.
  destruct (backoff_base h attempt) as [base|];
    [|exists []; cbn; rewrite app_nil_r; reflexivity].
  cbn [n_draws n_gets trace fst snd].
  match goal with
  | |- context [sleep ?d w ?s0] =>
      destruct (sleep_outcomes d w s0) as [-> | (e & ->)]
  end; cbn [n_draws n_gets trace fst snd].
  - destruct (replies w (n_gets s)) as [resp|e];
      [|destruct (is_network_failure e)];
      cbn [n_draws n_gets trace fst snd]; rewrite <- !app_assoc;
      eexists; reflexivity.
  - rewrite <- !app_assoc. eexists; reflexivity.
Qed.

Lemma recovery_loop_extends (fuel : nat) :
  forall (attempt : Z) (last_html : string) (s : State),
  exists more,
    trace (snd (recovery_loop h url fuel attempt last_html w s))
    = (trace s ++ more)%list.
Proof.
  induction fuel as [|fuel IH]; intros attempt last_html s.
  - exists []. cbn. rewrite app_nil_r. reflexivity.
  - cbn [recovery_loop].
    destruct (attempt <? max_retries h).
    + unfold bind at 1.
      destruct (recovery_attempt_extends (attempt + 1) s) as (m1 & H1).
      destruct (recovery_attempt h url (attempt + 1) w s)
        as [[[got|]|e|] s1]; cbn [snd] in H1 |- *.
      * destruct (is_soft_blocked got); cbn [negb].
        -- destruct (IH (attempt + 1) got s1) as (m2 & ->).
           exists (m1 ++ m2)%list. rewrite H1, app_assoc. reflexivity.
        -- cbn. rewrite H1, <- app_assoc. eexists; reflexivity.
      * destruct (IH (attempt + 1) last_html s1) as (m2 & ->).
        exists (m1 ++ m2)%list. rewrite H1, app_assoc. reflexivity.
      * exists m1; exact H1.
      * exists m1; exact H1.
    + cbn. eexists; reflexivity.
Qed.

(** The recovery loop ends: its fuel is never used up. *)
Lemma recovery_loop_terminates (fuel : nat) :
  forall (attempt : Z) (last_html : string) (s : State),
  0 <= attempt ->
  (Z.to_nat (max_retries h - attempt) < fuel)%nat ->
  fst (recovery_loop h url fuel attempt last_html w s) <> OutOfFuel.
Proof.
  induction fuel as [|fuel IH]; intros attempt last_html s Ha Hf; [lia|].
  cbn [recovery_loop].
  destruct (Z.ltb_spec attempt (max_retries h)) as [Hlt|Hge].
  - unfold bind at 1.
    destruct (recovery_attempt h url (attempt + 1) w s)
      as [[[got|]|e|] s1] eqn:E.
    + destruct (is_soft_blocked got); cbn [negb].
      * apply IH; lia.
      * cbn. discriminate.
    + apply IH; lia.
    + cbn. discriminate.
    + exfalso. revert E.
      unfold recovery_attempt, compute_backoff, random_uniform,
        random_randint, try_except, session_get, log, emit, draw,
        bind, ret, raise.
      destruct (backoff_base h (attempt + 1)); [|discriminate].
      cbn [n_draws n_gets trace fst snd].
      match goal with
      | |- context [sleep ?d w ?s0] =>
          destruct (sleep_outcomes d w s0) as [-> | (e0 & ->)]
      end; [|discriminate].
      cbn [n_gets]. destruct (replies w (n_gets s)) as [|e];
        [discriminate|].
      destruct (is_network_failure e); discriminate.
  - cbn. discriminate.
Qed.

Lemma handle_soft_block_terminates (original : option string) (s : State) :
  fst (handle_soft_block h url original w s) <> OutOfFuel.
Proof.
  unfold handle_soft_block.
  destruct (known_unblocked original); [cbn; discriminate|].
  apply recovery_loop_terminates; unfold recovery_fuel; lia.
Qed.

End BlockRecovery.

(** C2. When the short-circuit is not taken, the delay of every attempt
    can be computed and slept (it is not negative, and [time.sleep]
    takes it whatever the clock reads), and every reply up to the retry
    ceiling is a blocked body or a network failure, the recovery makes
    exactly [max_retries] requests and fails with [SoftBlockUnresolved];
    and a network failure on one attempt hands the loop on to the next
    attempt, one retry consumed, whatever follows. *)
Theorem recovery_exhausted_raises
    (h : SoftBlockHandler) (url : string) (original : option string)
    (w : World) (s : State) :
  known_unblocked original = false ->
  recovery_ready h w (n_draws s) 0 (Z.to_nat (max_retries h)) ->
  all_keep_blocked w (n_gets s) (Z.to_nat (max_retries h)) ->
  (exists s',
     handle_soft_block h url original w s = (Raise SoftBlockUnresolved, s') /\
     n_gets s' = (n_gets s + Z.to_nat (max_retries h))%nat)
  /\
  (forall fuel attempt last_html s0 e,
     attempt < max_retries h ->
     delay_ready h (attempt + 1) (draws w (n_draws s0)) ->
     replies w (n_gets s0) = Fails e ->
     is_network_failure e = true ->
     exists s1,
       recovery_loop h url (S fuel) attempt last_html w s0
       = recovery_loop h url fuel (attempt + 1) last_html w s1 /\
       n_gets s1 = S (n_gets s0)).
Proof.
  intros Hk Hrdy Hall. split.
  - unfold handle_soft_block. rewrite Hk. cbn zeta.
    destruct (recovery_loop_exhausted h url w (recovery_fuel h) 0
                (or_empty original) s) as (s' & Hr & Hn).
    + lia.
    + unfold recovery_fuel. rewrite Z.sub_0_r. lia.
    + rewrite Z.sub_0_r. exact Hrdy.
    + rewrite Z.sub_0_r. exact Hall.
    + exists s'. rewrite Z.sub_0_r in Hn. auto.
  - intros fuel attempt last_html s0 e Ha Hnow Hr He.
    exists (snd (recovery_attempt h url (attempt + 1) w s0)).
    split.
    + rewrite (recovery_loop_step h url w _ _ _ _ Ha Hnow).
      cbn zeta. rewrite Hr, He. reflexivity.
    + apply (attempt_state h url w _ s0 Hnow).
Qed.

(** C3. Markup that is known and not blocked comes back unchanged, the
    world untouched (no draw, no sleep, no request); otherwise the first
    reply that is an unblocked body, every earlier one being blocked or a
    network failure, is what the recovery returns, after as many requests
    as it took. *)
Theorem recovery_returns_first_unblocked
    (h : SoftBlockHandler) (url : string) (original : option string)
    (w : World) (s : State) :
  (forall html,
     original = Some html -> is_soft_blocked html = false ->
     handle_soft_block h url original w s = (Ok html, s))
  /\
  (known_unblocked original = false ->
   forall (i : nat) (resp : Response),
     Z.of_nat i < max_retries h ->
     recovery_ready h w (n_draws s) 0 (S i) ->
     all_keep_blocked w (n_gets s) i ->
     replies w (n_gets s + i) = Answers resp ->
     is_soft_blocked (text resp) = false ->
     exists s',
       handle_soft_block h url original w s = (Ok (text resp), s') /\
       n_gets s' = (n_gets s + S i)%nat).
Proof.
  split.
  - intros html -> Hu. unfold handle_soft_block, known_unblocked.
    rewrite Hu. reflexivity.
  - intros Hk i resp Hi Hrdy Hall Hr Hu.
    unfold handle_soft_block. rewrite Hk. cbn zeta.
    apply recovery_loop_first_unblocked; auto; try lia.
    unfold recovery_fuel. lia.
Qed.

(** C10. Called without markup, the recovery takes no short-circuit: it
    runs the retry loop from attempt 0 exactly as it does for markup that
    is blocked, and with a retry ceiling of at least one (and a first
    delay that can be slept) it draws a jitter, sleeps and sends a
    request before anything else. *)
Theorem recovery_without_markup_enters_loop
    (h : SoftBlockHandler) (url : string) (w : World) (s : State) :
  handle_soft_block h url None w s
    = recovery_loop h url (recovery_fuel h) 0 "" w s
  /\
  (forall html, is_soft_blocked html = true ->
     handle_soft_block h url None w s
     = handle_soft_block h url (Some html) w s)
  /\
  (0 < max_retries h ->
   delay_ready h 1 (draws w (n_draws s)) ->
   exists base more,
     backoff_base h 1 = Some base /\
     trace (snd (handle_soft_block h url None w s))
     = (trace s ++ attempt_events url base w s ++ more)%list).
Proof.
  split; [reflexivity|]. split.
  - intros html Hb. unfold handle_soft_block, known_unblocked.
    rewrite Hb. cbn [negb]. cbn zeta. apply recovery_loop_last_html.
  - intros Hpos Hnow. unfold handle_soft_block, known_unblocked.
    cbn zeta. cbn [or_empty]. unfold recovery_fuel.
    rewrite (recovery_loop_step h url w _ 0 _ s Hpos Hnow). cbn zeta.
    destruct (attempt_state h url w 1 s Hnow)
      as (_ & _ & base & m1 & Hb & Ht & _).
    change (0 + 1) with 1.
    set (s1 := snd (recovery_attempt h url 1 w s)) in *.
    exists base.
    destruct (replies w (n_gets s)) as [resp|e].
    + destruct (is_soft_blocked (text resp)).
      * destruct (recovery_loop_extends h url w (Z.to_nat (max_retries h))
                    1 (text resp) s1) as (m2 & ->).
        exists (m1 ++ m2)%list. rewrite Ht, <- !app_assoc. auto.
      * cbn [snd trace]. rewrite Ht, <- !app_assoc.
        eexists; split; [exact Hb | reflexivity].
    + destruct (is_network_failure e).
      * destruct (recovery_loop_extends h url w (Z.to_nat (max_retries h))
                    1 "" s1) as (m2 & ->).
        exists (m1 ++ m2)%list. rewrite Ht, <- !app_assoc. auto.
      * cbn [snd]. exists m1. auto.
Qed.

(** *** The recovery on concrete worlds *)

(** Scenario F with a timeout in it: ceiling 2, first retry times out,
    second is still blocked. *)
Lemma recovery_exhausted_raises_witness :
  exists s',
    handle_soft_block Scenario.handler2 Scenario.url
      (Some Scenario.blocked_body) Scenario.timeout_then_blocked initial
    = (Raise SoftBlockUnresolved, s') /\
    n_gets s' = 2%nat.
Proof.
  apply (recovery_exhausted_raises Scenario.handler2 Scenario.url
           (Some Scenario.blocked_body) Scenario.timeout_then_blocked initial).
  - reflexivity.
  - intros i Hi. cbn in Hi.
    destruct i as [|[|i]]; [| |lia];
      (eexists; split; [vm_compute; reflexivity | vm_compute; reflexivity]).
  - intros i Hi. cbn in Hi.
    destruct i as [|[|i]]; [reflexivity | reflexivity | lia].
Defined.

(** Scenario E with a timeout in it: the third reply is the first
    unblocked body. *)
Lemma recovery_returns_first_unblocked_witness :
  exists s',
    handle_soft_block default_handler Scenario.url
      (Some Scenario.blocked_body) Scenario.timeout_then_blocked initial
    = (Ok Scenario.plain_body, s') /\
    n_gets s' = 3%nat.
Proof.
  apply (proj2 (recovery_returns_first_unblocked default_handler Scenario.url
                  (Some Scenario.blocked_body) Scenario.timeout_then_blocked
                  initial)
           eq_refl 2%nat (mkResponse Scenario.plain_body 200)).
  - reflexivity.
  - intros i Hi.
    destruct i as [|[|[|i]]]; [| | |lia];
      (eexists; split; [vm_compute; reflexivity | vm_compute; reflexivity]).
  - intros i Hi. destruct i as [|[|i]]; [reflexivity | reflexivity | lia].
  - reflexivity.
  - reflexivity.
Defined.

Lemma recovery_without_markup_enters_loop_witness :
  exists more,
    trace (snd (handle_soft_block Scenario.handler2 Scenario.url None
                  Scenario.always_blocked initial))
    = (attempt_events Scenario.url Binary64.one Scenario.always_blocked
         initial ++ more)%list.
Proof.
  destruct (proj2 (proj2 (recovery_without_markup_enters_loop
                            Scenario.handler2 Scenario.url
                            Scenario.always_blocked initial)))
    as (base & more & Hb & Ht).
  - reflexivity.
  - eexists; split; [vm_compute; reflexivity | vm_compute; reflexivity].
  - injection Hb as <-. exists more. exact Ht.
Defined.

Example recovery_short_circuit :
  handle_soft_block default_handler Scenario.url (Some Scenario.plain_body)
    Scenario.always_blocked initial
  = (Ok Scenario.plain_body, initial).
Proof. reflexivity. Qed.

Example recovery_without_markup_runs :
  fst (handle_soft_block Scenario.handler2 Scenario.url None
         Scenario.always_blocked initial)
  = Raise SoftBlockUnresolved /\
  requests_in (trace (snd (handle_soft_block Scenario.handler2 Scenario.url
                             None Scenario.always_blocked initial))) = 2%nat.
Proof. vm_compute. split; reflexivity. Qed.

(** A backoff factor of [-2.0] makes the second delay negative:
    [time.sleep] refuses it, and the recovery ends in [ValueError] after
    one request.  Such a delay is none that can be slept. *)
Example negative_delay_refused :
  let h := mkHandler 2 (Binary64.Dy (-2) 0) in
  fst (handle_soft_block h Scenario.url None Scenario.always_blocked initial)
  = Raise ValueError /\
  requests_in (trace (snd (handle_soft_block h Scenario.url None
                             Scenario.always_blocked initial))) = 1%nat /\
  ~ delay_ready h 2 (Scenario.some_draws 2).
Proof.
  split; [vm_compute; reflexivity|]. split; [vm_compute; reflexivity|].
  intros (base & Hb & Hs). vm_compute in Hb. injection Hb as <-.
  vm_compute in Hs. discriminate.
Qed.

(** With the default backoff factor the delay of attempt 55 is slept
    whatever the clock reads, and the delay of attempt 58 is beyond what
    [time.sleep] takes, whatever it reads. *)
Example attempt_58_cannot_sleep :
  delay_ready default_handler 55 0 /\
  exists base,
    backoff_base default_handler 58 = Some base /\
    forall now,
      sleep_refusal (Binary64.add base Binary64.zero) now
      = Some OverflowError.
Proof.
  split.
  - eexists; split; [vm_compute; reflexivity | vm_compute; reflexivity].
  - eexists. split; [vm_compute; reflexivity|].
    intros now. vm_compute. reflexivity.
Qed.

(** ** Binary64 arithmetic and the backoff policy *)

Section Backoff.

Import Binary64.

Lemma round_exact (x : dy) :
  Z.abs (mant x) < 2 ^ 53 -> emin <= expo x -> round x = x.
Proof.
  intros Hm He. unfold round, prec.
  assert (Hl : Z.log2 (Z.abs (mant x)) < 53).
  { destruct (Z.eq_dec (Z.abs (mant x)) 0) as [->|Hz]; [reflexivity|].
    apply Z.log2_lt_pow2; lia. }
  destruct (Z.leb_spec
              (Z.max (Z.log2 (Z.abs (mant x)) + 1 - 53) (emin - expo x)) 0);
    [reflexivity | lia].
Qed.

(** The jitter [random.uniform(0, 0.5)] is [k * 2^-54] for the generator's
    [k]: no rounding happens in it. *)
Lemma jitter_value (raw : Z) :
  uniform_of_draw zero half raw = Dy (raw mod 2 ^ 53) (-54).
Proof.
  unfold uniform_of_draw, random_of_draw.
  pose proof (Z.mod_pos_bound raw (2 ^ 53) eq_refl) as Hk.
  set (k := raw mod 2 ^ 53) in *.
  change (sub half zero) with half.
  assert (Hmul : mul half (Dy k (-53)) = Dy k (-54)).
  { unfold mul. cbn [mant expo half]. rewrite Z.mul_1_l.
    change (-1 + -53) with (-54).
    apply round_exact; cbn [mant expo]; unfold emin; lia. }
  rewrite Hmul. unfold add, align. cbn [mant expo zero].
  change (Z.min 0 (-54)) with (-54).
  change (-54 - -54) with 0. rewrite Z.mul_0_l, Z.add_0_l.
  change (2 ^ 0) with 1. rewrite Z.mul_1_r.
  apply round_exact; cbn [mant expo]; unfold emin; lia.
Qed.

Lemma rne_shift_2_bounds (k : Z) :
  0 <= k < 2 ^ 53 ->
  2 ^ 52 <= rne_shift (2 ^ 54 + k) 2 <= 3 * 2 ^ 51.
Proof.
  intros Hk. unfold rne_shift.
  rewrite Z.shiftr_div_pow2, Z.land_ones by lia.
  change (2 ^ 2) with 4. change (Z.shiftl 1 (2 - 1)) with 2.
  pose proof (Z.div_mod (2 ^ 54 + k) 4 ltac:(lia)) as Hd.
  pose proof (Z.mod_pos_bound (2 ^ 54 + k) 4 eq_refl) as Hr.
  set (q := (2 ^ 54 + k) / 4) in *. set (r := (2 ^ 54 + k) mod 4) in *.
  assert (Hq : 2 ^ 52 <= q <= 3 * 2 ^ 51 - 1) by lia.
  destruct (r <? 2); [lia|].
  destruct (2 <? r); [lia|].
  destruct (Z.even q); lia.
Qed.

(** [1.0 + jitter]: the sum has 55 bits and loses its last two. *)
Lemma one_plus_jitter (k : Z) :
  0 <= k < 2 ^ 53 ->
  add one (Dy k (-54)) = Dy (rne_shift (2 ^ 54 + k) 2) (-52).
Proof.
  intros Hk. unfold add, align. cbn [mant expo one].
  change (Z.min 0 (-54)) with (-54).
  change (0 - -54) with 54. change (-54 - -54) with 0.
  change (2 ^ 0) with 1. rewrite Z.mul_1_l, Z.mul_1_r.
  unfold round, prec, emin. cbn [mant expo].
  assert (Hp : 0 < 2 ^ 54 + k) by lia.
  rewrite (Z.abs_eq (2 ^ 54 + k)) by lia.
  rewrite (Z.log2_unique (2 ^ 54 + k) 54) by lia.
  change (Z.max (54 + 1 - 53) (-1074 - -54)) with 2.
  change (2 <=? 0) with false. cbv iota.
  rewrite (Z.sgn_pos _ Hp), Z.mul_1_l. reflexivity.
Qed.

Lemma compute_backoff_run (h : SoftBlockHandler) (attempt : Z) (base : dy)
    (w : World) (s : State) :
  backoff_base h attempt = Some base ->
  compute_backoff h attempt w s =
  (Ok (add base (uniform_of_draw zero half (draws w (n_draws s)))),
   mkState (S (n_draws s)) (n_gets s)
     (trace s ++ [EDraw DUniform (draws w (n_draws s))])).
Proof.
  intros Hb. unfold compute_backoff, random_uniform, draw, bind, ret.
  rewrite Hb. reflexivity.
Qed.

Lemma pow_increasing_from_spec (x : dy) (n : nat) :
  forall i p, 0 <= i -> p = mant x ^ i ->
  pow_increasing_from x n i p = true ->
  forall j, i <= j < i + Z.of_nat n ->
  exists a b, pow x j = Some a /\ pow x (j + 1) = Some b /\ ltb a b = true.
Proof.
  induction n as [|n IH]; intros i p Hi Hp H j Hj; [lia|].
  cbn [pow_increasing_from] in H.
  assert (Hp' : p * mant x = mant x ^ (i + 1)).
  { rewrite Hp, Z.pow_add_r, Z.pow_1_r by lia. reflexivity. }
  destruct (pow_rounded x i p) as [a|] eqn:Ea; [|discriminate].
  destruct (pow_rounded x (i + 1) (p * mant x)) as [b|] eqn:Eb;
    [|discriminate].
  apply andb_prop in H. destruct H as [Hab Hrest].
  destruct (Z.eq_dec j i) as [->|Hne].
  - exists a, b. unfold pow. rewrite <- Hp, <- Hp'. auto.
  - apply (IH (i + 1) (p * mant x)); auto; lia.
Qed.

Lemma three_halves_pow_increasing :
  pow_increasing_from three_halves 1750 0 1 = true.
Proof. vm_compute. reflexivity. Qed.

Lemma three_halves_pow_step (i : Z) :
  0 <= i < 1750 ->
  exists a b, pow three_halves i = Some a /\
              pow three_halves (i + 1) = Some b /\ ltb a b = true.
Proof.
  intros Hi.
  apply (pow_increasing_from_spec three_halves 1750 0 1);
    [lia | reflexivity | exact three_halves_pow_increasing | lia].
Qed.

Lemma three_halves_pow_lt (d : nat) :
  forall i, 0 <= i -> i + Z.of_nat (S d) <= 1750 ->
  exists a b, pow three_halves i = Some a /\
              pow three_halves (i + Z.of_nat (S d)) = Some b /\
              ltb a b = true.
Proof.
  induction d as [|d IH]; intros i Hi Hn.
  - change (Z.of_nat 1) with 1. apply three_halves_pow_step. lia.
  - destruct (IH i Hi ltac:(lia)) as (a & b & Ha & Hb & Hab).
    destruct (three_halves_pow_step (i + Z.of_nat (S d)) ltac:(lia))
      as (b' & c & Hb' & Hc & Hbc).
    rewrite Hb in Hb'. injection Hb' as <-.
    exists a, c. split; [exact Ha|]. split.
    + rewrite <- Hc. f_equal. lia.
    + exact (ltb_trans _ _ _ Hab Hbc).
Qed.

Lemma three_pow_beyond (n : Z) :
  1751 <= n -> 2 ^ (n + 1024) <= 3 ^ n.
Proof.
  intros Hn. pattern n. apply (Z.le_ind _ ltac:(intros ? ? ->; tauto) 1751);
    [| |exact Hn].
  - apply Z.leb_le. vm_compute. reflexivity.
  - intros m Hm IH.
    replace (Z.succ m + 1024) with ((m + 1024) + 1) by lia.
    rewrite Z.pow_succ_r, Z.pow_add_r, Z.pow_1_r by lia. lia.
Qed.

(** From exponent 1751 on the power of 1.5 is beyond binary64. *)
Lemma three_halves_pow_overflows (n : Z) :
  1751 <= n -> pow three_halves n = None.
Proof.
  intros Hn. pose proof (three_pow_beyond n Hn) as Hbig.
  assert (Hpos : 0 < 3 ^ n) by (apply Z.pow_pos_nonneg; lia).
  assert (HL : n + 1024 <= Z.log2 (3 ^ n)) by (apply Z.log2_le_pow2; lia).
  pose proof (Z.log2_spec (3 ^ n) Hpos) as [Hlo _].
  unfold pow, pow_rounded, round, prec, emin. cbn [mant expo three_halves].
  rewrite (Z.abs_eq (3 ^ n)), (Z.sgn_pos (3 ^ n)) by lia.
  set (L := Z.log2 (3 ^ n)) in *.
  replace (Z.max (L + 1 - 53) (-1074 - -1 * n)) with (L - 52) by lia.
  destruct (Z.leb_spec (L - 52) 0) as [|_]; [lia|].
  rewrite Z.mul_1_l.
  pose proof (rne_shift_lower (3 ^ n) (L - 52) ltac:(lia) ltac:(lia)) as Hq.
  assert (H52 : 2 ^ 52 <= 3 ^ n / 2 ^ (L - 52)).
  { apply Z.div_le_lower_bound; [apply Z.pow_pos_nonneg; lia|].
    rewrite <- Z.pow_add_r by lia.
    replace (L - 52 + 52) with L by lia. exact Hlo. }
  set (r := rne_shift (3 ^ n) (L - 52)) in *.
  assert (Hr : 2 ^ 52 <= r) by lia.
  assert (Hlr : 52 <= Z.log2 r) by (apply Z.log2_le_pow2; lia).
  unfold overflows, emax. cbn [mant expo].
  rewrite (Z.abs_eq r) by lia.
  destruct (Z.eqb_spec r 0) as [|_]; [lia|].
  destruct (Z.leb_spec 1024 (Z.log2 r + (-1 * n + (L - 52)))) as [_|];
    [reflexivity | lia].
Qed.

(** C5, as the code has it.  With the backoff factor 1.5 the first delay
    lies in the closed interval from 1.0 to 1.5, whatever the generator
    draws; the jitter-free part of the delay is a binary64 number for the
    attempts from 1 to 1751, strictly smaller at [m] than at [n] for
    [m < n] among them; and from attempt 1752 on its power is beyond
    binary64 and [compute_backoff] raises [OverflowError]. *)
Theorem backoff_first_delay_and_growth (h : SoftBlockHandler) :
  backoff_factor h = three_halves ->
  (forall w s, exists d s',
     compute_backoff h 1 w s = (Ok d, s') /\
     leb one d = true /\ leb d three_halves = true)
  /\
  (forall m n, 0 < m -> m < n -> n <= 1751 ->
     exists bm bn,
       backoff_base h m = Some bm /\ backoff_base h n = Some bn /\
       ltb bm bn = true)
  /\
  (forall n w s, 1751 < n ->
     compute_backoff h n w s = (Raise OverflowError, s)).
Proof.
  intros Hf. split; [|split].
  - intros w s.
    assert (Hb : backoff_base h 1 = Some one).
    { unfold backoff_base. rewrite Hf. reflexivity. }
    rewrite (compute_backoff_run h 1 one w s Hb), jitter_value.
    pose proof (Z.mod_pos_bound (draws w (n_draws s)) (2 ^ 53) eq_refl) as Hk.
    set (k := draws w (n_draws s) mod 2 ^ 53) in *.
    rewrite (one_plus_jitter k Hk).
    pose proof (rne_shift_2_bounds k Hk) as Hr.
    set (r := rne_shift (2 ^ 54 + k) 2) in *.
    eexists; eexists. split; [reflexivity|].
    unfold leb, align. cbn [mant expo one three_halves].
    change (Z.min 0 (-52)) with (-52). change (Z.min (-52) (-1)) with (-52).
    change (0 - -52) with 52. change (-52 - -52) with 0.
    change (-1 - -52) with 51. change (2 ^ 0) with 1.
    rewrite Z.mul_1_l, Z.mul_1_r.
    split; apply Z.leb_le; lia.
  - intros m n Hm Hmn Hn.
    destruct (three_halves_pow_lt (Z.to_nat (n - m - 1)) (m - 1))
      as (a & b & Ha & Hb & Hab); [lia | lia |].
    replace (m - 1 + Z.of_nat (S (Z.to_nat (n - m - 1)))) with (n - 1)
      in Hb by lia.
    exists a, b. unfold backoff_base. rewrite Hf.
    destruct (Z.gtb_spec m 0); [|lia].
    destruct (Z.gtb_spec n 0); [|lia].
    auto.
  - intros n w s Hn. unfold compute_backoff, backoff_base, bind, raise.
    rewrite Hf. destruct (Z.gtb_spec n 0); [|lia].
    rewrite three_halves_pow_overflows by lia. reflexivity.
Qed.

Lemma backoff_first_delay_and_growth_witness :
  (exists d s',
     compute_backoff default_handler 1 Scenario.top_draw initial = (Ok d, s') /\
     leb one d = true /\ leb d three_halves = true)
  /\
  (exists bm bn,
     backoff_base default_handler 1 = Some bm /\
     backoff_base default_handler 1751 = Some bn /\ ltb bm bn = true).
Proof.
  destruct (backoff_first_delay_and_growth default_handler eq_refl)
    as (H1 & H2 & _).
  split.
  - exact (H1 Scenario.top_draw initial).
  - apply (H2 1 1751); lia.
Defined.

(** C5, as the specification words it, fails at both ends.  At the
    generator's largest draw the sum [1.0 + jitter] is rounded up to 1.5
    itself, which is not below 1.5; and the power of attempt 1752 is
    beyond binary64, so that [compute_backoff] raises there and has no
    jitter-free part to compare. *)
Lemma backoff_reaches_three_halves_and_overflows :
  fst (compute_backoff default_handler 1 Scenario.top_draw initial)
    = Ok (Dy 6755399441055744 (-52))
  /\ eqb (Dy 6755399441055744 (-52)) three_halves = true
  /\ ltb (Dy 6755399441055744 (-52)) three_halves = false
  /\ backoff_base default_handler 1752 = None
  /\ fst (compute_backoff default_handler 1752 Scenario.top_draw initial)
     = Raise OverflowError.
Proof. vm_compute. repeat split; reflexivity. Qed.

End Backoff.

(** The kernel's own binary64 arithmetic on the expression of
    [compute_backoff(1)] at the largest draw, [random() = 1 - 2^-53]:
    the same mantissa and exponent as the model's, the number 1.5. *)
Module KernelFloat.

Import Floats.

Example top_draw_sum :
  Prim2SF (1 + (0 + (0.5 - 0) * 0x1.fffffffffffffp-1))%float
  = S754_finite false 6755399441055744 (-52)
  /\ Prim2SF 1.5%float = S754_finite false 6755399441055744 (-52).
Proof. vm_compute. split; reflexivity. Qed.

Example next_draw_sum :
  Prim2SF (1 + (0 + (0.5 - 0) * 0x1.ffffffffffffdp-1))%float
  = S754_finite false 6755399441055743 (-52)
  /\ Binary64.add Binary64.one
       (Binary64.uniform_of_draw Binary64.zero Binary64.half (2 ^ 53 - 3))
     = Binary64.Dy 6755399441055743 (-52).
Proof. vm_compute. split; reflexivity. Qed.

End KernelFloat.

(** ** Target locator *)

Section TargetLocator.

Lemma all_chars_app (p : ascii -> bool) (a b : string) :
  Url.all_chars p (a ++ b) = Url.all_chars p a && Url.all_chars p b.
Proof.
  induction a as [|c a IH]; simpl; [reflexivity|].
  rewrite IH, andb_assoc. reflexivity.
Qed.

Lemma hex_digit_query (n : N) :
  (n < 16)%N -> Url.query_char (Url.hex_digit n) = true.
Proof.
  intros Hn.
  assert (E : In n (map N.of_nat (seq 0 16))).
  { apply in_map_iff. exists (N.to_nat n). split; [lia|].
    apply in_seq. lia. }
  cbn in E.
  repeat (destruct E as [<- | E]; [reflexivity|]). contradiction.
Qed.

Lemma quote_plus_char_query (c : ascii) :
  Url.all_chars Url.query_char (Url.quote_plus_char c) = true.
Proof.
  unfold Url.quote_plus_char.
  destruct (Ascii.eqb c " "); [reflexivity|].
  destruct (Url.always_safe c) eqn:E.
  - cbn. unfold Url.query_char. rewrite E. reflexivity.
  - cbn [Url.all_chars].
    assert (Hn : (N_of_ascii c < 256)%N) by apply N_ascii_bounded.
    rewrite !hex_digit_query.
    + reflexivity.
    + apply N.mod_lt. discriminate.
    + apply N.Div0.div_lt_upper_bound. exact Hn.
Qed.

(** An encoded value holds safe characters, [+] and [%] only: no [&], no
    [=], no blank. *)
Lemma quote_plus_query (s : string) :
  Url.all_chars Url.query_char (Url.quote_plus s) = true.
Proof.
  induction s as [|c s IH]; [reflexivity|].
  cbn [Url.quote_plus]. rewrite all_chars_app, quote_plus_char_query, IH.
  reflexivity.
Qed.

Lemma quote_plus_safe (s : string) :
  Url.all_chars Url.always_safe s = true -> Url.quote_plus s = s.
Proof.
  induction s as [|c s IH]; [reflexivity|].
  cbn [Url.all_chars Url.quote_plus]. intros H.
  apply andb_prop in H. destruct H as [Hc Hs].
  rewrite (IH Hs). unfold Url.quote_plus_char. rewrite Hc.
  destruct (Ascii.eqb_spec c " ") as [->|_]; [discriminate | reflexivity].
Qed.

Lemma string_of_uint_safe (d : Decimal.uint) :
  Url.all_chars Url.always_safe (NilZero.string_of_uint d) = true.
Proof.
  destruct d; [reflexivity | | | | | | | | | |];
    cbn [NilZero.string_of_uint]; 
    (induction d; cbn; auto).
Qed.

Lemma str_app_assoc (a b c : string) : (a ++ b) ++ c = a ++ b ++ c.
Proof. induction a as [|x a IH]; simpl; [|rewrite IH]; reflexivity. Qed.

Lemma of_int_safe (n : Z) :
  Url.all_chars Url.always_safe (PyStr.of_int n) = true.
Proof.
  unfold PyStr.of_int, NilZero.string_of_int.
  destruct (Z.to_int n) as [d|d].
  - apply string_of_uint_safe.
  - cbn [Url.all_chars]. rewrite string_of_uint_safe. reflexivity.
Qed.

(** C8. The locator the code builds is the spec's, character for
    character: the base, then [q], [mkt], [setLang], [count] and [first]
    in this order, [first] being [(page - 1) * results_per_page + 1]; the
    text values are query-encoded, and so are the two numbers, whose
    decimal writing the encoding leaves as it is. *)
Theorem build_search_url_exact (term market_code language_code : string)
    (page results_per_page : Z) :
  _build_search_url term page results_per_page market_code language_code
  = target_locator_spec BASE_URL term market_code language_code
      results_per_page page
  /\
  _build_search_url term page results_per_page market_code language_code
  = BASE_URL
    ++ "?q=" ++ Url.quote_plus term
    ++ "&mkt=" ++ Url.quote_plus market_code
    ++ "&setLang=" ++ Url.quote_plus language_code
    ++ "&count=" ++ PyStr.of_int results_per_page
    ++ "&first=" ++ PyStr.of_int ((page - 1) * results_per_page + 1)
  /\
  Url.all_chars Url.query_char (Url.quote_plus term) = true /\
  Url.all_chars Url.query_char (Url.quote_plus market_code) = true /\
  Url.all_chars Url.query_char (Url.quote_plus language_code) = true.
Proof.
  assert (E : _build_search_url term page results_per_page market_code
                language_code
              = target_locator_spec BASE_URL term market_code language_code
                  results_per_page page).
  { unfold _build_search_url, target_locator_spec, Url.urlencode.
    cbn [map fst snd PyStr.join Url.to_str].
    change (Url.quote_plus "q") with "q".
    change (Url.quote_plus "mkt") with "mkt".
    change (Url.quote_plus "setLang") with "setLang".
    change (Url.quote_plus "count") with "count".
    change (Url.quote_plus "first") with "first".
    rewrite !str_app_assoc. reflexivity. }
  split; [exact E|]. split.
  - rewrite E. unfold target_locator_spec.
    rewrite !(quote_plus_safe (PyStr.of_int _)) by apply of_int_safe.
    reflexivity.
  - repeat split; apply quote_plus_query.
Qed.

Example build_search_url_page_2 :
  _build_search_url "rocq prover & co" 2 10 "en-US" "en"
  = "https://www.bing.com/search?q=rocq+prover+%26+co&mkt=en-US&setLang=en&count=10&first=11".
Proof. reflexivity. Qed.

End TargetLocator.

(** ** What a computation adds to the trace *)

Section TraceLogic.

Context {A B : Type}.

Lemma adds_ret (a : A) (P : event -> Prop) : adds (ret a) P.
Proof. intros w s. exists []. cbn. rewrite app_nil_r. auto. Qed.

Lemma adds_raise (e : exn) (P : event -> Prop) : adds (@raise A e) P.
Proof. intros w s. exists []. cbn. rewrite app_nil_r. auto. Qed.

Lemma adds_out_of_fuel (P : event -> Prop) : adds (@out_of_fuel A) P.
Proof. intros w s. exists []. cbn. rewrite app_nil_r. auto. Qed.

Lemma adds_bind (c : M A) (k : A -> M B) (P : event -> Prop) :
  adds c P -> (forall a, adds (k a) P) -> adds (bind c k) P.
Proof.
  intros Hc Hk w s. unfold bind.
  destruct (Hc w s) as (m1 & H1 & F1).
  destruct (c w s) as [[a|e|] s1]; cbn [snd] in H1 |- *.
  - destruct (Hk a w s1) as (m2 & H2 & F2).
    exists (m1 ++ m2)%list. rewrite H2, H1, app_assoc.
    split; [reflexivity | apply Forall_app; auto].
  - exists m1; auto.
  - exists m1; auto.
Qed.

Lemma adds_try_except (c : M A) (handler : exn -> option (M A))
    (P : event -> Prop) :
  adds c P -> (forall e hd, handler e = Some hd -> adds hd P) ->
  adds (try_except c handler) P.
Proof.
  intros Hc Hh w s. unfold try_except.
  destruct (Hc w s) as (m1 & H1 & F1).
  destruct (c w s) as [[a|e|] s1]; cbn [snd] in H1 |- *.
  - exists m1; auto.
  - destruct (handler e) as [hd|] eqn:E.
    + destruct (Hh e hd E w s1) as (m2 & H2 & F2).
      exists (m1 ++ m2)%list. rewrite H2, H1, app_assoc.
      split; [reflexivity | apply Forall_app; auto].
    + exists m1; auto.
  - exists m1; auto.
Qed.

Lemma adds_weaken (c : M A) (P Q : event -> Prop) :
  (forall e, P e -> Q e) -> adds c P -> adds c Q.
Proof.
  intros HPQ Hc w s. destruct (Hc w s) as (m & H & F).
  exists m. split; [exact H|]. eapply Forall_impl; eauto.
Qed.

End TraceLogic.

Section TraceOfEffects.

Variable P : event -> Prop.

Lemma adds_emit (e : event) : P e -> adds (emit e) P.
Proof. intros He w s. exists [e]. cbn. auto. Qed.

Lemma adds_log (lvl : level) (msg : string) :
  P (ELog lvl msg) -> adds (log lvl msg) P.
Proof. apply adds_emit. Qed.

Lemma adds_sleep (d : Binary64.dy) : P (ESleep d) -> adds (sleep d) P.
Proof.
  intros Hd w s.
  destruct (sleep_outcomes d w s) as [-> | (e & ->)]; cbn [snd trace].
  - exists [ESleep d]. split; [reflexivity|]. constructor; [exact Hd|].
    constructor.
  - exists []. rewrite app_nil_r. split; [reflexivity | constructor].
Qed.

Lemma adds_draw (k : draw_kind) :
  (forall raw, P (EDraw k raw)) -> adds (draw k) P.
Proof. intros Hk w s. eexists. cbn. split; [reflexivity|]. auto. Qed.

Lemma adds_session_get (r : Request) :
  P (EGet r) -> adds (session_get r) P.
Proof. intros Hr w s. exists [EGet r]. cbn. auto. Qed.

Lemma adds_compute_backoff (h : SoftBlockHandler) (attempt : Z) :
  (forall raw, P (EDraw DUniform raw)) -> adds (compute_backoff h attempt) P.
Proof.
  intros Hd. unfold compute_backoff. apply adds_bind.
  - destruct (backoff_base h attempt); [apply adds_ret | apply adds_raise].
  - intros base. unfold random_uniform.
    apply adds_bind; [apply adds_bind|].
    + apply adds_draw, Hd.
    + intros; apply adds_ret.
    + intros; apply adds_ret.
Qed.

End TraceOfEffects.

(** ** Page fetcher *)

Section PageFetcher.

Variable sc : BingSearchScraper.
Variable url : string.

Lemma adds_recovery_attempt (attempt : Z) :
  adds (recovery_attempt (softblock_handler sc) url attempt)
       (recovery_event url).
Proof.
  unfold recovery_attempt.
  apply adds_bind; [apply adds_compute_backoff; intros; exact I|].
  intros delay. apply adds_bind; [apply adds_log; exact I|]. intros _.
  apply adds_bind; [apply adds_sleep; exact I|]. intros _.
  unfold random_randint.
  apply adds_bind.
  { apply adds_bind; [apply adds_draw; intros; exact I|].
    intros; apply adds_ret. }
  intros chrome. apply adds_try_except.
  - apply adds_bind; [|intros; apply adds_ret].
    apply adds_session_get. exists chrome. reflexivity.
  - intros e hd He. destruct (is_network_failure e); [|discriminate].
    injection He as <-.
    apply adds_bind; [apply adds_log; exact I | intros; apply adds_ret].
Qed.

Lemma adds_recovery_loop (fuel : nat) :
  forall attempt last_html,
  adds (recovery_loop (softblock_handler sc) url fuel attempt last_html)
       (recovery_event url).
Proof.
  induction fuel as [|fuel IH]; intros attempt last_html;
    [apply adds_out_of_fuel|].
  cbn [recovery_loop].
  destruct (attempt <? max_retries (softblock_handler sc)).
  - apply adds_bind; [apply adds_recovery_attempt|].
    intros [got|]; [|apply IH].
    destruct (is_soft_blocked got); cbn [negb]; [apply IH|].
    apply adds_bind; [apply adds_log; exact I | intros; apply adds_ret].
  - apply adds_bind; [apply adds_log; exact I | intros; apply adds_raise].
Qed.

Lemma adds_handle_soft_block (original : option string) :
  adds (handle_soft_block (softblock_handler sc) url original)
       (recovery_event url).
Proof.
  unfold handle_soft_block.
  destruct (known_unblocked original);
    [apply adds_ret | apply adds_recovery_loop].
Qed.

Lemma adds_fetch_attempt (headers : list (string * string)) (attempt : Z) :
  adds (fetch_attempt sc url headers attempt) (fetch_event sc url headers).
Proof.
  unfold fetch_attempt. apply adds_try_except.
  - apply adds_bind; [|intros; apply adds_ret].
    apply adds_session_get. reflexivity.
  - intros e hd He. destruct (is_network_failure e); [|discriminate].
    injection He as <-.
    apply adds_bind; [apply adds_log; exact I|]. intros _.
    destruct (attempt >=? max_retries (softblock_handler sc));
      [apply adds_raise|].
    apply adds_bind; [apply adds_compute_backoff; intros; exact I|].
    intros delay.
    apply adds_bind; [apply adds_sleep; exact I | intros; apply adds_ret].
Qed.

(** The trace of the fetch loop has two parts: the network-retry loop's
    own events, every request under the one [headers], and then what the
    block recovery adds when the loop hands over to it. *)
Lemma fetch_loop_trace (headers : list (string * string)) (fuel : nat) :
  forall attempt w s,
  exists loop_events recovery_events,
    trace (snd (fetch_loop sc url headers fuel attempt w s))
    = (trace s ++ loop_events ++ recovery_events)%list /\
    Forall (fetch_event sc url headers) loop_events /\
    Forall (recovery_event url) recovery_events.
Proof.
  induction fuel as [|fuel IH]; intros attempt w s.
  - exists [], []. cbn. rewrite app_nil_r. auto.
  - cbn [fetch_loop]. unfold bind at 1.
    destruct (adds_fetch_attempt headers (attempt + 1) w s)
      as (m1 & H1 & F1).
    destruct (fetch_attempt sc url headers (attempt + 1) w s)
      as [[[resp|]|e|] s1]; cbn [snd] in H1 |- *.
    + destruct (is_soft_blocked (text resp)).
      * unfold bind, log, emit. cbn [fst snd].
        match goal with
        | |- context [handle_soft_block ?h ?u ?o ?w0 ?s0] =>
            destruct (adds_handle_soft_block o w0 s0) as (m2 & H2 & F2)
        end.
        cbn [trace] in H2.
        exists (m1 ++ [ELog WARNING
                         "Potential soft-block detected for url: %s"])%list,
               m2.
        rewrite H2, H1, <- !app_assoc.
        split; [reflexivity|]. split; [|exact F2].
        apply Forall_app. split; [exact F1|].
        constructor; [exact I | constructor].
      * destruct (negb (ok resp)).
        -- exists (m1 ++ [ELog WARNING
                            "Unexpected HTTP status %s for url %s"])%list, [].
           cbn. rewrite H1, app_nil_r, <- app_assoc.
           split; [reflexivity|]. split; [|constructor].
           apply Forall_app. split; [exact F1|].
           constructor; [exact I | constructor].
        -- exists m1, []. cbn. rewrite H1, app_nil_r. auto.
    + destruct (IH (attempt + 1) w s1) as (l & r & H2 & Fl & Fr).
      exists (m1 ++ l)%list, r. rewrite H2, H1, <- !app_assoc.
      split; [reflexivity|]. split; [|exact Fr].
      apply Forall_app; auto.
    + exists m1, []. rewrite app_nil_r. auto.
    + exists m1, []. rewrite app_nil_r. auto.
Qed.

(** The fetch loop ends: its fuel is never used up. *)
Lemma fetch_loop_terminates (headers : list (string * string)) (fuel : nat) :
  forall attempt w s,
  (Z.to_nat (max_retries (softblock_handler sc) - attempt - 1) < fuel)%nat ->
  fst (fetch_loop sc url headers fuel attempt w s) <> OutOfFuel.
Proof.
  induction fuel as [|fuel IH]; intros attempt w s Hf; [lia|].
  cbn [fetch_loop]. unfold bind at 1.
  destruct (fetch_attempt sc url headers (attempt + 1) w s)
    as [[[resp|]|e|] s1] eqn:E.
  - destruct (is_soft_blocked (text resp)).
    + unfold bind, log, emit. cbn [fst snd].
      apply handle_soft_block_terminates.
    + destruct (negb (ok resp)); cbn; discriminate.
  - apply IH.
    revert E. unfold fetch_attempt, try_except, session_get, bind, ret.
    cbn [n_gets]. destruct (replies w (n_gets s)) as [|e]; [discriminate|].
    destruct (is_network_failure e); [|discriminate].
    unfold log, emit, raise. cbn [fst snd].
    destruct (Z.geb_spec (attempt + 1) (max_retries (softblock_handler sc)));
      [discriminate|].
    intros _. lia.
  - cbn. discriminate.
  - exfalso. revert E.
    unfold fetch_attempt, try_except, session_get, bind, ret.
    cbn [n_gets]. destruct (replies w (n_gets s)) as [|e]; [discriminate|].
    destruct (is_network_failure e); [|discriminate].
    unfold log, emit, raise. cbn [fst snd].
    destruct (attempt + 1 >=? max_retries (softblock_handler sc));
      [discriminate|].
    unfold compute_backoff, random_uniform, draw, emit, bind, ret, raise.
    destruct (backoff_base (softblock_handler sc) (attempt + 1));
      [|discriminate].
    cbn [fst snd].
    match goal with
    | |- context [sleep ?d w ?s0] =>
        destruct (sleep_outcomes d w s0) as [-> | (e0 & ->)]
    end; discriminate.
Qed.

Lemma fetch_page_terminates (w : World) (s : State) :
  fst (_fetch_page sc url w s) <> OutOfFuel.
Proof.
  unfold _fetch_page, random_choice, draw, log, emit, bind, ret.
  cbn [fst snd]. apply fetch_loop_terminates. unfold fetch_fuel. lia.
Qed.

(** C4, as the code has it.  [_fetch_page] draws the user-agent from the
    pool once, before its first attempt; every request of its
    network-retry loop, the retries after a timeout or a connection
    failure included, carries that one user-agent, and nothing after the
    first event draws from the pool again.  (The requests of the block
    recovery, to which the loop may hand over, carry the recovery's own
    headers.) *)
Theorem fetch_page_draws_agent_once (w : World) (s : State) :
  let raw := draws w (n_draws s) in
  let ua := nth (Z.to_nat (raw mod 3)) DEFAULT_USER_AGENTS "" in
  In ua DEFAULT_USER_AGENTS /\
  exists loop_events recovery_events,
    trace (snd (_fetch_page sc url w s))
    = (trace s
       ++ EDraw DChoice raw :: ELog DEBUG "Requesting Bing SERP: %s"
       :: loop_events ++ recovery_events)%list /\
    Forall (fetch_event sc url [("User-Agent", ua)]) loop_events /\
    Forall (recovery_event url) recovery_events.
Proof.
  cbv zeta. split.
  - apply nth_In.
    pose proof (Z.mod_pos_bound (draws w (n_draws s)) 3 eq_refl).
    change (length DEFAULT_USER_AGENTS) with 3%nat. lia.
  - unfold _fetch_page, random_choice, draw, log, emit, bind, ret.
    cbn [fst snd n_draws n_gets trace].
    match goal with
    | |- context [fetch_loop sc url ?hd ?f ?a w ?s0] =>
        destruct (fetch_loop_trace hd f a w s0)
          as (l & r & H & Fl & Fr)
    end.
    cbn [trace] in H. exists l, r. rewrite H, <- !app_assoc.
    split; [reflexivity|]. split; [exact Fl | exact Fr].
Qed.

End PageFetcher.

(** C4, as the specification words it, fails: when the first attempt
    times out and the second succeeds (scenario D), two requests go out
    under one draw from the pool, with the same user-agent. *)
Lemma fetch_retry_reuses_agent :
  let t := trace (snd (_fetch_page default_scraper Scenario.url
                         Scenario.timeout_then_plain initial)) in
  fst (_fetch_page default_scraper Scenario.url
         Scenario.timeout_then_plain initial) = Ok Scenario.plain_body /\
  requests_in t = 2%nat /\
  agent_draws_in t = 1%nat /\
  map agent_of (requests_of t)
  = [ Some (nth 0 DEFAULT_USER_AGENTS ""); Some (nth 0 DEFAULT_USER_AGENTS "") ].
Proof. vm_compute. repeat split; reflexivity. Qed.

(** ** Running the monad *)

Section MonadFacts.

Context {A B : Type}.

Lemma bind_Ok (c : M A) (k : A -> M B) (w : World) (s s' : State) (b : B) :
  bind c k w s = (Ok b, s') ->
  exists a s1, c w s = (Ok a, s1) /\ k a w s1 = (Ok b, s').
Proof.
  unfold bind. destruct (c w s) as [[a|e|] s1]; intros H;
    [exists a, s1; auto | discriminate | discriminate].
Qed.

Lemma bind_run (c : M A) (k : A -> M B) (w : World) (s s1 : State) (a : A) :
  c w s = (Ok a, s1) -> bind c k w s = k a w s1.
Proof. intros H. unfold bind. rewrite H. reflexivity. Qed.

Lemma bind_Raise (c : M A) (k : A -> M B) (w : World) (s s1 : State)
    (e : exn) :
  c w s = (Raise e, s1) -> bind c k w s = (Raise e, s1).
Proof. intros H. unfold bind. rewrite H. reflexivity. Qed.

Lemma ret_Ok (a b : A) (w : World) (s s' : State) :
  ret a w s = (Ok b, s') -> a = b /\ s = s'.
Proof. unfold ret. intros H. injection H as -> ->. auto. Qed.

Lemma call_Ok (r : result A) (a : A) (w : World) (s s' : State) :
  call r w s = (Ok a, s') -> r = Returns a /\ s' = s.
Proof.
  unfold call. destruct r; intros H; [|discriminate].
  injection H as -> ->. auto.
Qed.

End MonadFacts.

Ltac inv_binds :=
  repeat match goal with
         | H : bind _ _ _ _ = (Ok _, _) |- _ =>
             apply bind_Ok in H; destruct H as (? & ? & ? & H)
         | H : ret _ _ _ = (Ok _, _) |- _ =>
             apply ret_Ok in H; destruct H; subst
         end.

(** ** Record extractor: positions *)

Section Positions.

Context {node : Type} {api : Soup node}.

Lemma shifted_positions (p : Z) (n : nat) :
  map (fun i => p + Z.of_nat i) (seq 2 n)
  = map (fun i => p + 1 + Z.of_nat i) (seq 1 n).
Proof.
  rewrite <- (seq_shift n 1), map_map. apply map_ext. intros i. lia.
Qed.

(** The loop numbers what it appends from [position + 1] on, one number
    per listing that passed, in the order of the listings. *)
Lemma listing_loop_positions {I : Type}
    (build : node -> node -> string -> Z -> M I)
    (pos : I -> Z) (addr : I -> string) :
  (forall li link url p w s item s',
     build li link url p w s = (Ok item, s') ->
     pos item = p /\ addr item = url) ->
  forall listings position items w s out s',
  listing_loop build listings position items w s = (Ok out, s') ->
  exists new,
    out = (items ++ new)%list /\
    map addr new = passing_urls listings /\
    map pos new
    = map (fun i => position + Z.of_nat i) (seq 1 (length new)).
Proof.
  intros Hbuild.
  induction listings as [|li rest IH]; intros position items w s out s' H.
  - cbn [listing_loop] in H. apply ret_Ok in H. destruct H as [<- _].
    exists []. rewrite app_nil_r. auto.
  - cbn [listing_loop] in H. apply bind_Ok in H.
    destruct H as (passed & s1 & Hc & H).
    apply call_Ok in Hc. destruct Hc as [Hl ->].
    cbn [passing_urls flat_map]. rewrite Hl.
    destruct passed as [[link url]|].
    + apply bind_Ok in H. destruct H as (item & s2 & Hi & H).
      destruct (Hbuild _ _ _ _ _ _ _ _ Hi) as [Hp Hu].
      destruct (IH _ _ _ _ _ _ H) as (new & -> & Hurls & Hpos).
      exists (item :: new). rewrite <- app_assoc. split; [reflexivity|].
      cbn [map length seq app]. rewrite Hu, Hp. split.
      * f_equal. exact Hurls.
      * f_equal. rewrite Hpos. symmetry. apply shifted_positions.
    + destruct (IH _ _ _ _ _ _ H) as (new & -> & Hurls & Hpos).
      exists new. auto.
Qed.

Lemma organic_item_fields (li link : node) (url : string) (p : Z)
    (w : World) (s : State) (item : OrganicItem) (s' : State) :
  organic_item li link url p w s = (Ok item, s') ->
  org_position item = p /\ org_url item = url.
Proof.
  unfold organic_item. intros H. inv_binds. auto.
Qed.

Lemma paid_item_fields (li link : node) (url : string) (p : Z)
    (w : World) (s : State) (item : PaidItem) (s' : State) :
  paid_item li link url p w s = (Ok item, s') ->
  ad_position item = p /\ ad_url item = url.
Proof.
  unfold paid_item. intros H. inv_binds. auto.
Qed.

End Positions.

(** ** Record extractor: what returns *)

Section Totality.

Lemma total_ret {A} (a : A) : total (ret a).
Proof. intros w s. exists a, s. reflexivity. Qed.

Lemma total_call {A} (r : result A) (a : A) :
  r = Returns a -> total (call r).
Proof. intros -> w s. exists a, s. reflexivity. Qed.

Lemma total_log (lvl : level) (msg : string) : total (log lvl msg).
Proof. intros w s. eexists; eexists. reflexivity. Qed.

Lemma total_bind {A B} (c : M A) (k : A -> M B) :
  total c -> (forall a, total (k a)) -> total (bind c k).
Proof.
  intros Hc Hk w s. destruct (Hc w s) as (a & s1 & H1).
  destruct (Hk a w s1) as (b & s2 & H2).
  exists b, s2. rewrite (bind_run _ _ _ _ _ _ H1). exact H2.
Qed.

(** [_extract_results_total] returns, whatever the library does: its
    handler catches every exception. *)
Lemma results_total_returns {node : Type} {api : Soup node} (soup : node) :
  total (_extract_results_total soup).
Proof.
  intros w s.
  unfold _extract_results_total, try_except, results_total_body,
    bind, call, ret, log, emit.
  destruct (select_one soup "#b_tween .sb_count") as [[el|]|e];
    try (eexists; eexists; reflexivity).
  destruct (get_text el "") as [stripped|e];
    try (eexists; eexists; reflexivity).
  destruct (is_empty stripped); try (eexists; eexists; reflexivity).
  destruct (get_text el " ") as [txt|e];
    try (eexists; eexists; reflexivity).
  destruct (digits_of txt) as [|c rest];
    try (eexists; eexists; reflexivity).
  destruct (int_of_digits (c :: rest)) as [n|e];
    eexists; eexists; reflexivity.
Qed.


Lemma listing_loop_total {node : Type} {api : Soup node} {I : Type}
    (build : node -> node -> string -> Z -> M I) :
  (forall li, exists r, heading_link li = Returns r) ->
  (forall li link url p, total (build li link url p)) ->
  forall listings position items,
    total (listing_loop build listings position items).
Proof.
  intros Hh Hb. induction listings as [|li rest IH]; intros position items.
  - apply total_ret.
  - cbn [listing_loop]. destruct (Hh li) as (r & Hr).
    apply total_bind; [apply (total_call _ _ Hr)|].
    intros [[link url]|]; [|apply IH].
    apply total_bind; [apply Hb | intros; apply IH].
Qed.

End Totality.

(** When the library answers every call, every sub-extraction
    returns: the code looks at no node that is not there. *)
Section AnsweringLibrary.

Context {node : Type} {api : Soup node}.
Hypothesis answers : answers_every_call api.

Lemma total_answer {A} (r : result A) :
  (exists a, r = Returns a) -> total (call r).
Proof. intros (a & Ha). exact (total_call r a Ha). Qed.

Ltac answered :=
  apply total_answer;
  first [ apply (answers_select _ answers)
        | apply (answers_select_one _ answers)
        | apply (answers_find _ answers)
        | apply (answers_find_class _ answers)
        | apply (answers_find_href _ answers)
        | apply (answers_find_all _ answers)
        | apply (answers_get _ answers)
        | apply (answers_get_classes _ answers)
        | apply (answers_get_text _ answers) ].

Ltac returns :=
  repeat first
    [ apply total_ret
    | answered
    | apply total_bind; [|intros]
    | match goal with
      | |- total (match ?x with _ => _ end) => destruct x
      | |- total (if ?x then _ else _) => destruct x
      end ].

Lemma heading_link_answers (li : node) :
  exists r, heading_link li = Returns r.
Proof.
  unfold heading_link.
  destruct (answers_find _ answers li "h2") as ([el|] & ->);
    [|eexists; reflexivity].
  destruct (answers_find _ answers el "a") as ([a|] & ->);
    [|eexists; reflexivity].
  destruct (answers_get _ answers a "href") as ([u|] & ->);
    [|eexists; reflexivity].
  destruct (is_empty u); eexists; reflexivity.
Qed.

Lemma keywords_loop_total (strongs : list node) :
  forall acc, total (keywords_loop strongs acc).
Proof.
  induction strongs as [|x rest IH]; intros acc; cbn [keywords_loop];
    [apply total_ret|].
  apply total_bind; [answered|].
  intros kw. destruct (negb (is_empty kw) && _); apply IH.
Qed.

Lemma organic_item_total (li link : node) (url : string) (p : Z) :
  total (organic_item li link url p).
Proof. unfold organic_item. returns. apply keywords_loop_total. Qed.

Lemma paid_item_total (li link : node) (url : string) (p : Z) :
  total (paid_item li link url p).
Proof. unfold paid_item. returns. Qed.

Lemma organic_total (soup : node) : total (_extract_organic_results soup).
Proof.
  unfold _extract_organic_results.
  apply total_bind; [answered|]. intros listings.
  apply listing_loop_total;
    [apply heading_link_answers | apply organic_item_total].
Qed.

Lemma paid_total (soup : node) : total (_extract_paid_results soup).
Proof.
  unfold _extract_paid_results.
  apply total_bind; [answered|]. intros listings.
  apply listing_loop_total;
    [apply heading_link_answers | apply paid_item_total].
Qed.

Lemma paa_loop_total (blocks : list node) :
  forall items, total (paa_loop blocks items).
Proof.
  induction blocks as [|b rest IH]; intros items; cbn [paa_loop];
    [apply total_ret|].
  apply total_bind; [answered|]. intros question_el.
  apply total_bind; [returns|].
  intros [[q a] u]. destruct (negb (is_empty q)); apply IH.
Qed.

Lemma paa_total (soup : node) : total (_extract_people_also_ask soup).
Proof.
  unfold _extract_people_also_ask.
  apply total_bind; [answered|]. intros blocks. apply paa_loop_total.
Qed.

Lemma related_loop_total (lis : list node) :
  forall items, total (related_loop lis items).
Proof.
  induction lis as [|li rest IH]; intros items; cbn [related_loop];
    [apply total_ret|].
  apply total_bind; [answered|].
  intros [a|]; [|apply IH].
  apply total_bind; [answered|]. intros title.
  apply total_bind; [answered|]. intros u.
  destruct (negb (is_empty title)); apply IH.
Qed.

Lemma related_total (soup : node) : total (_extract_related_queries soup).
Proof.
  unfold _extract_related_queries.
  apply total_bind; [answered|].
  intros [|first rest]; [apply total_ret|].
  apply total_bind; [answered|]. intros classes.
  apply total_bind; [returns|]. intros lis.
  apply related_loop_total.
Qed.

(** Once the library has made a document of the markup, [_parse_page]
    returns a record. *)
Lemma parse_page_total (sc : BingSearchScraper) (markup : string)
    (meta : SearchQueryMeta) (soup : node) :
  parse markup = Returns soup ->
  total (_parse_page sc markup meta).
Proof.
  intros Hp. unfold _parse_page.
  apply total_bind; [exact (total_call _ _ Hp)|].
  intros soup'.
  apply total_bind; [apply results_total_returns|]. intros.
  apply total_bind; [apply organic_total|]. intros.
  apply total_bind; [apply paid_total|]. intros.
  apply total_bind; [apply paa_total|]. intros.
  apply total_bind; [apply related_total|]. intros.
  apply total_ret.
Qed.

End AnsweringLibrary.

(** The document model answers every call. *)
Lemma dom_answers (parser : string -> result (list Dom.tree)) :
  answers_every_call (DomSoup parser).
Proof. split; intros; eexists; reflexivity. Qed.

Lemma dom_parse_page_total (parser : string -> result (list Dom.tree))
    (sc : BingSearchScraper) (markup : string) (meta : SearchQueryMeta)
    (top : list Dom.tree) :
  parser markup = Returns top ->
  total (@_parse_page _ (DomSoup parser) sc markup meta).
Proof.
  intros Hp.
  apply (parse_page_total (dom_answers parser) sc markup meta
           (Dom.document top)).
  cbn [parse DomSoup]. rewrite Hp. reflexivity.
Qed.

(** ** Record extractor: main results *)

Lemma one_to_positions (n : nat) :
  map (fun i => 0 + Z.of_nat i) (seq 1 n) = one_to n.
Proof. unfold one_to. apply map_ext. intros i. lia. Qed.

(** C7. In every record [_parse_page] returns, the organic items are the
    listings with a heading link, in their order, and their positions are
    1, 2, ..., n for the n of them, a listing without one consuming none;
    the same holds for the paid items over the ad listings, counted on
    their own.  And on a parsed document [_parse_page] does return. *)
Theorem positions_contiguous :
  (forall (node : Type) (api : Soup node) (sc : BingSearchScraper)
          (markup : string) (meta : SearchQueryMeta) (w : World)
          (s s' : State) (page : PageRecord),
     _parse_page sc markup meta w s = (Ok page, s') ->
     exists soup organic_listings paid_blocks,
       parse markup = Returns soup /\
       select soup "#b_results li.b_algo" = Returns organic_listings /\
       select soup "#b_results li.b_ad, #b_results li.b_adresult"
         = Returns paid_blocks /\
       map org_url (organicResults page) = passing_urls organic_listings /\
       map org_position (organicResults page)
         = one_to (length (passing_urls organic_listings)) /\
       map ad_url (paidResults page) = passing_urls paid_blocks /\
       map ad_position (paidResults page)
         = one_to (length (passing_urls paid_blocks)))
  /\
  (forall (parser : string -> result (list Dom.tree))
          (sc : BingSearchScraper) (markup : string) (meta : SearchQueryMeta)
          (top : list Dom.tree),
     parser markup = Returns top ->
     total (@_parse_page _ (DomSoup parser) sc markup meta)).
Proof.
  split; [|intros; eapply dom_parse_page_total; eauto].
  intros node api sc markup meta w s s' page H.
  unfold _parse_page in H.
  apply bind_Ok in H. destruct H as (soup & s0 & Hparse & H).
  apply call_Ok in Hparse. destruct Hparse as [Hparse ->].
  apply bind_Ok in H. destruct H as (rt & s1 & _ & H).
  apply bind_Ok in H. destruct H as (org & s2 & Horg & H).
  apply bind_Ok in H. destruct H as (paid & s3 & Hpaid & H).
  apply bind_Ok in H. destruct H as (paa & s4 & _ & H).
  apply bind_Ok in H. destruct H as (rel & s5 & _ & H).
  apply ret_Ok in H. destruct H as [<- _].
  unfold _extract_organic_results in Horg.
  apply bind_Ok in Horg. destruct Horg as (ol & t1 & Hsel1 & Horg).
  apply call_Ok in Hsel1. destruct Hsel1 as [Hsel1 ->].
  unfold _extract_paid_results in Hpaid.
  apply bind_Ok in Hpaid. destruct Hpaid as (pl & t2 & Hsel2 & Hpaid).
  apply call_Ok in Hsel2. destruct Hsel2 as [Hsel2 ->].
  destruct (listing_loop_positions organic_item org_position org_url
              organic_item_fields _ _ _ _ _ _ _ Horg)
    as (new1 & -> & Hu1 & Hp1).
  destruct (listing_loop_positions paid_item ad_position ad_url
              paid_item_fields _ _ _ _ _ _ _ Hpaid)
    as (new2 & -> & Hu2 & Hp2).
  exists soup, ol, pl. cbn [organicResults paidResults app].
  rewrite one_to_positions in Hp1, Hp2.
  rewrite <- Hu1, <- Hu2, !length_map.
  repeat split; auto.
Qed.

(** Scenario C, with an ad beside it: three listings, the second without
    a heading link. *)
Lemma positions_contiguous_witness :
  exists page s',
    @_parse_page _ (DomSoup Scenario.parser) default_scraper
      Scenario.serp_markup Scenario.meta Scenario.always_serp initial
    = (Ok page, s') /\
    map org_position (organicResults page) = [1; 2] /\
    map ad_position (paidResults page) = [1].
Proof.
  destruct (proj2 positions_contiguous Scenario.parser default_scraper
              Scenario.serp_markup Scenario.meta [Scenario.serp] eq_refl
              Scenario.always_serp initial) as (page & s' & Hrun).
  exists page, s'. split; [exact Hrun|].
  destruct (proj1 positions_contiguous _ _ _ _ _ _ _ _ _ Hrun)
    as (soup & ol & pl & Hparse & Hsel1 & Hsel2 & _ & Hp1 & _ & Hp2).
  injection Hparse as <-. injection Hsel1 as <-. injection Hsel2 as <-.
  split; [exact Hp1 | exact Hp2].
Defined.



(** A count of 4301 digits, more than [int] takes, is absent as well;
    the count of the results page is read, and so is one in
    Arabic-Indic digits. *)
Example counts_read_and_not_read :
  Scenario.results_total_of Scenario.long_count_markup = Some None /\
  Scenario.results_total_of Scenario.squared_count_markup = Some None /\
  Scenario.results_total_of Scenario.serp_markup = Some (Some 1234) /\
  int_of_digits
    (digits_of (String "217" (String "163" (String "217" (String "164"
                 (String "217" (String "165" " results")))))))
  = Returns 345.
Proof. vm_compute. repeat split; reflexivity. Qed.

(** ** Every run of [search] ends *)

Section Finishing.

Lemma finishes_ret {A} (a : A) : finishes (ret a).
Proof. intros w s. cbn. discriminate. Qed.

Lemma finishes_raise {A} (e : exn) : finishes (@raise A e).
Proof. intros w s. cbn. discriminate. Qed.

Lemma finishes_call {A} (r : result A) : finishes (call r).
Proof. intros w s. unfold call. cbn. destruct r; discriminate. Qed.

Lemma finishes_log (lvl : level) (msg : string) : finishes (log lvl msg).
Proof. intros w s. cbn. discriminate. Qed.

Lemma finishes_sleep (d : Binary64.dy) : finishes (sleep d).
Proof.
  intros w s. destruct (sleep_outcomes d w s) as [-> | (e & ->)];
    cbn; discriminate.
Qed.

Lemma finishes_bind {A B} (c : M A) (k : A -> M B) :
  finishes c -> (forall a, finishes (k a)) -> finishes (bind c k).
Proof.
  intros Hc Hk w s. unfold bind. specialize (Hc w s).
  destruct (c w s) as [[a|e|] s1]; cbn [fst] in *;
    [apply Hk | discriminate | contradiction].
Qed.

Lemma finishes_try_except {A} (c : M A) (handler : exn -> option (M A)) :
  finishes c -> (forall e hd, handler e = Some hd -> finishes hd) ->
  finishes (try_except c handler).
Proof.
  intros Hc Hh w s. unfold try_except. specialize (Hc w s).
  destruct (c w s) as [[a|e|] s1]; cbn [fst] in *;
    [discriminate | | contradiction].
  destruct (handler e) as [hd|] eqn:E; [apply (Hh e hd E) | discriminate].
Qed.

Lemma finishes_random_uniform (a b : Binary64.dy) :
  finishes (random_uniform a b).
Proof. intros w s. cbn. discriminate. Qed.

Context {node : Type} {api : Soup node}.

Ltac finishing :=
  repeat first
    [ apply finishes_ret
    | apply finishes_call
    | apply finishes_bind; [|intros]
    | match goal with
      | |- finishes (match ?x with _ => _ end) => destruct x
      | |- finishes (if ?x then _ else _) => destruct x
      end ].

Lemma finishes_keywords_loop (strongs : list node) :
  forall acc, finishes (keywords_loop strongs acc).
Proof.
  induction strongs as [|x rest IH]; intros acc; cbn [keywords_loop];
    [apply finishes_ret|].
  apply finishes_bind; [apply finishes_call|].
  intros kw. destruct (negb (is_empty kw) && _); apply IH.
Qed.

Lemma finishes_listing_loop {I : Type}
    (build : node -> node -> string -> Z -> M I) :
  (forall li link url p, finishes (build li link url p)) ->
  forall listings position items,
    finishes (listing_loop build listings position items).
Proof.
  intros Hb. induction listings as [|li rest IH]; intros position items;
    cbn [listing_loop]; [apply finishes_ret|].
  apply finishes_bind; [apply finishes_call|].
  intros [[link url]|]; [|apply IH].
  apply finishes_bind; [apply Hb | intros; apply IH].
Qed.

Lemma finishes_paa_loop (blocks : list node) :
  forall items, finishes (paa_loop blocks items).
Proof.
  induction blocks as [|b rest IH]; intros items; cbn [paa_loop];
    [apply finishes_ret|].
  apply finishes_bind; [apply finishes_call|]. intros question_el.
  apply finishes_bind; [finishing|].
  intros [[q a] u]. destruct (negb (is_empty q)); apply IH.
Qed.

Lemma finishes_related_loop (lis : list node) :
  forall items, finishes (related_loop lis items).
Proof.
  induction lis as [|li rest IH]; intros items; cbn [related_loop];
    [apply finishes_ret|].
  apply finishes_bind; [apply finishes_call|].
  intros [a|]; [|apply IH].
  apply finishes_bind; [apply finishes_call|]. intros title.
  apply finishes_bind; [apply finishes_call|]. intros u.
  destruct (negb (is_empty title)); apply IH.
Qed.

Lemma finishes_parse_page (sc : BingSearchScraper) (markup : string)
    (meta : SearchQueryMeta) :
  finishes (_parse_page sc markup meta).
Proof.
  unfold _parse_page.
  apply finishes_bind; [apply finishes_call|]. intros soup.
  apply finishes_bind.
  { unfold _extract_results_total. apply finishes_try_except.
    - unfold results_total_body. finishing.
    - intros e hd He. injection He as <-.
      apply finishes_bind; [apply finishes_log | intros; apply finishes_ret]. }
  intros rt. apply finishes_bind.
  { unfold _extract_organic_results.
    apply finishes_bind; [apply finishes_call|]. intros.
    apply finishes_listing_loop. intros. unfold organic_item.
    finishing. apply finishes_keywords_loop. }
  intros o. apply finishes_bind.
  { unfold _extract_paid_results.
    apply finishes_bind; [apply finishes_call|]. intros.
    apply finishes_listing_loop. intros. unfold paid_item. finishing. }
  intros p. apply finishes_bind.
  { unfold _extract_people_also_ask.
    apply finishes_bind; [apply finishes_call|]. intros.
    apply finishes_paa_loop. }
  intros q. apply finishes_bind.
  { unfold _extract_related_queries.
    apply finishes_bind; [apply finishes_call|].
    intros [|first rest]; [apply finishes_ret|].
    apply finishes_bind; [apply finishes_call|]. intros classes.
    apply finishes_bind; [finishing|]. intros. apply finishes_related_loop. }
  intros r. apply finishes_ret.
Qed.

Lemma finishes_search_loop (sc : BingSearchScraper) (term : string) (rp : Z)
    (mkt lang : string) (pages : list Z) :
  forall results, finishes (search_loop sc term rp mkt lang pages results).
Proof.
  induction pages as [|page rest IH]; intros results; cbn [search_loop];
    [apply finishes_ret|].
  apply finishes_bind; [intros w s; apply fetch_page_terminates|].
  intros markup.
  apply finishes_bind; [apply finishes_parse_page|]. intros pr.
  apply finishes_bind; [apply finishes_random_uniform|]. intros pause.
  apply finishes_bind; [apply finishes_sleep|]. intros _. apply IH.
Qed.

End Finishing.

(** ** Query orchestrator *)

Section Orchestration.

Context {node : Type} {api : Soup node}.

Lemma adds_call {A} (r : result A) (P : event -> Prop) : adds (call r) P.
Proof. intros w s. exists []. cbn. rewrite app_nil_r. auto. Qed.

Ltac adds_nothing :=
  repeat first
    [ apply adds_ret
    | apply adds_call
    | apply adds_bind; [|intros]
    | match goal with
      | |- adds (match ?x with _ => _ end) _ => destruct x
      | |- adds (if ?x then _ else _) _ => destruct x
      end ].

Variable P : event -> Prop.
Hypothesis P_log : forall lvl msg, P (ELog lvl msg).

Lemma adds_keywords_loop (strongs : list node) :
  forall acc, adds (keywords_loop strongs acc) P.
Proof.
  induction strongs as [|x rest IH]; intros acc; cbn [keywords_loop];
    [apply adds_ret|].
  apply adds_bind; [apply adds_call|].
  intros kw. destruct (negb (is_empty kw) && _); apply IH.
Qed.

Lemma adds_listing_loop {I : Type}
    (build : node -> node -> string -> Z -> M I) :
  (forall li link url p, adds (build li link url p) P) ->
  forall listings position items,
    adds (listing_loop build listings position items) P.
Proof.
  intros Hb. induction listings as [|li rest IH]; intros position items;
    cbn [listing_loop]; [apply adds_ret|].
  apply adds_bind; [apply adds_call|].
  intros [[link url]|]; [|apply IH].
  apply adds_bind; [apply Hb | intros; apply IH].
Qed.

Lemma adds_paa_loop (blocks : list node) :
  forall items, adds (paa_loop blocks items) P.
Proof.
  induction blocks as [|b rest IH]; intros items; cbn [paa_loop];
    [apply adds_ret|].
  apply adds_bind; [apply adds_call|]. intros question_el.
  apply adds_bind; [adds_nothing|].
  intros [[q a] u]. destruct (negb (is_empty q)); apply IH.
Qed.

Lemma adds_related_loop (lis : list node) :
  forall items, adds (related_loop lis items) P.
Proof.
  induction lis as [|li rest IH]; intros items; cbn [related_loop];
    [apply adds_ret|].
  apply adds_bind; [apply adds_call|].
  intros [a|]; [|apply IH].
  apply adds_bind; [apply adds_call|]. intros title.
  apply adds_bind; [apply adds_call|]. intros u.
  destruct (negb (is_empty title)); apply IH.
Qed.

(** The extractor adds nothing but lines of the log. *)
Lemma adds_parse_page (sc : BingSearchScraper) (markup : string)
    (meta : SearchQueryMeta) :
  adds (_parse_page sc markup meta) P.
Proof.
  unfold _parse_page.
  apply adds_bind; [apply adds_call|]. intros soup.
  apply adds_bind.
  { unfold _extract_results_total. apply adds_try_except.
    - unfold results_total_body. adds_nothing.
    - intros e hd He. injection He as <-.
      apply adds_bind; [apply adds_log, P_log | intros; apply adds_ret]. }
  intros rt. apply adds_bind.
  { unfold _extract_organic_results.
    apply adds_bind; [apply adds_call|]. intros.
    apply adds_listing_loop. intros. unfold organic_item.
    adds_nothing. apply adds_keywords_loop. }
  intros o. apply adds_bind.
  { unfold _extract_paid_results.
    apply adds_bind; [apply adds_call|]. intros.
    apply adds_listing_loop. intros. unfold paid_item. adds_nothing. }
  intros p. apply adds_bind.
  { unfold _extract_people_also_ask.
    apply adds_bind; [apply adds_call|]. intros. apply adds_paa_loop. }
  intros q. apply adds_bind.
  { unfold _extract_related_queries.
    apply adds_bind; [apply adds_call|].
    intros [|first rest]; [apply adds_ret|].
    apply adds_bind; [apply adds_call|]. intros classes.
    apply adds_bind; [adds_nothing|]. intros. apply adds_related_loop. }
  intros r. apply adds_ret.
Qed.

End Orchestration.

Section OrchestrationMain.

Context {node : Type} {api : Soup node}.

Variable sc : BingSearchScraper.
Variable term : string.
Variable rp : Z.
Variable mkt lang : string.

Local Abbreviation url_of :=
  (fun page => _build_search_url term page rp mkt lang).

Lemma adds_fetch_page (url : string) :
  adds (_fetch_page sc url) (request_for url).
Proof.
  intros w s.
  unfold _fetch_page, random_choice, draw, log, emit, bind, ret.
  cbn [fst snd n_draws n_gets trace].
  match goal with
  | |- context [fetch_loop sc url ?hd ?f ?a w ?s0] =>
      destruct (fetch_loop_trace sc url hd f a w s0) as (l & r & H & Fl & Fr)
  end.
  cbn [trace] in H. rewrite H, <- !app_assoc.
  eexists. split; [reflexivity|].
  repeat (constructor; [exact I|]).
  apply Forall_app. split.
  - eapply Forall_impl; [|exact Fl].
    intros [k raw|d|r0|lvl msg]; cbn; auto. intros ->. reflexivity.
  - eapply Forall_impl; [|exact Fr].
    intros [k raw|d|r0|lvl msg]; cbn; auto. intros (c & ->). reflexivity.
Qed.

Lemma parse_page_meta (markup : string) (meta : SearchQueryMeta)
    (w : World) (s s' : State) (page : PageRecord) :
  _parse_page sc markup meta w s = (Ok page, s') -> searchQuery page = meta.
Proof. unfold _parse_page. intros H. inv_binds. reflexivity. Qed.

(** A failure of the fetcher on the page at hand ends the loop there:
    with the fetcher's exception, in the fetcher's last state. *)
Lemma search_loop_fetch_failure (page : Z) (rest : list Z)
    (results : list PageRecord) (w : World) (s s1 : State) (e : exn) :
  _fetch_page sc (url_of page) w s = (Raise e, s1) ->
  search_loop sc term rp mkt lang (page :: rest) results w s = (Raise e, s1).
Proof. intros H. cbn [search_loop]. apply bind_Raise, H. Qed.

Lemma search_loop_prefix (l1 l2 : list Z) :
  forall results w s mid s1,
  search_loop sc term rp mkt lang l1 results w s = (Ok mid, s1) ->
  search_loop sc term rp mkt lang (l1 ++ l2) results w s
  = search_loop sc term rp mkt lang l2 mid w s1.
Proof.
  induction l1 as [|page l1 IH]; intros results w s mid s1 H.
  - cbn [search_loop] in H. apply ret_Ok in H. destruct H as [-> ->].
    reflexivity.
  - cbn [search_loop app] in H |- *.
    apply bind_Ok in H. destruct H as (markup & t1 & H1 & H).
    apply bind_Ok in H. destruct H as (pr & t2 & H2 & H).
    apply bind_Ok in H. destruct H as (pause & t3 & H3 & H).
    apply bind_Ok in H. destruct H as (u & t4 & H4 & H).
    rewrite (bind_run _ _ _ _ _ _ H1), (bind_run _ _ _ _ _ _ H2),
      (bind_run _ _ _ _ _ _ H3), (bind_run _ _ _ _ _ _ H4).
    apply IH, H.
Qed.

Lemma search_loop_pages (pages : list Z) :
  forall results w s out s',
  search_loop sc term rp mkt lang pages results w s = (Ok out, s') ->
  map (fun r => meta_page (searchQuery r)) out
  = (map (fun r => meta_page (searchQuery r)) results ++ pages)%list.
Proof.
  induction pages as [|page rest IH]; intros results w s out s' H.
  - cbn [search_loop] in H. apply ret_Ok in H. destruct H as [-> _].
    rewrite app_nil_r. reflexivity.
  - cbn [search_loop] in H.
    apply bind_Ok in H. destruct H as (markup & t1 & H1 & H).
    apply bind_Ok in H. destruct H as (pr & t2 & H2 & H).
    apply bind_Ok in H. destruct H as (pause & t3 & H3 & H).
    apply bind_Ok in H. destruct H as (u & t4 & H4 & H).
    rewrite (IH _ _ _ _ _ H), map_app, <- app_assoc. cbn [map app].
    rewrite (parse_page_meta _ _ _ _ _ _ H2). reflexivity.
Qed.

(** The trace of the loop falls into one segment per page, in the order
    of the pages, each with requests for its page only. *)
Lemma search_loop_served (pages : list Z) :
  forall results w s,
  exists more,
    trace (snd (search_loop sc term rp mkt lang pages results w s))
    = (trace s ++ more)%list /\
    served (map url_of pages) more.
Proof.
  induction pages as [|page rest IH]; intros results w s.
  - exists []. cbn. rewrite app_nil_r. split; [reflexivity | constructor].
  - cbn [search_loop map]. fold (url_of page).
    assert (Hstop : forall m, Forall (request_for (url_of page)) m ->
              served (url_of page :: map url_of rest) m).
    { intros m Hm. rewrite <- (app_nil_r m).
      constructor; [exact Hm | constructor]. }
    unfold bind at 1.
    destruct (adds_fetch_page (url_of page) w s) as (m1 & T1 & F1).
    destruct (_fetch_page sc (url_of page) w s) as [[markup|e|] s1];
      cbn [snd] in T1 |- *; [|exists m1; auto ..].
    unfold bind at 1.
    match goal with
    | |- context [_parse_page sc markup ?meta w s1] =>
        destruct (adds_parse_page (request_for (url_of page))
                    (fun _ _ => I) sc markup meta w s1) as (m2 & T2 & F2);
        destruct (_parse_page sc markup meta w s1) as [[pr|e|] s2]
    end; cbn [snd] in T2 |- *;
      [|exists (m1 ++ m2)%list; rewrite T2, T1, app_assoc;
        (split; [reflexivity | apply Hstop, Forall_app; auto]) ..].
    unfold random_uniform, draw, bind, ret.
    cbn [fst snd n_draws n_gets trace].
    match goal with
    | |- context [sleep ?d w ?s0] =>
        destruct (sleep_outcomes d w s0) as [-> | (e0 & ->)]
    end; cbn [fst snd n_draws n_gets trace].
    + match goal with
      | |- context [search_loop sc term rp mkt lang rest ?r w ?s3] =>
          destruct (IH r w s3) as (m3 & T3 & S3)
      end.
      cbn [trace] in T3. rewrite T3, T2, T1, <- !app_assoc.
      eexists. split; [reflexivity|].
      rewrite !app_assoc. constructor; [|exact S3].
      rewrite <- !app_assoc.
      apply Forall_app. split; [exact F1|].
      apply Forall_app. split; [exact F2|].
      repeat (constructor; [exact I|]). constructor.
    + rewrite T2, T1, <- !app_assoc.
      eexists. split; [reflexivity|]. apply Hstop.
      apply Forall_app. split; [exact F1|].
      apply Forall_app. split; [exact F2|].
      repeat (constructor; [exact I|]). constructor.
Qed.

End OrchestrationMain.

Lemma map_seq_from (f : nat -> Z) (c n : nat) :
  map f (seq c n) = map (fun i => f (c + i)%nat) (seq 0 n).
Proof.
  revert c; induction n as [|n IH]; intros c; [reflexivity|].
  cbn [seq map]. rewrite Nat.add_0_r. f_equal.
  rewrite (IH (S c)), <- (seq_shift n 0), map_map.
  apply map_ext. intros i. f_equal. lia.
Qed.

Lemma py_range_split (a k b : Z) :
  a <= k < b -> py_range a b = (py_range a k ++ k :: py_range (k + 1) b)%list.
Proof.
  intros H. unfold py_range.
  replace (Z.to_nat (b - a))
    with (Z.to_nat (k - a) + S (Z.to_nat (b - (k + 1))))%nat by lia.
  rewrite seq_app, map_app. f_equal.
  cbn [seq map Nat.add]. f_equal; [lia|].
  rewrite (map_seq_from _ (S (Z.to_nat (k - a)))).
  apply map_ext. intros i. lia.
Qed.

(** C9. [search] takes the pages 1, 2, ..., [pages] in this order: the
    records it returns are theirs, in this order, and its requests fall
    into one stretch per page, in this order.  When the fetcher fails on
    page [k], the pages before it having been served, [search] fails with
    the fetcher's exception in the state the fetcher left: nothing is
    requested, parsed or returned for page [k] or any later page. *)
Theorem search_in_order_aborting
    {node : Type} {api : Soup node} (sc : BingSearchScraper) (term : string)
    (pages : Z) (rp_arg : option Z) (mkt_arg lang_arg : option string)
    (w : World) (s : State) :
  let rp := or_int rp_arg (results_per_page sc) in
  let mkt := or_str mkt_arg (market_code sc) in
  let lang := or_str lang_arg (language_code sc) in
  let url_of := fun page => _build_search_url term page rp mkt lang in
  (forall out s',
     search sc term pages rp_arg mkt_arg lang_arg w s = (Ok out, s') ->
     map (fun r => meta_page (searchQuery r)) out = py_range 1 (pages + 1))
  /\
  (forall k results s_k e s1,
     1 <= k <= pages ->
     search_loop sc term rp mkt lang (py_range 1 k) [] w s
       = (Ok results, s_k) ->
     _fetch_page sc (url_of k) w s_k = (Raise e, s1) ->
     search sc term pages rp_arg mkt_arg lang_arg w s = (Raise e, s1))
  /\
  (exists more,
     trace (snd (search sc term pages rp_arg mkt_arg lang_arg w s))
     = (trace s ++ more)%list /\
     served (map url_of (py_range 1 (pages + 1))) more)
  /\
  fst (search sc term pages rp_arg mkt_arg lang_arg w s) <> OutOfFuel.
Proof.
  cbv zeta. split; [|split; [|split]]; [| | |apply finishes_search_loop].
  - intros out s' H. unfold search in H.
    apply search_loop_pages in H. exact H.
  - intros k results s_k e s1 Hk Hdone Hfail. unfold search.
    rewrite (py_range_split 1 k (pages + 1)) by lia.
    rewrite (search_loop_prefix _ _ _ _ _ _ _ _ _ _ _ _ Hdone).
    apply search_loop_fetch_failure, Hfail.
  - unfold search. apply search_loop_served.
Qed.

(** Three pages asked for; the first is served, the fetcher gives up on
    the second after its three attempts: four requests in all, none for
    the third page. *)
Lemma search_in_order_aborting_witness :
  exists s1,
    @search _ (DomSoup Scenario.parser) default_scraper "rocq" 3
      None None None Scenario.serp_then_timeouts initial
    = (Raise Timeout, s1) /\
    map req_url (requests_of (trace s1))
    = [ _build_search_url "rocq" 1 10 "en-US" "en";
        _build_search_url "rocq" 2 10 "en-US" "en";
        _build_search_url "rocq" 2 10 "en-US" "en";
        _build_search_url "rocq" 2 10 "en-US" "en" ].
Proof.
  eexists. split.
  - eapply (proj1 (proj2 (@search_in_order_aborting _
                            (DomSoup Scenario.parser) default_scraper "rocq"
                            3 None None None Scenario.serp_then_timeouts
                            initial)) 2).
    + lia.
    + vm_compute. reflexivity.
    + vm_compute. reflexivity.
  - vm_compute. reflexivity.
Defined.

(** ** Block recovery: what every run keeps *)

Section RecoveryInvariants.

Variable h : SoftBlockHandler.
Variable url : string.
Variable w : World.

(** A turn of the loop sends one request at most, and none goes
    missing. *)
Lemma recovery_attempt_gets (attempt : Z) (s : State) :
  let s' := snd (recovery_attempt h url attempt w s) in
  (n_gets s <= n_gets s' <= S (n_gets s))%nat.
Proof.
  unfold recovery_attempt, compute_backoff, random_uniform, random_randint,
    try_except, session_get, log, emit, draw, bind, ret, raise.
  destruct (backoff_base h attempt) as [base|]; [|cbn; lia].
  cbn [n_draws n_gets trace fst snd].
  match goal with
  | |- context [sleep ?d w ?s0] =>
      destruct (sleep_outcomes d w s0) as [-> | (e & ->)]
  end; cbn [n_draws n_gets trace fst snd]; [|lia].
  destruct (replies w (n_gets s)) as [resp|e];
    [|destruct (is_network_failure e)]; cbn; lia.
Qed.

Lemma recovery_loop_gets (fuel : nat) :
  forall (attempt : Z) (last_html : string) (s : State),
  let s' := snd (recovery_loop h url fuel attempt last_html w s) in
  (n_gets s <= n_gets s'
   <= n_gets s + Z.to_nat (max_retries h - attempt))%nat.
Proof.
  induction fuel as [|fuel IH]; intros attempt last_html s; cbn zeta;
    [cbn; lia|].
  remember (recovery_loop h url (S fuel) attempt last_html w s) as r eqn:Er.
  cbn [recovery_loop] in Er.
  destruct (Z.ltb_spec attempt (max_retries h)) as [Hlt|Hge];
    [|subst r; unfold bind, log, emit, raise; cbn [fst snd n_gets]; lia].
  unfold bind at 1 in Er.
  pose proof (recovery_attempt_gets (attempt + 1) s) as H1. cbn zeta in H1.
  destruct (recovery_attempt h url (attempt + 1) w s) as [[[got|]|e|] s1];
    cbn [snd] in H1.
  - destruct (is_soft_blocked got); cbn [negb] in Er; subst r.
    + pose proof (IH (attempt + 1) got s1) as H2. cbn zeta in H2. lia.
    + unfold bind, log, emit, ret. cbn [fst snd n_gets]. lia.
  - subst r.
    pose proof (IH (attempt + 1) last_html s1) as H2. cbn zeta in H2. lia.
  - subst r. cbn [snd]. lia.
  - subst r. cbn [snd]. lia.
Qed.

(** What the loop returns, it received and found unblocked. *)
Lemma recovery_loop_returns_unblocked (fuel : nat) :
  forall (attempt : Z) (last_html html : string) (s s' : State),
  recovery_loop h url fuel attempt last_html w s = (Ok html, s') ->
  is_soft_blocked html = false.
Proof.
  induction fuel as [|fuel IH]; intros attempt last_html html s s' H;
    [discriminate|].
  cbn [recovery_loop] in H.
  destruct (attempt <? max_retries h); [|discriminate].
  unfold bind at 1 in H.
  destruct (recovery_attempt h url (attempt + 1) w s) as [[[got|]|e|] s1];
    try discriminate.
  - destruct (is_soft_blocked got) eqn:Eb; cbn [negb] in H.
    + exact (IH _ _ _ _ _ H).
    + cbn in H. injection H as <- _. exact Eb.
  - exact (IH _ _ _ _ _ H).
Qed.

End RecoveryInvariants.

Lemma handle_soft_block_returns_unblocked
    (h : SoftBlockHandler) (url : string) (original : option string)
    (w : World) (s s' : State) (html : string) :
  handle_soft_block h url original w s = (Ok html, s') ->
  is_soft_blocked html = false.
Proof.
  unfold handle_soft_block, known_unblocked.
  destruct original as [o|].
  - destruct (is_soft_blocked o) eqn:Eb; cbn [negb].
    + apply recovery_loop_returns_unblocked.
    + cbn. intros H. injection H as <- _. exact Eb.
  - apply recovery_loop_returns_unblocked.
Qed.

Lemma handle_soft_block_gets
    (h : SoftBlockHandler) (url : string) (original : option string)
    (w : World) (s : State) :
  let s' := snd (handle_soft_block h url original w s) in
  (n_gets s <= n_gets s' <= n_gets s + Z.to_nat (max_retries h))%nat.
Proof.
  unfold handle_soft_block.
  destruct (known_unblocked original); [cbn; lia|]. cbn zeta.
  pose proof (recovery_loop_gets h url w (recovery_fuel h) 0
                (or_empty original) s) as H.
  cbn zeta in H. rewrite Z.sub_0_r in H. exact H.
Qed.

(** X1. Whatever the network answers, markup that [handle_soft_block]
    returns is markup the detector does not flag. *)
Theorem recovered_markup_is_unblocked
    (h : SoftBlockHandler) (url : string) (original : option string)
    (w : World) (s s' : State) (html : string) :
  handle_soft_block h url original w s = (Ok html, s') ->
  is_soft_blocked html = false.
Proof. apply handle_soft_block_returns_unblocked. Qed.

Lemma recovered_markup_is_unblocked_witness :
  is_soft_blocked Scenario.plain_body = false.
Proof.
  eapply (recovered_markup_is_unblocked default_handler Scenario.url
            (Some Scenario.blocked_body) Scenario.timeout_then_blocked
            initial).
  vm_compute. reflexivity.
Defined.

(** X2. In every world the recovery sends at most [max_retries]
    requests; with a retry ceiling of zero or less it sends none, draws
    and sleeps not at all, and fails at once. *)
Theorem recovery_requests_bounded
    (h : SoftBlockHandler) (url : string) (original : option string)
    (w : World) (s : State) :
  (let s' := snd (handle_soft_block h url original w s) in
   (n_gets s <= n_gets s' <= n_gets s + Z.to_nat (max_retries h))%nat)
  /\
  (max_retries h <= 0 -> known_unblocked original = false ->
   handle_soft_block h url original w s
   = (Raise SoftBlockUnresolved,
      mkState (n_draws s) (n_gets s)
        (trace s ++
         [ELog ERROR
            "Failed to resolve soft block after %d retries for URL: %s"]))).
Proof.
  split.
  - apply handle_soft_block_gets.
  - intros Hm Hk. unfold handle_soft_block. rewrite Hk. cbn zeta.
    unfold recovery_fuel. apply recovery_loop_exit. lia.
Qed.

Lemma recovery_requests_bounded_witness :
  handle_soft_block (mkHandler 0 Binary64.three_halves) Scenario.url None
    Scenario.always_serp initial
  = (Raise SoftBlockUnresolved,
     mkState 0 0
       [ELog ERROR
          "Failed to resolve soft block after %d retries for URL: %s"]).
Proof.
  apply (proj2 (recovery_requests_bounded
                  (mkHandler 0 Binary64.three_halves) Scenario.url None
                  Scenario.always_serp initial)).
  - cbn. lia.
  - reflexivity.
Defined.

(** X3. An exception of [session.get] that is neither a timeout nor a
    connection failure is not caught by the recovery: it leaves
    [handle_soft_block] at the attempt that met it, no further request
    being sent. *)
Theorem recovery_lets_other_exceptions_through
    (h : SoftBlockHandler) (url : string) (original : option string)
    (w : World) (s : State) (e : exn) :
  known_unblocked original = false ->
  0 < max_retries h ->
  delay_ready h 1 (draws w (n_draws s)) ->
  replies w (n_gets s) = Fails e ->
  is_network_failure e = false ->
  exists s',
    handle_soft_block h url original w s = (Raise e, s') /\
    n_gets s' = S (n_gets s).
Proof.
  intros Hk Hpos Hnow Hr He.
  unfold handle_soft_block. rewrite Hk. cbn zeta. unfold recovery_fuel.
  rewrite (recovery_loop_step h url w _ 0 _ s Hpos Hnow). cbn zeta.
  rewrite Hr, He. eexists. split; [reflexivity|].
  apply (attempt_state h url w 1 s Hnow).
Qed.

Lemma recovery_lets_other_exceptions_through_witness :
  exists s',
    handle_soft_block default_handler Scenario.url None Cases.redirect_loop
      initial
    = (Raise (OtherError "TooManyRedirects"), s') /\
    n_gets s' = 1%nat.
Proof.
  apply (recovery_lets_other_exceptions_through default_handler Scenario.url
           None Cases.redirect_loop initial).
  - reflexivity.
  - reflexivity.
  - eexists; split; [vm_compute; reflexivity | vm_compute; reflexivity].
  - reflexivity.
  - reflexivity.
Defined.

(** ** Block recovery: the requests it sends *)

Section RecoveryRequests.

Variable h : SoftBlockHandler.
Variable url : string.

Lemma adds_randint {A} (a b : Z) (k : Z -> M A) (P : event -> Prop) :
  (forall raw, P (EDraw DRandint raw)) ->
  (forall raw, adds (k (a + raw mod (b - a + 1))) P) ->
  adds (bind (random_randint a b) k) P.
Proof.
  intros Hd Hk w s. unfold bind at 1, random_randint, draw, bind, ret.
  cbn [fst snd].
  match goal with
  | |- context [k ?c w ?s0] => destruct (Hk (draws w (n_draws s)) w s0)
                                 as (m & Hm & Fm)
  end.
  cbn [trace] in Hm.
  exists (EDraw DRandint (draws w (n_draws s)) :: m).
  rewrite Hm, <- app_assoc. split; [reflexivity|].
  constructor; [apply Hd | exact Fm].
Qed.

Lemma adds_recovery_attempt_sends (attempt : Z) :
  adds (recovery_attempt h url attempt) (recovery_sends url).
Proof.
  unfold recovery_attempt.
  apply adds_bind; [apply adds_compute_backoff; intros; exact I|].
  intros delay. apply adds_bind; [apply adds_log; exact I|]. intros _.
  apply adds_bind; [apply adds_sleep; exact I|]. intros _.
  apply adds_randint; [intros; exact I|].
  intros raw. apply adds_try_except.
  - apply adds_bind; [|intros; apply adds_ret].
    apply adds_session_get. exists (110 + raw mod (125 - 110 + 1)).
    split; [|reflexivity].
    pose proof (Z.mod_pos_bound raw 16 eq_refl).
    change (125 - 110 + 1) with 16. lia.
  - intros e hd He. destruct (is_network_failure e); [|discriminate].
    injection He as <-.
    apply adds_bind; [apply adds_log; exact I | intros; apply adds_ret].
Qed.

Lemma adds_recovery_loop_sends (fuel : nat) :
  forall attempt last_html,
  adds (recovery_loop h url fuel attempt last_html) (recovery_sends url).
Proof.
  induction fuel as [|fuel IH]; intros attempt last_html;
    [apply adds_out_of_fuel|].
  cbn [recovery_loop].
  destruct (attempt <? max_retries h).
  - apply adds_bind; [apply adds_recovery_attempt_sends|].
    intros [got|]; [|apply IH].
    destruct (is_soft_blocked got); cbn [negb]; [apply IH|].
    apply adds_bind; [apply adds_log; exact I | intros; apply adds_ret].
  - apply adds_bind; [apply adds_log; exact I | intros; apply adds_raise].
Qed.

End RecoveryRequests.

(** X4. Every request the recovery sends goes to the locator it was
    given, with a timeout of 15 seconds, the header [Cache-Control:
    no-cache] and the user-agent of a Chrome whose major version lies
    between 110 and 125. *)
Theorem recovery_requests_shape
    (h : SoftBlockHandler) (url : string) (original : option string) :
  adds (handle_soft_block h url original) (recovery_sends url).
Proof.
  unfold handle_soft_block.
  destruct (known_unblocked original);
    [apply adds_ret | apply adds_recovery_loop_sends].
Qed.

(** ** Backoff policy: the first attempt and the attempts before it *)

(** X5. For an attempt number of 1 or less, zero and the negative ones
    included, and whatever the backoff factor, [compute_backoff] is
    [1.0 + jitter]: it draws once from the generator, does nothing else,
    never raises, and returns a delay from 1.0 to 1.5. *)
Theorem backoff_of_first_attempt_or_less
    (h : SoftBlockHandler) (attempt : Z) (w : World) (s : State) :
  attempt <= 1 ->
  exists d,
    compute_backoff h attempt w s
    = (Ok d, mkState (S (n_draws s)) (n_gets s)
               (trace s ++ [EDraw DUniform (draws w (n_draws s))])) /\
    d = Binary64.add Binary64.one
          (Binary64.uniform_of_draw Binary64.zero Binary64.half
             (draws w (n_draws s))) /\
    Binary64.leb Binary64.one d = true /\
    Binary64.leb d Binary64.three_halves = true.
Proof.
  intros Ha.
  assert (Hb : backoff_base h attempt = Some Binary64.one).
  { unfold backoff_base. destruct (Z.gtb_spec attempt 0); [|reflexivity].
    replace attempt with 1 by lia. change (1 - 1) with 0.
    unfold Binary64.pow, Binary64.pow_rounded.
    rewrite Z.pow_0_r, Z.mul_0_r. reflexivity. }
  rewrite (compute_backoff_run h attempt Binary64.one w s Hb).
  eexists. split; [reflexivity|]. split; [reflexivity|].
  rewrite jitter_value.
  pose proof (Z.mod_pos_bound (draws w (n_draws s)) (2 ^ 53) eq_refl) as Hk.
  set (k := draws w (n_draws s) mod 2 ^ 53) in *.
  rewrite (one_plus_jitter k Hk).
  pose proof (rne_shift_2_bounds k Hk) as Hr.
  set (r := Binary64.rne_shift (2 ^ 54 + k) 2) in *.
  unfold Binary64.leb, Binary64.align.
  cbn [Binary64.mant Binary64.expo Binary64.one Binary64.three_halves].
  change (Z.min 0 (-52)) with (-52). change (Z.min (-52) (-1)) with (-52).
  change (0 - -52) with 52. change (-52 - -52) with 0.
  change (-1 - -52) with 51. change (2 ^ 0) with 1.
  rewrite Z.mul_1_l, Z.mul_1_r.
  split; apply Z.leb_le; lia.
Qed.

Lemma backoff_of_first_attempt_or_less_witness :
  exists d,
    fst (compute_backoff (mkHandler 3 (Binary64.Dy 7 0)) (-4)
           Scenario.top_draw initial) = Ok d /\
    Binary64.leb d Binary64.three_halves = true.
Proof.
  destruct (backoff_of_first_attempt_or_less (mkHandler 3 (Binary64.Dy 7 0))
              (-4) Scenario.top_draw initial) as (d & Hrun & _ & _ & Hle).
  - lia.
  - exists d. rewrite Hrun. split; [reflexivity | exact Hle].
Defined.

(** ** Page fetcher: one attempt, and what every run keeps *)

Section FetchAttempts.

Variable sc : BingSearchScraper.
Variable url : string.
Variable headers : list (string * string).

Local Abbreviation the_request := (mkRequest url headers (request_timeout sc)).

(** An attempt that is answered. *)
Lemma fetch_attempt_answered (attempt : Z) (w : World) (s : State)
    (resp : Response) :
  replies w (n_gets s) = Answers resp ->
  fetch_attempt sc url headers attempt w s
  = (Ok (Some resp),
     mkState (n_draws s) (S (n_gets s)) (trace s ++ [EGet the_request])).
Proof.
  intros Hr. unfold fetch_attempt, try_except, session_get, bind, ret.
  rewrite Hr. reflexivity.
Qed.

(** An attempt that fails with an exception the handler does not
    name. *)
Lemma fetch_attempt_other_exception (attempt : Z) (w : World) (s : State)
    (e : exn) :
  replies w (n_gets s) = Fails e -> is_network_failure e = false ->
  fetch_attempt sc url headers attempt w s
  = (Raise e,
     mkState (n_draws s) (S (n_gets s)) (trace s ++ [EGet the_request])).
Proof.
  intros Hr He. unfold fetch_attempt, try_except, session_get, bind, ret.
  rewrite Hr, He. reflexivity.
Qed.

(** The last attempt the ceiling allows, failing on the network. *)
Lemma fetch_attempt_gives_up (attempt : Z) (w : World) (s : State)
    (e : exn) :
  replies w (n_gets s) = Fails e -> is_network_failure e = true ->
  max_retries (softblock_handler sc) <= attempt ->
  fetch_attempt sc url headers attempt w s
  = (Raise e,
     mkState (n_draws s) (S (n_gets s))
       (trace s ++
        [EGet the_request;
         ELog WARNING "Network error on attempt %d fetching %s: %s"])).
Proof.
  intros Hr He Hm.
  unfold fetch_attempt, try_except, session_get, log, emit, bind, ret, raise.
  rewrite Hr, He. cbn [fst snd n_draws n_gets trace].
  destruct (Z.geb_spec attempt (max_retries (softblock_handler sc)));
    [|lia].
  rewrite <- app_assoc. reflexivity.
Qed.

(** An earlier attempt, failing on the network: the fetch backs off. *)
Lemma fetch_attempt_backs_off (attempt : Z) (w : World) (s : State)
    (e : exn) (base : Binary64.dy) :
  replies w (n_gets s) = Fails e -> is_network_failure e = true ->
  attempt < max_retries (softblock_handler sc) ->
  backoff_base (softblock_handler sc) attempt = Some base ->
  sleepable (Binary64.add base
               (Binary64.uniform_of_draw Binary64.zero Binary64.half
                  (draws w (n_draws s)))) = true ->
  fetch_attempt sc url headers attempt w s
  = (Ok None,
     mkState (S (n_draws s)) (S (n_gets s))
       (trace s ++
        [EGet the_request;
         ELog WARNING "Network error on attempt %d fetching %s: %s";
         EDraw DUniform (draws w (n_draws s));
         ESleep (Binary64.add base
                   (Binary64.uniform_of_draw Binary64.zero Binary64.half
                      (draws w (n_draws s))))])).
Proof.
  intros Hr He Hm Hb Hs.
  unfold fetch_attempt, try_except, session_get, log, emit, bind, ret, raise.
  rewrite Hr, He. cbn [fst snd n_draws n_gets trace].
  destruct (Z.geb_spec attempt (max_retries (softblock_handler sc)));
    [lia|].
  unfold compute_backoff, random_uniform, draw, emit, bind, ret.
  rewrite Hb. cbn [fst snd n_draws n_gets trace].
  rewrite (sleep_run _ w _ Hs).
  cbn [fst snd n_draws n_gets trace]. rewrite <- !app_assoc. reflexivity.
Qed.

(** An attempt sends its request, whatever comes of it, and asks for
    another attempt only below the ceiling. *)
Lemma fetch_attempt_gets (attempt : Z) (w : World) (s : State) :
  let r := fetch_attempt sc url headers attempt w s in
  n_gets (snd r) = S (n_gets s) /\
  (fst r = Ok None -> attempt < max_retries (softblock_handler sc)).
Proof.
  cbn zeta.
  unfold fetch_attempt, try_except, session_get, log, emit, bind, ret, raise.
  destruct (replies w (n_gets s)) as [resp|e];
    [cbn; split; [reflexivity | discriminate]|].
  destruct (is_network_failure e);
    [|cbn; split; [reflexivity | discriminate]].
  cbn [fst snd n_draws n_gets trace].
  destruct (Z.geb_spec attempt (max_retries (softblock_handler sc)));
    [cbn; split; [reflexivity | discriminate]|].
  unfold compute_backoff, random_uniform, draw, emit, bind, ret, raise.
  destruct (backoff_base (softblock_handler sc) attempt);
    [|cbn; split; [reflexivity | discriminate]].
  cbn [fst snd n_draws n_gets trace].
  match goal with
  | |- context [sleep ?d w ?s0] =>
      destruct (sleep_outcomes d w s0) as [-> | (e' & ->)]
  end; cbn; split; auto; discriminate.
Qed.

Lemma fetch_loop_returns_unblocked (fuel : nat) :
  forall (attempt : Z) (w : World) (s s' : State) (html : string),
  fetch_loop sc url headers fuel attempt w s = (Ok html, s') ->
  is_soft_blocked html = false.
Proof.
  induction fuel as [|fuel IH]; intros attempt w s s' html H;
    [discriminate|].
  cbn [fetch_loop] in H. unfold bind at 1 in H.
  destruct (fetch_attempt sc url headers (attempt + 1) w s)
    as [[[resp|]|e|] s1]; try discriminate.
  - destruct (is_soft_blocked (text resp)) eqn:Eb.
    + unfold bind at 1, log, emit in H. cbn [fst snd] in H.
      exact (handle_soft_block_returns_unblocked _ _ _ _ _ _ _ H).
    + destruct (negb (ok resp)); cbn in H; injection H as <- _; exact Eb.
  - exact (IH _ _ _ _ _ H).
Qed.

Lemma fetch_loop_gets (fuel : nat) :
  forall (attempt : Z) (w : World) (s : State),
  let s' := snd (fetch_loop sc url headers fuel attempt w s) in
  (n_gets s <= n_gets s'
   <= n_gets s
      + Z.to_nat (Z.max 1 (max_retries (softblock_handler sc) - attempt))
      + Z.to_nat (max_retries (softblock_handler sc)))%nat.
Proof.
  induction fuel as [|fuel IH]; intros attempt w s; cbn zeta; [cbn; lia|].
  remember (fetch_loop sc url headers (S fuel) attempt w s) as r eqn:Er.
  cbn [fetch_loop] in Er. unfold bind at 1 in Er.
  pose proof (fetch_attempt_gets (attempt + 1) w s) as [Hg Hnone].
  destruct (fetch_attempt sc url headers (attempt + 1) w s)
    as [[[resp|]|e|] s1]; cbn [fst snd] in Hg, Hnone.
  - destruct (is_soft_blocked (text resp)).
    + unfold bind at 1, log, emit in Er. cbn [fst snd] in Er. subst r.
      match goal with
      | |- context [handle_soft_block ?h0 ?u ?o ?w0 ?s0] =>
          pose proof (handle_soft_block_gets h0 u o w0 s0) as H2
      end.
      cbn zeta in H2. cbn [n_gets] in H2. lia.
    + subst r. destruct (negb (ok resp)); cbn; lia.
  - subst r. specialize (Hnone eq_refl).
    pose proof (IH (attempt + 1) w s1) as H2. cbn zeta in H2. lia.
  - subst r. cbn [snd]. lia.
  - subst r. cbn [snd]. lia.
Qed.

(** On a network that only fails, the loop sends one request for each
    attempt up to the ceiling and raises what the last one met. *)
Lemma fetch_loop_failures (k : nat) :
  forall (fuel : nat) (attempt : Z) (w : World) (s : State),
  Z.to_nat (max_retries (softblock_handler sc) - attempt - 1) = k ->
  (k < fuel)%nat ->
  all_network_failures w (n_gets s) (S k) ->
  fetch_ready (softblock_handler sc) w (n_draws s) attempt k ->
  exists e s',
    fetch_loop sc url headers fuel attempt w s = (Raise e, s') /\
    replies w (n_gets s + k) = Fails e /\
    n_gets s' = (n_gets s + S k)%nat /\
    n_draws s' = (n_draws s + k)%nat.
Proof.
  induction k as [|k IH]; intros fuel attempt w s Hk Hfuel Hall Hrdy;
    (destruct fuel as [|fuel]; [lia|]);
    cbn [fetch_loop]; unfold bind at 1;
    destruct (Hall 0%nat ltac:(lia)) as (e & Hr & He);
    rewrite Nat.add_0_r in Hr.
  - rewrite (fetch_attempt_gives_up _ _ _ _ Hr He) by lia.
    exists e. eexists. rewrite Nat.add_0_r.
    split; [reflexivity|]. split; [exact Hr|]. cbn. lia.
  - destruct (Hrdy 0%nat ltac:(lia)) as (base & Hb & Hs).
    change (Z.of_nat 0) with 0 in Hb. rewrite Z.add_0_r in Hb.
    rewrite Nat.add_0_r in Hs.
    assert (Hlt : attempt + 1 < max_retries (softblock_handler sc)) by lia.
    rewrite (fetch_attempt_backs_off _ _ _ _ _ Hr He Hlt Hb Hs).
    match goal with
    | |- context [fetch_loop sc url headers fuel (attempt + 1) w ?s0] =>
        destruct (IH fuel (attempt + 1) w s0) as (e' & s' & Hrun & Hl & Hg & Hd)
    end.
    + lia.
    + lia.
    + intros i Hi. cbn [n_gets].
      replace (S (n_gets s) + i)%nat with (n_gets s + S i)%nat by lia.
      apply Hall. lia.
    + intros i Hi. cbn [n_draws].
      replace (attempt + 1 + 1 + Z.of_nat i) with (attempt + 1 + Z.of_nat (S i))
        by lia.
      replace (S (n_draws s) + i)%nat with (n_draws s + S i)%nat by lia.
      apply Hrdy. lia.
    + exists e', s'. cbn [n_gets n_draws] in Hl, Hg, Hd.
      split; [exact Hrun|]. split; [|lia].
      rewrite <- Hl. f_equal. lia.
Qed.

End FetchAttempts.

(** [_fetch_page] up to its loop. *)
Lemma fetch_page_run
    (sc : BingSearchScraper) (url : string) (w : World) (s : State) :
  _fetch_page sc url w s
  = fetch_loop sc url [("User-Agent", drawn_agent (draws w (n_draws s)))]
      (fetch_fuel sc) 0 w
      (mkState (S (n_draws s)) (n_gets s)
         (trace s ++ [EDraw DChoice (draws w (n_draws s));
                      ELog DEBUG "Requesting Bing SERP: %s"])).
Proof.
  unfold _fetch_page, random_choice, draw, log, emit, bind at 1 2 3, ret.
  cbn [fst snd n_draws n_gets trace]. rewrite <- app_assoc. reflexivity.
Qed.

(** X6. Whatever the network answers, markup that [_fetch_page] returns
    is markup the detector does not flag: a blocked page never reaches
    the extractor. *)
Theorem fetched_markup_is_unblocked
    (sc : BingSearchScraper) (url : string) (w : World) (s s' : State)
    (html : string) :
  _fetch_page sc url w s = (Ok html, s') ->
  is_soft_blocked html = false.
Proof. rewrite fetch_page_run. apply fetch_loop_returns_unblocked. Qed.

Lemma fetched_markup_is_unblocked_witness :
  is_soft_blocked Scenario.plain_body = false.
Proof.
  eapply (fetched_markup_is_unblocked default_scraper Scenario.url
            Scenario.timeout_then_blocked initial).
  vm_compute. reflexivity.
Defined.

(** X7. In every world a fetch sends at least one request and at most
    [max(1, max_retries) + max(0, max_retries)]: the attempts of its own
    loop, and the retries of the block recovery it may hand over to. *)
Theorem fetch_requests_bounded
    (sc : BingSearchScraper) (url : string) (w : World) (s : State) :
  let s' := snd (_fetch_page sc url w s) in
  (S (n_gets s) <= n_gets s'
   <= n_gets s + fetch_attempts sc
      + Z.to_nat (max_retries (softblock_handler sc)))%nat.
Proof.
  cbn zeta. rewrite fetch_page_run.
  match goal with
  | |- context [fetch_loop sc url ?hd ?f ?a w ?s0] =>
      pose proof (fetch_loop_gets sc url hd f a w s0) as H;
      remember (fetch_loop sc url hd f a w s0) as r eqn:Er
  end.
  cbn zeta in H. cbn [n_gets] in H. rewrite Z.sub_0_r in H.
  unfold fetch_attempts. split; [|lia].
  unfold fetch_fuel in Er. cbn [fetch_loop] in Er. unfold bind at 1 in Er.
  match type of Er with
  | context [fetch_attempt sc url ?hd ?a w ?s0] =>
      pose proof (fetch_attempt_gets sc url hd a w s0) as [Hg _];
      destruct (fetch_attempt sc url hd a w s0) as [[[resp|]|e|] s1]
  end; cbn [fst snd n_gets] in Hg.
  - destruct (is_soft_blocked (text resp)).
    + unfold bind at 1, log, emit in Er. cbn [fst snd] in Er. subst r.
      match goal with
      | |- context [handle_soft_block ?h0 ?u ?o ?w0 ?s0] =>
          pose proof (handle_soft_block_gets h0 u o w0 s0) as H2
      end.
      cbn zeta in H2. cbn [n_gets] in H2. lia.
    + subst r. destruct (negb (ok resp)); cbn; lia.
  - subst r.
    match goal with
    | |- context [fetch_loop sc url ?hd ?f ?a w ?s0] =>
        pose proof (fetch_loop_gets sc url hd f a w s0) as H2
    end.
    cbn zeta in H2. lia.
  - subst r. cbn [snd]. lia.
  - subst r. cbn [snd]. lia.
Qed.

(** X8. When every attempt up to the retry ceiling meets a timeout or a
    connection failure (the delays between the attempts being such as
    can be computed and slept), [_fetch_page] sends
    [max(1, max_retries)] requests, one even for a ceiling of zero, and
    raises the failure the last of them met. *)
Theorem fetch_gives_up_at_ceiling
    (sc : BingSearchScraper) (url : string) (w : World) (s : State) :
  all_network_failures w (n_gets s) (fetch_attempts sc) ->
  fetch_ready (softblock_handler sc) w (S (n_draws s)) 0
    (fetch_attempts sc - 1) ->
  exists e s',
    _fetch_page sc url w s = (Raise e, s') /\
    replies w (n_gets s + (fetch_attempts sc - 1)) = Fails e /\
    n_gets s' = (n_gets s + fetch_attempts sc)%nat /\
    n_draws s' = (n_draws s + fetch_attempts sc)%nat.
Proof.
  intros Hall Hrdy. rewrite fetch_page_run.
  assert (Hk : fetch_attempts sc
               = S (Z.to_nat (max_retries (softblock_handler sc) - 0 - 1)))
    by (unfold fetch_attempts; lia).
  rewrite Hk in Hall, Hrdy |- *.
  replace (S (Z.to_nat (max_retries (softblock_handler sc) - 0 - 1)) - 1)%nat
    with (Z.to_nat (max_retries (softblock_handler sc) - 0 - 1))
    in Hrdy |- * by lia.
  match goal with
  | |- context [fetch_loop sc url ?hd ?f ?a w ?s0] =>
      destruct (fetch_loop_failures sc url hd
                  (Z.to_nat (max_retries (softblock_handler sc) - 0 - 1))
                  f a w s0)
        as (e & s' & Hrun & Hl & Hg & Hd)
  end.
  - reflexivity.
  - unfold fetch_fuel. lia.
  - exact Hall.
  - exact Hrdy.
  - exists e, s'. cbn [n_gets n_draws] in Hl, Hg, Hd.
    split; [exact Hrun|]. split; [exact Hl|]. lia.
Qed.

Lemma fetch_gives_up_at_ceiling_witness :
  exists s',
    _fetch_page default_scraper Scenario.url Scenario.always_timeout initial
    = (Raise Timeout, s') /\
    n_gets s' = 3%nat.
Proof.
  destruct (fetch_gives_up_at_ceiling default_scraper Scenario.url
              Scenario.always_timeout initial)
    as (e & s' & Hrun & Hl & Hg & _).
  - intros i _. exists Timeout. split; reflexivity.
  - intros i Hi. change (fetch_attempts default_scraper - 1)%nat with 2%nat in Hi.
    destruct i as [|[|i]]; [| |lia];
      (eexists; split; [vm_compute; reflexivity | vm_compute; reflexivity]).
  - exists s'. injection Hl as <-. split; [exact Hrun | exact Hg].
Defined.

Example fetch_with_no_retries_sends_once :
  exists s',
    _fetch_page
      (mkScraper "en-US" "en" 10 false
         (mkHandler 0 Binary64.three_halves) 10 None)
      Scenario.url Scenario.always_timeout initial
    = (Raise Timeout, s') /\
    n_gets s' = 1%nat /\ n_draws s' = 1%nat.
Proof. eexists. vm_compute. repeat split; reflexivity. Qed.

(** X9. A response whose body is not blocked is returned as the page's
    markup whatever its status: after the one request, a status that
    [requests] counts as an error (400 to 599) costs a warning in the
    log, and nothing is raised or retried. *)
Theorem fetch_returns_body_whatever_status
    (sc : BingSearchScraper) (url : string) (w : World) (s : State)
    (resp : Response) :
  replies w (n_gets s) = Answers resp ->
  is_soft_blocked (text resp) = false ->
  _fetch_page sc url w s
  = (Ok (text resp),
     mkState (S (n_draws s)) (S (n_gets s))
       (trace s
        ++ [ EDraw DChoice (draws w (n_draws s));
             ELog DEBUG "Requesting Bing SERP: %s";
             EGet (mkRequest url
                     [("User-Agent", drawn_agent (draws w (n_draws s)))]
                     (request_timeout sc)) ]
        ++ if ok resp then []
           else [ELog WARNING "Unexpected HTTP status %s for url %s"])).
Proof.
  intros Hr Hu. rewrite fetch_page_run. unfold fetch_fuel.
  cbn [fetch_loop]. unfold bind at 1.
  rewrite (fetch_attempt_answered _ _ _ _ _ _ resp) by exact Hr.
  rewrite Hu. unfold bind, log, emit, ret.
  destruct (ok resp); cbn [negb fst snd n_draws n_gets trace];
    rewrite <- !app_assoc; reflexivity.
Qed.

Lemma fetch_returns_body_whatever_status_witness :
  exists s',
    _fetch_page default_scraper Scenario.url Cases.server_error initial
    = (Ok Scenario.plain_body, s') /\
    n_gets s' = 1%nat /\
    last (trace s') (ELog DEBUG "")
    = ELog WARNING "Unexpected HTTP status %s for url %s".
Proof.
  eexists.
  rewrite (fetch_returns_body_whatever_status default_scraper Scenario.url
             Cases.server_error initial
             (mkResponse Scenario.plain_body 503) eq_refl eq_refl).
  split; [reflexivity|]. split; reflexivity.
Defined.

(** X10. An exception of [session.get] that is neither a timeout nor a
    connection failure leaves [_fetch_page] at once: one request sent,
    no retry, no backoff, nothing logged about it. *)
Theorem fetch_lets_other_exceptions_through
    (sc : BingSearchScraper) (url : string) (w : World) (s : State)
    (e : exn) :
  replies w (n_gets s) = Fails e ->
  is_network_failure e = false ->
  _fetch_page sc url w s
  = (Raise e,
     mkState (S (n_draws s)) (S (n_gets s))
       (trace s
        ++ [ EDraw DChoice (draws w (n_draws s));
             ELog DEBUG "Requesting Bing SERP: %s";
             EGet (mkRequest url
                     [("User-Agent", drawn_agent (draws w (n_draws s)))]
                     (request_timeout sc)) ])).
Proof.
  intros Hr He. rewrite fetch_page_run. unfold fetch_fuel.
  cbn [fetch_loop]. unfold bind at 1.
  rewrite (fetch_attempt_other_exception _ _ _ _ _ _ e) by auto.
  cbn [n_draws n_gets trace]. rewrite <- !app_assoc. reflexivity.
Qed.

Lemma fetch_lets_other_exceptions_through_witness :
  fst (_fetch_page default_scraper Scenario.url Cases.redirect_loop initial)
  = Raise (OtherError "TooManyRedirects").
Proof.
  rewrite (fetch_lets_other_exceptions_through default_scraper Scenario.url
             Cases.redirect_loop initial (OtherError "TooManyRedirects")
             eq_refl eq_refl).
  reflexivity.
Defined.

(** ** Target locator: different queries, different locators *)

Section LocatorInjective.

Lemma read_quoted_byte (c : ascii) (r : string) :
  read_byte (Url.quote_plus_char c ++ r) = Some (c, r).
Proof.
  destruct c as [[] [] [] [] [] [] [] []]; reflexivity.
Qed.

Lemma quote_plus_char_starts (c : ascii) (r : string) :
  exists d t, Url.quote_plus_char c ++ r = String d t.
Proof.
  unfold Url.quote_plus_char.
  destruct (Ascii.eqb c " "); [|destruct (Url.always_safe c)];
    cbn; eexists; eexists; reflexivity.
Qed.

(** The encoding loses nothing: two values with one encoding are the
    same value. *)
Lemma quote_plus_inj (a b : string) :
  Url.quote_plus a = Url.quote_plus b -> a = b.
Proof.
  revert b; induction a as [|c a IH]; intros [|d b] H.
  - reflexivity.
  - cbn [Url.quote_plus] in H.
    destruct (quote_plus_char_starts d (Url.quote_plus b)) as (x & t & E).
    rewrite E in H. discriminate.
  - cbn [Url.quote_plus] in H.
    destruct (quote_plus_char_starts c (Url.quote_plus a)) as (x & t & E).
    rewrite E in H. discriminate.
  - cbn [Url.quote_plus] in H. apply (f_equal read_byte) in H.
    rewrite !read_quoted_byte in H. injection H as -> H.
    rewrite (IH _ H). reflexivity.
Qed.

Lemma of_int_inj (m n : Z) : PyStr.of_int m = PyStr.of_int n -> m = n.
Proof.
  unfold PyStr.of_int. intros H.
  assert (Hnil : forall z, Z.to_int z <> Decimal.Pos Decimal.Nil /\
                           Z.to_int z <> Decimal.Neg Decimal.Nil).
  { intros [|p|p]; cbn; split; try discriminate;
      intros E; injection E as E;
      exact (DecimalPos.Unsigned.to_uint_nonnil p E). }
  apply (f_equal NilZero.int_of_string) in H.
  rewrite !NilZero.isi in H by apply Hnil.
  injection H as H. exact (DecimalZ.to_int_inj _ _ H).
Qed.

Lemma app_cancel_l (a x y : string) : a ++ x = a ++ y -> x = y.
Proof.
  induction a as [|c a IH]; cbn; intros H; [exact H|].
  injection H as H. exact (IH H).
Qed.

(** A string of query characters ends where the first [&] stands. *)
Lemma split_at_ampersand (a b r t : string) :
  Url.all_chars Url.query_char a = true ->
  Url.all_chars Url.query_char b = true ->
  a ++ String "&" r = b ++ String "&" t ->
  a = b /\ r = t.
Proof.
  revert b; induction a as [|c a IH]; intros [|d b] Ha Hb H; cbn in H.
  - injection H as ->. auto.
  - injection H as <- _. cbn in Hb. discriminate.
  - injection H as -> _. cbn in Ha. discriminate.
  - injection H as -> H. cbn [Url.all_chars] in Ha, Hb.
    apply andb_prop in Ha. apply andb_prop in Hb.
    destruct (IH b (proj2 Ha) (proj2 Hb) H) as [-> ->]. auto.
Qed.

Lemma all_chars_weaken (p q : ascii -> bool) (s : string) :
  (forall c, p c = true -> q c = true) ->
  Url.all_chars p s = true -> Url.all_chars q s = true.
Proof.
  intros Hpq. induction s as [|c s IH]; cbn; [reflexivity|].
  intros H. apply andb_prop in H. destruct H as [Hc Hs].
  rewrite (Hpq c Hc), (IH Hs). reflexivity.
Qed.

Lemma of_int_query (n : Z) :
  Url.all_chars Url.query_char (PyStr.of_int n) = true.
Proof.
  apply (all_chars_weaken Url.always_safe); [|apply of_int_safe].
  intros c Hc. unfold Url.query_char. rewrite Hc. reflexivity.
Qed.

(** The locator, part by part. *)
Lemma build_search_url_parts (term : string) (page rp : Z)
    (mkt lang : string) :
  _build_search_url term page rp mkt lang
  = BASE_URL ++ "?q="
    ++ Url.quote_plus term ++ "&mkt="
    ++ Url.quote_plus mkt ++ "&setLang="
    ++ Url.quote_plus lang ++ "&count="
    ++ PyStr.of_int rp ++ "&first="
    ++ PyStr.of_int ((page - 1) * rp + 1).
Proof.
  unfold _build_search_url, Url.urlencode.
  cbn [map fst snd PyStr.join Url.to_str].
  change (Url.quote_plus "q") with "q".
  change (Url.quote_plus "mkt") with "mkt".
  change (Url.quote_plus "setLang") with "setLang".
  change (Url.quote_plus "count") with "count".
  change (Url.quote_plus "first") with "first".
  rewrite !(quote_plus_safe (PyStr.of_int _)) by apply of_int_safe.
  rewrite !str_app_assoc. reflexivity.
Qed.

End LocatorInjective.

(** X11. The locator tells its query: two calls of [_build_search_url]
    that give the same locator were given the same term, market,
    language and page size, and, the page size not being zero, the same
    page.  No term can pass for another, nor run into the parameters
    that follow it. *)
Theorem build_search_url_injective
    (term term' : string) (page page' rp rp' : Z)
    (mkt mkt' lang lang' : string) :
  _build_search_url term page rp mkt lang
  = _build_search_url term' page' rp' mkt' lang' ->
  term = term' /\ mkt = mkt' /\ lang = lang' /\ rp = rp' /\
  (rp <> 0 -> page = page').
Proof.
  rewrite !build_search_url_parts. intros H.
  apply app_cancel_l in H. cbn [append] in H. injection H as H.
  apply split_at_ampersand in H; try apply quote_plus_query.
  destruct H as [Ht H]. injection H as H.
  apply split_at_ampersand in H; try apply quote_plus_query.
  destruct H as [Hm H]. injection H as H.
  apply split_at_ampersand in H; try apply quote_plus_query.
  destruct H as [Hl H]. injection H as H.
  apply split_at_ampersand in H; try apply of_int_query.
  destruct H as [Hr H]. injection H as H.
  apply quote_plus_inj in Ht, Hm, Hl. apply of_int_inj in Hr, H.
  subst. repeat split. intros Hnz. nia.
Qed.

Lemma build_search_url_injective_witness :
  "rocq" = "rocq" /\ (10 <> 0 -> 1 + 1 = 2).
Proof.
  destruct (build_search_url_injective "rocq" "rocq" (1 + 1) 2 10 10
              "en-US" "en-US" "en" "en" eq_refl)
    as (Ht & _ & _ & _ & Hp).
  split; [exact Ht | exact Hp].
Defined.


(** ** Record extractor: what every item keeps *)

Section ItemInvariants.

Context {node : Type} {api : Soup node}.

Lemma NoDup_snoc {A} (l : list A) (x : A) :
  NoDup l -> ~ In x l -> NoDup (l ++ [x]).
Proof.
  induction l as [|a l IH]; intros Hl Hx; cbn.
  - constructor; [intros [] | constructor].
  - inversion Hl as [|? ? Ha Hl']; subst. constructor.
    + rewrite in_app_iff. intros [H | [-> | []]]; [auto|].
      apply Hx. left. reflexivity.
    + apply IH; [exact Hl'|]. intros H. apply Hx. right. exact H.
Qed.

Lemma is_empty_false (s : string) : is_empty s = false -> s <> "".
Proof. destruct s; [discriminate|]. intros _. discriminate. Qed.

Lemma not_seen_ignoring_case (kw : string) (keywords : list string) :
  seen_ignoring_case kw keywords = false ->
  ~ In (PyStr.lower kw) (map PyStr.lower keywords).
Proof.
  unfold seen_ignoring_case. intros H Hin.
  assert (E : existsb (String.eqb (PyStr.lower kw))
                (map PyStr.lower keywords) = true).
  { apply existsb_exists. exists (PyStr.lower kw).
    split; [exact Hin | apply String.eqb_refl]. }
  congruence.
Qed.

Lemma keywords_loop_distinct (strongs : list node) :
  forall emphasized w s out s',
  keywords_loop strongs emphasized w s = (Ok out, s') ->
  distinct_keywords emphasized -> distinct_keywords out.
Proof.
  induction strongs as [|x rest IH]; intros emphasized w s out s' H Hd;
    cbn [keywords_loop] in H.
  - apply ret_Ok in H. destruct H as [<- _]. exact Hd.
  - apply bind_Ok in H. destruct H as (kw & s1 & _ & H).
    destruct (is_empty kw) eqn:Ek; cbn [negb andb] in H;
      [exact (IH _ _ _ _ _ H Hd)|].
    destruct (seen_ignoring_case kw emphasized) eqn:Es; cbn [negb] in H;
      [exact (IH _ _ _ _ _ H Hd)|].
    apply (IH _ _ _ _ _ H). destruct Hd as [Hn Hf]. split.
    + rewrite map_app. cbn [map].
      apply NoDup_snoc; [exact Hn | apply not_seen_ignoring_case, Es].
    + apply Forall_app. split; [exact Hf|].
      constructor; [apply is_empty_false, Ek | constructor].
Qed.

Lemma heading_link_address (li link : node) (url : string) :
  heading_link li = Returns (Some (link, url)) -> url <> "".
Proof.
  unfold heading_link.
  destruct (find li "h2") as [[title_el|]|]; try discriminate.
  destruct (find title_el "a") as [[a|]|]; try discriminate.
  destruct (get a "href") as [[u|]|]; try discriminate.
  destruct (is_empty u) eqn:E; [discriminate|].
  intros H. injection H as _ <-. apply is_empty_false, E.
Qed.

(** What [build] gives every item it makes, the loop gives every item
    it appends. *)
Lemma listing_loop_Forall {I : Type}
    (build : node -> node -> string -> Z -> M I) (Q : I -> Prop) :
  (forall li link url p w s item s',
     url <> "" -> build li link url p w s = (Ok item, s') -> Q item) ->
  forall listings position items w s out s',
  listing_loop build listings position items w s = (Ok out, s') ->
  Forall Q items -> Forall Q out.
Proof.
  intros Hbuild.
  induction listings as [|li rest IH]; intros position items w s out s' H Hq;
    cbn [listing_loop] in H.
  - apply ret_Ok in H. destruct H as [<- _]. exact Hq.
  - apply bind_Ok in H. destruct H as (passed & s1 & Hc & H).
    apply call_Ok in Hc. destruct Hc as [Hl ->].
    destruct passed as [[link url]|]; [|exact (IH _ _ _ _ _ _ H Hq)].
    apply bind_Ok in H. destruct H as (item & s2 & Hi & H).
    apply (IH _ _ _ _ _ _ H). apply Forall_app. split; [exact Hq|].
    constructor; [|constructor].
    exact (Hbuild _ _ _ _ _ _ _ _ (heading_link_address _ _ _ Hl) Hi).
Qed.

Lemma listing_loop_length {I : Type}
    (build : node -> node -> string -> Z -> M I) :
  forall listings position items w s out s',
  listing_loop build listings position items w s = (Ok out, s') ->
  (length out <= length items + length listings)%nat.
Proof.
  induction listings as [|li rest IH]; intros position items w s out s' H;
    cbn [listing_loop] in H.
  - apply ret_Ok in H. destruct H as [<- _]. cbn. lia.
  - apply bind_Ok in H. destruct H as (passed & s1 & _ & H).
    destruct passed as [[link url]|].
    + apply bind_Ok in H. destruct H as (item & s2 & _ & H).
      apply IH in H. rewrite length_app in H. cbn in H |- *. lia.
    + apply IH in H. cbn. lia.
Qed.

Lemma paa_loop_items (blocks : list node) :
  forall items w s out s',
  paa_loop blocks items w s = (Ok out, s') ->
  Forall (fun it => qa_question it <> "" /\ qa_answer it <> Some "") items ->
  Forall (fun it => qa_question it <> "" /\ qa_answer it <> Some "") out /\
  (length out <= length items + length blocks)%nat.
Proof.
  induction blocks as [|b rest IH]; intros items w s out s' H Hq;
    cbn [paa_loop] in H.
  - apply ret_Ok in H. destruct H as [<- _]. split; [exact Hq | cbn; lia].
  - apply bind_Ok in H. destruct H as (question_el & s1 & _ & H).
    apply bind_Ok in H. destruct H as ([[q a] u] & s2 & _ & H).
    destruct (is_empty q) eqn:Eq; cbn [negb] in H.
    + destruct (IH _ _ _ _ _ H Hq) as [Hf Hl]. split; [exact Hf|]. cbn. lia.
    + destruct (IH _ _ _ _ _ H) as [Hf Hl].
      * apply Forall_app. split; [exact Hq|].
        constructor; [|constructor]. cbn. split.
        -- apply is_empty_false, Eq.
        -- unfold or_none. destruct a; cbn; discriminate.
      * split; [exact Hf|]. rewrite length_app in Hl. cbn in Hl |- *. lia.
Qed.

Lemma related_loop_items (lis : list node) :
  forall items w s out s',
  related_loop lis items w s = (Ok out, s') ->
  Forall (fun it => rel_title it <> "") items ->
  Forall (fun it => rel_title it <> "") out /\
  (length out <= length items + length lis)%nat.
Proof.
  induction lis as [|li rest IH]; intros items w s out s' H Hq;
    cbn [related_loop] in H.
  - apply ret_Ok in H. destruct H as [<- _]. split; [exact Hq | cbn; lia].
  - apply bind_Ok in H. destruct H as (link & s1 & _ & H).
    destruct link as [a|].
    + apply bind_Ok in H. destruct H as (title & s2 & _ & H).
      apply bind_Ok in H. destruct H as (u & s3 & _ & H).
      destruct (is_empty title) eqn:Et; cbn [negb] in H.
      * destruct (IH _ _ _ _ _ H Hq) as [Hf Hl].
        split; [exact Hf|]. cbn. lia.
      * destruct (IH _ _ _ _ _ H) as [Hf Hl].
        -- apply Forall_app. split; [exact Hq|].
           constructor; [|constructor]. cbn. apply is_empty_false, Et.
        -- split; [exact Hf|]. rewrite length_app in Hl. cbn in Hl |- *. lia.
    + destruct (IH _ _ _ _ _ H Hq) as [Hf Hl]. split; [exact Hf|]. cbn. lia.
Qed.

End ItemInvariants.

(** X12. The emphasized keywords of an organic item are not empty and
    pairwise different even when the case of the letters A to Z is set
    aside: a keyword that was seen before in another case is not listed
    again. *)
Theorem organic_keywords_are_distinct
    (node : Type) (api : Soup node) (soup : node) (w : World) (s s' : State)
    (items : list OrganicItem) :
  _extract_organic_results soup w s = (Ok items, s') ->
  Forall (fun it => distinct_keywords (org_emphasizedKeywords it)) items.
Proof.
  unfold _extract_organic_results. intros H.
  apply bind_Ok in H. destruct H as (listings & s1 & _ & H).
  apply (listing_loop_Forall organic_item
           (fun it => distinct_keywords (org_emphasizedKeywords it)))
    in H; [exact H | | constructor].
  clear. intros li link url p w s item s' _ H.
  unfold organic_item in H.
  apply bind_Ok in H. destruct H as (title & s1 & _ & H).
  apply bind_Ok in H. destruct H as (desc_el & s2 & _ & H).
  apply bind_Ok in H. destruct H as (description & s3 & _ & H).
  apply bind_Ok in H. destruct H as (cite & s4 & _ & H).
  apply bind_Ok in H. destruct H as (displayed & s5 & _ & H).
  apply bind_Ok in H. destruct H as (icon_el & s6 & _ & H).
  apply bind_Ok in H. destruct H as (icon & s7 & _ & H).
  apply bind_Ok in H. destruct H as (strongs & s8 & _ & H).
  apply bind_Ok in H. destruct H as (kws & s9 & Hk & H).
  apply ret_Ok in H. destruct H as [<- _]. cbn [org_emphasizedKeywords].
  apply (keywords_loop_distinct _ _ _ _ _ _ Hk).
  split; constructor.
Qed.

Lemma organic_keywords_are_distinct_witness :
  exists items,
    fst (@_extract_organic_results _ (DomSoup Scenario.parser)
           (Dom.document [Scenario.serp]) Scenario.always_serp initial)
    = Ok items /\
    map org_emphasizedKeywords items = [["Domain"]; ["Rocq"]] /\
    Forall (fun it => distinct_keywords (org_emphasizedKeywords it)) items.
Proof.
  eexists. split; [vm_compute; reflexivity|]. split; [reflexivity|].
  eapply (organic_keywords_are_distinct _ (DomSoup Scenario.parser)
            (Dom.document [Scenario.serp]) Scenario.always_serp initial).
  vm_compute. reflexivity.
Defined.

(** X13. Every organic item and every paid item carries an address that
    is not empty and the type of its list, and a list has no more items
    than the document has listings of its kind. *)
Theorem listed_items_have_addresses
    (node : Type) (api : Soup node) (soup : node) (w : World) (s : State) :
  (forall items s',
     _extract_organic_results soup w s = (Ok items, s') ->
     Forall (fun it => org_url it <> "" /\ org_type it = "organic") items /\
     exists listings,
       select soup "#b_results li.b_algo" = Returns listings /\
       (length items <= length listings)%nat)
  /\
  (forall items s',
     _extract_paid_results soup w s = (Ok items, s') ->
     Forall (fun it => ad_url it <> "" /\ ad_type it = "ad") items /\
     exists listings,
       select soup "#b_results li.b_ad, #b_results li.b_adresult"
         = Returns listings /\
       (length items <= length listings)%nat).
Proof.
  split; intros items s' H.
  - unfold _extract_organic_results in H.
    apply bind_Ok in H. destruct H as (listings & s1 & Hc & H).
    apply call_Ok in Hc. destruct Hc as [Hsel _]. split.
    + apply (listing_loop_Forall organic_item
               (fun it => org_url it <> "" /\ org_type it = "organic"))
        in H; [exact H | | constructor].
      clear. intros li link url p w s item s' Hu H.
      unfold organic_item in H. inv_binds. cbn. auto.
    + exists listings. split; [exact Hsel|].
      apply listing_loop_length in H. cbn in H. exact H.
  - unfold _extract_paid_results in H.
    apply bind_Ok in H. destruct H as (listings & s1 & Hc & H).
    apply call_Ok in Hc. destruct Hc as [Hsel _]. split.
    + apply (listing_loop_Forall paid_item
               (fun it => ad_url it <> "" /\ ad_type it = "ad"))
        in H; [exact H | | constructor].
      clear. intros li link url p w s item s' Hu H.
      unfold paid_item in H. inv_binds. cbn. auto.
    + exists listings. split; [exact Hsel|].
      apply listing_loop_length in H. cbn in H. exact H.
Qed.

Lemma listed_items_have_addresses_witness :
  exists items,
    fst (@_extract_organic_results _ (DomSoup Scenario.parser)
           (Dom.document [Scenario.serp]) Scenario.always_serp initial)
    = Ok items /\
    map org_url items = ["https://example.com"; "https://rocq-prover.org"] /\
    Forall (fun it => org_url it <> "" /\ org_type it = "organic") items.
Proof.
  eexists. split; [vm_compute; reflexivity|]. split; [reflexivity|].
  eapply (proj1 (proj1 (listed_items_have_addresses _
                          (DomSoup Scenario.parser)
                          (Dom.document [Scenario.serp])
                          Scenario.always_serp initial) _ _ _)).
  Unshelve. 2: vm_compute; reflexivity.
Defined.

(** X14. Every question/answer item has a question that is not empty,
    and an answer that is absent or not empty, never the empty string;
    a block without question text gives no item. *)
Theorem questions_are_never_empty
    (node : Type) (api : Soup node) (soup : node) (w : World) (s s' : State)
    (items : list QAItem) :
  _extract_people_also_ask soup w s = (Ok items, s') ->
  Forall (fun it => qa_question it <> "" /\ qa_answer it <> Some "") items /\
  exists blocks,
    select soup "#b_context .b_expando" = Returns blocks /\
    (length items <= length blocks)%nat.
Proof.
  unfold _extract_people_also_ask. intros H.
  apply bind_Ok in H. destruct H as (blocks & s1 & Hc & H).
  apply call_Ok in Hc. destruct Hc as [Hsel _].
  destruct (paa_loop_items _ _ _ _ _ _ H (Forall_nil _)) as [Hf Hl].
  split; [exact Hf|]. exists blocks. split; [exact Hsel | exact Hl].
Qed.

Lemma questions_are_never_empty_witness :
  exists items,
    fst (@_extract_people_also_ask _ (DomSoup Scenario.parser)
           (Dom.document [Scenario.serp]) Scenario.always_serp initial)
    = Ok items /\
    Forall (fun it => qa_question it <> "" /\ qa_answer it <> Some "") items.
Proof.
  eexists. split; [vm_compute; reflexivity|].
  eapply (questions_are_never_empty _ (DomSoup Scenario.parser)
            (Dom.document [Scenario.serp]) Scenario.always_serp initial).
  vm_compute. reflexivity.
Defined.

(** X15. Every related query has a title that is not empty (a link
    without visible text gives no item); and when the document has no
    related-searches region the list is empty and nothing else is asked
    of the document. *)
Theorem related_titles_are_never_empty
    (node : Type) (api : Soup node) (soup : node) (w : World) (s : State) :
  (forall items s',
     _extract_related_queries soup w s = (Ok items, s') ->
     Forall (fun it => rel_title it <> "") items)
  /\
  (select soup "#b_context .b_rs, #b_context .b_rs ul li" = Returns [] ->
   _extract_related_queries soup w s = (Ok [], s)).
Proof.
  split.
  - intros items s' H. unfold _extract_related_queries in H.
    apply bind_Ok in H. destruct H as (section & s1 & _ & H).
    destruct section as [|first rest].
    + apply ret_Ok in H. destruct H as [<- _]. constructor.
    + apply bind_Ok in H. destruct H as (classes & s2 & _ & H).
      apply bind_Ok in H. destruct H as (lis & s3 & _ & H).
      exact (proj1 (related_loop_items _ _ _ _ _ _ H (Forall_nil _))).
  - intros Hsel. unfold _extract_related_queries, bind, call, ret.
    rewrite Hsel. reflexivity.
Qed.

Lemma related_titles_are_never_empty_witness :
  @_extract_related_queries _ (DomSoup Scenario.parser) (Dom.document [])
    Scenario.always_serp initial
  = (Ok [], initial).
Proof.
  apply (proj2 (related_titles_are_never_empty _ (DomSoup Scenario.parser)
                  (Dom.document []) Scenario.always_serp initial)).
  reflexivity.
Defined.

(** ** Record extractor: what it leaves alone *)

Section QuietExtraction.

Context {node : Type} {api : Soup node}.

Lemma quiet_ret {A} (a : A) : quiet (ret a).
Proof. intros w s. reflexivity. Qed.

Lemma quiet_call {A} (r : result A) : quiet (call r).
Proof. intros w s. reflexivity. Qed.

Lemma quiet_bind {A B} (c : M A) (k : A -> M B) :
  quiet c -> (forall a, quiet (k a)) -> quiet (bind c k).
Proof.
  intros Hc Hk w s. unfold bind. specialize (Hc w s).
  destruct (c w s) as [[a|e|] s1]; cbn [snd] in Hc |- *; subst s1;
    [apply Hk | reflexivity | reflexivity].
Qed.

Ltac quietly :=
  repeat first
    [ apply quiet_ret
    | apply quiet_call
    | apply quiet_bind; [|intros]
    | match goal with
      | |- quiet (match ?x with _ => _ end) => destruct x
      | |- quiet (if ?x then _ else _) => destruct x
      end ].

Lemma quiet_keywords_loop (strongs : list node) :
  forall acc, quiet (keywords_loop strongs acc).
Proof.
  induction strongs as [|x rest IH]; intros acc; cbn [keywords_loop];
    [apply quiet_ret|].
  apply quiet_bind; [apply quiet_call|].
  intros kw. destruct (negb (is_empty kw) && _); apply IH.
Qed.

Lemma quiet_listing_loop {I : Type}
    (build : node -> node -> string -> Z -> M I) :
  (forall li link url p, quiet (build li link url p)) ->
  forall listings position items,
    quiet (listing_loop build listings position items).
Proof.
  intros Hb. induction listings as [|li rest IH]; intros position items;
    cbn [listing_loop]; [apply quiet_ret|].
  apply quiet_bind; [apply quiet_call|].
  intros [[link url]|]; [|apply IH].
  apply quiet_bind; [apply Hb | intros; apply IH].
Qed.

Lemma quiet_paa_loop (blocks : list node) :
  forall items, quiet (paa_loop blocks items).
Proof.
  induction blocks as [|b rest IH]; intros items; cbn [paa_loop];
    [apply quiet_ret|].
  apply quiet_bind; [apply quiet_call|]. intros question_el.
  apply quiet_bind; [quietly|].
  intros [[q a] u]. destruct (negb (is_empty q)); apply IH.
Qed.

Lemma quiet_related_loop (lis : list node) :
  forall items, quiet (related_loop lis items).
Proof.
  induction lis as [|li rest IH]; intros items; cbn [related_loop];
    [apply quiet_ret|].
  apply quiet_bind; [apply quiet_call|].
  intros [a|]; [|apply IH].
  apply quiet_bind; [apply quiet_call|]. intros title.
  apply quiet_bind; [apply quiet_call|]. intros u.
  destruct (negb (is_empty title)); apply IH.
Qed.

Lemma quiet_results_total_body (soup : node) :
  quiet (results_total_body soup).
Proof. unfold results_total_body. quietly. Qed.

Lemma quiet_organic (soup : node) : quiet (_extract_organic_results soup).
Proof.
  unfold _extract_organic_results.
  apply quiet_bind; [apply quiet_call|]. intros.
  apply quiet_listing_loop. intros. unfold organic_item.
  quietly. apply quiet_keywords_loop.
Qed.

Lemma quiet_paid (soup : node) : quiet (_extract_paid_results soup).
Proof.
  unfold _extract_paid_results.
  apply quiet_bind; [apply quiet_call|]. intros.
  apply quiet_listing_loop. intros. unfold paid_item. quietly.
Qed.

Lemma quiet_paa (soup : node) : quiet (_extract_people_also_ask soup).
Proof.
  unfold _extract_people_also_ask.
  apply quiet_bind; [apply quiet_call|]. intros. apply quiet_paa_loop.
Qed.

Lemma quiet_related (soup : node) : quiet (_extract_related_queries soup).
Proof.
  unfold _extract_related_queries.
  apply quiet_bind; [apply quiet_call|].
  intros [|first rest]; [apply quiet_ret|].
  apply quiet_bind; [apply quiet_call|]. intros classes.
  apply quiet_bind; [quietly|]. intros. apply quiet_related_loop.
Qed.

(** The results total leaves the state alone, or adds its one line to
    the log. *)
Lemma results_total_state (soup : node) (w : World) (s : State) :
  let s' := snd (_extract_results_total soup w s) in
  s' = s \/
  s' = mkState (n_draws s) (n_gets s)
         (trace s ++ [ELog DEBUG "Failed to parse results total: %s"]).
Proof.
  cbn zeta. unfold _extract_results_total, try_except.
  pose proof (quiet_results_total_body soup w s) as Hq.
  destruct (results_total_body soup w s) as [[a|e|] s1]; cbn [snd] in Hq;
    subst s1; [left; reflexivity | right; reflexivity | left; reflexivity].
Qed.

Lemma parse_page_state (sc : BingSearchScraper) (markup : string)
    (meta : SearchQueryMeta) (w : World) (s : State) :
  let s' := snd (_parse_page sc markup meta w s) in
  s' = s \/
  s' = mkState (n_draws s) (n_gets s)
         (trace s ++ [ELog DEBUG "Failed to parse results total: %s"]).
Proof.
  cbn zeta. remember (_parse_page sc markup meta w s) as r eqn:Er.
  unfold _parse_page in Er. unfold bind at 1, call at 1 in Er.
  destruct (parse markup) as [soup|e]; [|subst r; left; reflexivity].
  unfold bind at 1 in Er.
  pose proof (results_total_state soup w s) as Ht. cbn zeta in Ht.
  destruct (_extract_results_total soup w s) as [[rt|e|] s1];
    cbn [snd] in Ht; [|subst r; exact Ht ..].
  match type of Er with
  | context [bind ?c ?k w s1] => assert (Hq : quiet (bind c k))
  end.
  { apply quiet_bind; [apply quiet_organic|]. intros.
    apply quiet_bind; [apply quiet_paid|]. intros.
    apply quiet_bind; [apply quiet_paa|]. intros.
    apply quiet_bind; [apply quiet_related|]. intros.
    apply quiet_ret. }
  subst r. rewrite (Hq w s1). exact Ht.
Qed.

End QuietExtraction.

(** X16. Extraction touches nothing but the log: whatever the document
    and whatever the library does, [_parse_page] draws no number, sends
    no request and sleeps not at all, and the one thing it may add to the
    trace is the debug line of a results total that could not be
    read. *)
Theorem extraction_touches_only_the_log
    (node : Type) (api : Soup node) (sc : BingSearchScraper)
    (markup : string) (meta : SearchQueryMeta) (w : World) (s : State) :
  let s' := snd (_parse_page sc markup meta w s) in
  n_draws s' = n_draws s /\ n_gets s' = n_gets s /\
  (trace s' = trace s \/
   trace s'
   = (trace s ++ [ELog DEBUG "Failed to parse results total: %s"])%list).
Proof.
  cbn zeta.
  destruct (parse_page_state sc markup meta w s) as [-> | ->]; cbn; auto.
Qed.

Example extraction_logs_an_unreadable_total :
  trace (snd (@_parse_page _ (DomSoup Scenario.parser) default_scraper
                Scenario.long_count_markup Scenario.meta Scenario.always_serp
                initial))
  = [ELog DEBUG "Failed to parse results total: %s"].
Proof. vm_compute. reflexivity. Qed.

(** ** Binary64 arithmetic: rounding crosses no binary64 number *)

Section Rounding.

Import Binary64.

Lemma rne_shift_upper (m s : Z) :
  0 <= m -> 0 < s ->
  rne_shift m s <= m / 2 ^ s + 1 /\
  (m mod 2 ^ s = 0 -> rne_shift m s = m / 2 ^ s).
Proof.
  intros Hm Hs. unfold rne_shift.
  rewrite Z.shiftr_div_pow2, Z.land_ones, Z.shiftl_1_l by lia.
  assert (Hh : 0 < 2 ^ (s - 1)) by (apply Z.pow_pos_nonneg; lia).
  split.
  - destruct (_ <? _); [lia|]. destruct (_ <? _); [lia|].
    destruct (Z.even _); lia.
  - intros ->. destruct (Z.ltb_spec 0 (2 ^ (s - 1))); [reflexivity | lia].
Qed.

Lemma rne_shift_sign (m s : Z) :
  0 <= m -> 0 < s -> Z.sgn m * rne_shift m s = rne_shift m s.
Proof.
  intros Hm Hs. destruct (Z.eq_dec m 0) as [->|Hz].
  - destruct (rne_shift_upper 0 s ltac:(lia) Hs) as [_ H0].
    rewrite H0 by (apply Z.mod_0_l; apply Z.pow_nonzero; lia).
    rewrite Z.div_0_l by (apply Z.pow_nonzero; lia). reflexivity.
  - rewrite Z.sgn_pos by lia. lia.
Qed.

(** The shift of a rounding that is not the subnormal one leaves 53
    bits at least. *)
Lemma shifted_keeps_53_bits (m s : Z) :
  0 < m -> 0 < s -> s = Z.log2 m + 1 - prec ->
  2 ^ (52 + s) <= m /\ 2 ^ 52 <= m / 2 ^ s.
Proof.
  unfold prec. intros Hm Hs E.
  pose proof (Z.log2_spec m Hm) as [Hlo _].
  replace (Z.log2 m) with (52 + s) in Hlo by lia.
  split; [exact Hlo|].
  apply Z.div_le_lower_bound; [apply Z.pow_pos_nonneg; lia|].
  rewrite <- Z.pow_add_r by lia. replace (s + 52) with (52 + s) by lia.
  exact Hlo.
Qed.

(** A binary64 number below [x] is below the rounding of [x]. *)
Lemma round_ge (lo x : dy) :
  is_binary64 lo -> 0 <= mant x ->
  leb lo x = true -> leb lo (round x) = true.
Proof.
  intros [[Ha0 Ha] Hea] Hm Hle. unfold round.
  rewrite (Z.abs_eq _ Hm).
  set (s := Z.max (Z.log2 (mant x) + 1 - prec) (emin - expo x)).
  destruct (Z.leb_spec s 0) as [|Hs]; [exact Hle|].
  rewrite (rne_shift_sign _ _ Hm Hs).
  pose proof (rne_shift_lower _ _ Hm Hs) as Hq.
  set (q := rne_shift (mant x) s) in *.
  set (E := Z.min (expo lo) (expo x)).
  apply (leb_scaled lo x E) in Hle; [|unfold E; lia ..].
  apply (leb_scaled lo (Dy q (expo x + s)) E); cbn [mant expo];
    [unfold E; lia ..|].
  assert (HP : 0 < 2 ^ s) by (apply Z.pow_pos_nonneg; lia).
  destruct (Z_le_gt_dec (expo x + s) (expo lo)) as [Hge|Hlt].
  - replace E with (expo x) in * by (unfold E; lia).
    rewrite Z.sub_diag, Z.mul_1_r in Hle.
    replace (expo x + s - expo x) with s by lia.
    replace (expo lo - expo x) with ((expo lo - expo x - s) + s) in * by lia.
    rewrite Z.pow_add_r in * by lia.
    rewrite Z.mul_assoc in *.
    assert (mant lo * 2 ^ (expo lo - expo x - s) <= mant x / 2 ^ s).
    { apply Z.div_le_lower_bound; lia. }
    nia.
  - assert (Es : s = Z.log2 (mant x) + 1 - prec) by (unfold s; lia).
    assert (Hpos : 0 < mant x).
    { destruct (Z.eq_dec (mant x) 0) as [Hz|]; [|lia].
      rewrite Hz in Es. cbn in Es. unfold prec in Es. lia. }
    destruct (shifted_keeps_53_bits _ _ Hpos Hs Es) as [_ H52].
    assert (Hq52 : 2 ^ 52 <= q) by lia.
    assert (H1 : mant lo * 2 ^ (expo lo - E) <= 2 ^ 53 * 2 ^ (expo lo - E)).
    { apply Z.mul_le_mono_nonneg_r; [apply Z.pow_nonneg; lia | exact Ha]. }
    assert (H2 : 2 ^ 52 * 2 ^ (expo x + s - E) <= q * 2 ^ (expo x + s - E)).
    { apply Z.mul_le_mono_nonneg_r; [apply Z.pow_nonneg; lia | exact Hq52]. }
    assert (H3 : 2 ^ 53 * 2 ^ (expo lo - E) <= 2 ^ 52 * 2 ^ (expo x + s - E)).
    { rewrite <- !Z.pow_add_r by (unfold E; lia).
      apply Z.pow_le_mono_r; unfold E; lia. }
    lia.
Qed.

(** A binary64 number above [x] is above the rounding of [x]. *)
Lemma round_le (x hi : dy) :
  is_binary64 hi -> 0 <= mant x ->
  leb x hi = true -> leb (round x) hi = true.
Proof.
  intros [[Hb0 Hb] Heb] Hm Hle. unfold round.
  rewrite (Z.abs_eq _ Hm).
  set (s := Z.max (Z.log2 (mant x) + 1 - prec) (emin - expo x)).
  destruct (Z.leb_spec s 0) as [|Hs]; [exact Hle|].
  rewrite (rne_shift_sign _ _ Hm Hs).
  destruct (rne_shift_upper _ _ Hm Hs) as [Hq Hexact].
  set (q := rne_shift (mant x) s) in *.
  set (E := Z.min (expo hi) (expo x)).
  apply (leb_scaled x hi E) in Hle; [|unfold E; lia ..].
  apply (leb_scaled (Dy q (expo x + s)) hi E); cbn [mant expo];
    [unfold E; lia ..|].
  assert (HP : 0 < 2 ^ s) by (apply Z.pow_pos_nonneg; lia).
  pose proof (Z.div_mod (mant x) (2 ^ s) ltac:(lia)) as Hdm.
  pose proof (Z.mod_pos_bound (mant x) (2 ^ s) HP) as Hr.
  destruct (Z_le_gt_dec (expo x + s) (expo hi)) as [Hge|Hlt].
  - replace E with (expo x) in * by (unfold E; lia).
    rewrite Z.sub_diag, Z.mul_1_r in Hle.
    replace (expo x + s - expo x) with s by lia.
    replace (expo hi - expo x) with ((expo hi - expo x - s) + s) in * by lia.
    rewrite Z.pow_add_r in * by lia.
    rewrite Z.mul_assoc in *.
    set (B := mant hi * 2 ^ (expo hi - expo x - s)) in *.
    destruct (Z.eq_dec (mant x mod 2 ^ s) 0) as [Hz|Hnz].
    + rewrite (Hexact Hz). nia.
    + assert (mant x / 2 ^ s < B) by nia. nia.
  - assert (Es : s = Z.log2 (mant x) + 1 - prec) by (unfold s; lia).
    assert (Hpos : 0 < mant x).
    { destruct (Z.eq_dec (mant x) 0) as [Hz|]; [|lia].
      rewrite Hz in Es. cbn in Es. unfold prec in Es. lia. }
    destruct (shifted_keeps_53_bits _ _ Hpos Hs Es) as [Hlo _].
    assert (P1 : 0 < 2 ^ (expo x - E))
      by (apply Z.pow_pos_nonneg; unfold E; lia).
    assert (H1 : 2 ^ (52 + s) * 2 ^ (expo x - E)
                 <= mant x * 2 ^ (expo x - E)).
    { apply Z.mul_le_mono_nonneg_r; [lia | exact Hlo]. }
    assert (H2 : mant hi * 2 ^ (expo hi - E) <= 2 ^ 53 * 2 ^ (expo hi - E)).
    { apply Z.mul_le_mono_nonneg_r;
        [apply Z.pow_nonneg; lia | exact Hb]. }
    assert (H3 : 2 ^ 53 * 2 ^ (expo hi - E)
                 <= 2 ^ (52 + s) * 2 ^ (expo x - E)).
    { rewrite <- !Z.pow_add_r by (unfold E; lia).
      apply Z.pow_le_mono_r; unfold E; lia. }
    assert (Hmx : mant x = 2 ^ (52 + s)) by nia.
    assert (Hz : mant x mod 2 ^ s = 0).
    { rewrite Hmx, Z.pow_add_r by lia. apply Z.mod_mul. lia. }
    rewrite (Hexact Hz).
    assert (Hd : mant x / 2 ^ s = 2 ^ 52).
    { rewrite Hmx, Z.pow_add_r by lia. apply Z.div_mul. lia. }
    rewrite Hd.
    replace (expo x + s - E) with (s + (expo x - E)) by lia.
    rewrite Z.pow_add_r by (unfold E; lia).
    rewrite Z.pow_add_r in H1, H3 by lia. lia.
Qed.

(** What a rounding gives is a binary64 number. *)
Lemma round_is_binary64 (x : dy) :
  0 <= mant x -> is_binary64 (round x).
Proof.
  intros Hm. unfold round, is_binary64. rewrite (Z.abs_eq _ Hm).
  set (s := Z.max (Z.log2 (mant x) + 1 - prec) (emin - expo x)).
  destruct (Z.leb_spec s 0) as [Hs0|Hs].
  - split; [|unfold s in Hs0; lia]. split; [exact Hm|].
    destruct (Z.eq_dec (mant x) 0) as [->|Hz]; [lia|].
    assert (Z.log2 (mant x) < 53) by (unfold s, prec in Hs0; lia).
    apply Z.lt_le_incl, Z.log2_lt_pow2; lia.
  - rewrite (rne_shift_sign _ _ Hm Hs). cbn [mant expo].
    split; [|unfold s; lia].
    pose proof (rne_shift_lower _ _ Hm Hs) as Hlo.
    destruct (rne_shift_upper _ _ Hm Hs) as [Hup _].
    assert (HP : 0 < 2 ^ s) by (apply Z.pow_pos_nonneg; lia).
    assert (0 <= mant x / 2 ^ s) by (apply Z.div_pos; lia).
    split; [lia|].
    assert (Hlt : mant x / 2 ^ s < 2 ^ 53); [|lia].
    apply Z.div_lt_upper_bound; [lia|].
    rewrite <- Z.pow_add_r by lia.
    destruct (Z.eq_dec (mant x) 0) as [->|Hz];
      [apply Z.pow_pos_nonneg; lia|].
    apply Z.log2_lt_pow2; [lia|]. unfold s, prec in *. lia.
Qed.

End Rounding.

(** ** Binary64 arithmetic: order, sums and products *)

Section SumsAndProducts.

Import Binary64.

Lemma ltb_leb_trans (x y z : dy) :
  ltb x y = true -> leb y z = true -> ltb x z = true.
Proof.
  set (e := Z.min (expo x) (Z.min (expo y) (expo z))).
  intros Hxy Hyz.
  apply (ltb_scaled x y e) in Hxy; [|unfold e; lia ..].
  apply (leb_scaled y z e) in Hyz; [|unfold e; lia ..].
  apply (ltb_scaled x z e); [unfold e; lia ..|]. lia.
Qed.

Lemma add_rounds_sum (x y : dy) : add x y = round (exact_sum x y).
Proof.
  unfold add, exact_sum. destruct (align x y) as [[a b] e]. reflexivity.
Qed.

Lemma mul_rounds_product (x y : dy) : mul x y = round (exact_product x y).
Proof. reflexivity. Qed.

Lemma exact_sum_mant (x y : dy) :
  0 <= mant x -> 0 <= mant y -> 0 <= mant (exact_sum x y).
Proof.
  intros Hx Hy. unfold exact_sum, align. cbn [mant].
  assert (0 <= 2 ^ (expo x - Z.min (expo x) (expo y)))
    by (apply Z.pow_nonneg; lia).
  assert (0 <= 2 ^ (expo y - Z.min (expo x) (expo y)))
    by (apply Z.pow_nonneg; lia).
  nia.
Qed.

(** Sums grow with their terms. *)
Lemma exact_sum_mono (x y x' y' : dy) :
  leb x x' = true -> leb y y' = true ->
  leb (exact_sum x y) (exact_sum x' y') = true.
Proof.
  set (e := Z.min (Z.min (expo x) (expo y)) (Z.min (expo x') (expo y'))).
  intros Hx Hy.
  apply (leb_scaled x x' e) in Hx; [|unfold e; lia ..].
  apply (leb_scaled y y' e) in Hy; [|unfold e; lia ..].
  apply (leb_scaled _ _ e); [rewrite exact_sum_expo; unfold e; lia ..|].
  rewrite !exact_sum_scaled by (unfold e; lia). lia.
Qed.

Lemma exact_sum_ge_l (x y : dy) :
  0 <= mant y -> leb x (exact_sum x y) = true.
Proof.
  intros Hy. set (e := Z.min (expo x) (expo y)).
  apply (leb_scaled _ _ e); [unfold e; lia | rewrite exact_sum_expo; lia|].
  rewrite exact_sum_scaled by (unfold e; lia).
  assert (0 <= 2 ^ (expo y - e)) by (apply Z.pow_nonneg; unfold e; lia).
  nia.
Qed.

(** Products by a number that is not negative grow with the other
    factor. *)
Lemma exact_product_mono (x x' c : dy) :
  0 <= mant c -> leb x x' = true ->
  leb (exact_product x c) (exact_product x' c) = true.
Proof.
  intros Hc Hx. set (e := Z.min (expo x) (expo x')).
  apply (leb_scaled x x' e) in Hx; [|unfold e; lia ..].
  apply (leb_scaled _ _ (e + expo c)); unfold exact_product; cbn [mant expo];
    [unfold e; lia ..|].
  replace (expo x + expo c - (e + expo c)) with (expo x - e) by lia.
  replace (expo x' + expo c - (e + expo c)) with (expo x' - e) by lia.
  nia.
Qed.

Lemma is_binary64_mant (x : dy) : is_binary64 x -> 0 <= mant x.
Proof. intros [[H _] _]. exact H. Qed.

(** A sum of two numbers between bounds whose own sums are binary64
    numbers. *)
Lemma add_between (x y lo hi : dy) :
  0 <= mant x -> 0 <= mant y ->
  is_binary64 lo -> is_binary64 hi ->
  leb lo (exact_sum x y) = true -> leb (exact_sum x y) hi = true ->
  leb lo (add x y) = true /\ leb (add x y) hi = true /\
  is_binary64 (add x y).
Proof.
  intros Hx Hy Hlo Hhi H1 H2. rewrite add_rounds_sum.
  pose proof (exact_sum_mant x y Hx Hy) as Hm.
  split; [apply round_ge; auto|].
  split; [apply round_le; auto | apply round_is_binary64; auto].
Qed.

Lemma mul_between (x y lo hi : dy) :
  0 <= mant x -> 0 <= mant y ->
  is_binary64 lo -> is_binary64 hi ->
  leb lo (exact_product x y) = true -> leb (exact_product x y) hi = true ->
  leb lo (mul x y) = true /\ leb (mul x y) hi = true /\
  is_binary64 (mul x y).
Proof.
  intros Hx Hy Hlo Hhi H1 H2. rewrite mul_rounds_product.
  assert (Hm : 0 <= mant (exact_product x y))
    by (unfold exact_product; cbn [mant]; nia).
  split; [apply round_ge; auto|].
  split; [apply round_le; auto | apply round_is_binary64; auto].
Qed.

(** [random.random()] lies between 0 and 1. *)
Lemma random_of_draw_bounds (raw : Z) :
  0 <= mant (random_of_draw raw) /\
  leb (random_of_draw raw) one = true.
Proof.
  unfold random_of_draw. cbn [mant].
  pose proof (Z.mod_pos_bound raw (2 ^ 53) eq_refl) as Hk.
  split; [lia|].
  apply (leb_scaled _ _ (-53)); cbn [mant expo one]; [lia ..|].
  change (-53 - -53) with 0. change (0 - -53) with 53. lia.
Qed.

End SumsAndProducts.

(** ** The pause between two pages, and the delays that can be slept *)

Section Sleeps.

Import Binary64.

Ltac closed_binary64 :=
  unfold is_binary64; repeat split; apply Z.leb_le; vm_compute; reflexivity.

Lemma exact_product_comm (x y : dy) : exact_product x y = exact_product y x.
Proof. unfold exact_product. f_equal; ring. Qed.

(** The pause of [search]: [0.8 + (1.6 - 0.8) * random()]. *)
Lemma pause_bounds (raw : Z) :
  let pause := uniform_of_draw lit_0_8 lit_1_6 raw in
  leb lit_0_8 pause = true /\ leb pause lit_1_6 = true /\
  is_binary64 pause.
Proof.
  cbn zeta. unfold uniform_of_draw.
  change (sub lit_1_6 lit_0_8) with lit_0_8.
  destruct (random_of_draw_bounds raw) as [Hr0 Hr1].
  assert (B8 : is_binary64 lit_0_8) by closed_binary64.
  assert (B16 : is_binary64 lit_1_6) by closed_binary64.
  assert (B0 : is_binary64 zero) by closed_binary64.
  destruct (mul_between lit_0_8 (random_of_draw raw) zero lit_0_8)
    as (_ & Ht & Bt); auto.
  - cbn; lia.
  - apply leb_zero. unfold exact_product. cbn [mant lit_0_8]. lia.
  - rewrite exact_product_comm.
    apply (leb_trans _ (exact_product one lit_0_8));
      [apply exact_product_mono; [cbn; lia | exact Hr1]|].
    vm_compute. reflexivity.
  - set (t := mul lit_0_8 (random_of_draw raw)) in *.
    apply add_between; auto.
    + cbn; lia.
    + apply is_binary64_mant, Bt.
    + apply exact_sum_ge_l, is_binary64_mant, Bt.
    + apply (leb_trans _ (exact_sum lit_0_8 lit_0_8));
        [apply exact_sum_mono; [apply leb_refl | exact Ht]|].
      vm_compute. reflexivity.
Qed.

(** A delay of at most [2^32] seconds is slept whatever the clock
    reads. *)
Lemma sleepable_below (d : dy) :
  0 <= mant d -> leb d (Dy 1 32) = true -> sleepable d = true.
Proof.
  intros Hd Hle. unfold sleepable. rewrite (leb_zero _ Hd). cbn [andb].
  unfold nanoseconds.
  apply (leb_ltb_trans _ (Dy 1000000000 32)); [|vm_compute; reflexivity].
  rewrite mul_rounds_product. apply round_le.
  - closed_binary64.
  - unfold exact_product. cbn [mant]. lia.
  - apply (leb_trans _ (exact_product (Dy 1 32) (Dy 1000000000 0)));
      [apply exact_product_mono; [cbn; lia | exact Hle]|].
    vm_compute. reflexivity.
Qed.

(** A delay of [9 * 2^60] nanoseconds or more, which is beyond [2^63],
    is refused with [OverflowError] whatever the clock reads. *)
Lemma refused_above (lo d now : dy) :
  0 <= mant d -> leb lo d = true ->
  leb (Dy 9 60) (exact_product lo (Dy 1000000000 0)) = true ->
  sleep_refusal d now = Some OverflowError.
Proof.
  intros Hd Hle Hlo. unfold sleep_refusal. cbn zeta.
  rewrite (leb_not_ltb _ _ (leb_zero _ Hd)).
  assert (H9 : leb (Dy 9 60) (nanoseconds d) = true).
  { unfold nanoseconds. rewrite mul_rounds_product. apply round_ge.
    - closed_binary64.
    - unfold exact_product. cbn [mant]. lia.
    - apply (leb_trans _ _ _ Hlo).
      apply exact_product_mono; [cbn; lia | exact Hle]. }
  assert (H63 : ltb (Dy 1 63) (nanoseconds d) = true).
  { apply (ltb_leb_trans _ (Dy 9 60)); [vm_compute; reflexivity | exact H9]. }
  rewrite (ltb_leb _ _ H63), (ltb_not_leb _ _ H63). reflexivity.
Qed.

Lemma pow_is_binary64 (x : dy) (n : Z) (a : dy) :
  0 <= mant x -> pow x n = Some a -> is_binary64 a.
Proof.
  intros Hx. unfold pow, pow_rounded.
  destruct (overflows _); [discriminate|].
  intros H. injection H as <-. apply round_is_binary64. cbn [mant].
  apply Z.pow_nonneg, Hx.
Qed.

Lemma jitter_bounds (raw : Z) :
  0 <= mant (uniform_of_draw zero half raw) /\
  leb (uniform_of_draw zero half raw) half = true.
Proof.
  rewrite jitter_value. cbn [mant].
  pose proof (Z.mod_pos_bound raw (2 ^ 53) eq_refl) as Hk.
  split; [lia|].
  apply (leb_scaled _ _ (-54)); cbn [mant expo half]; [lia ..|].
  change (-54 - -54) with 0. change (-1 - -54) with 53. lia.
Qed.

(** The powers of 1.5 up to the 54th stay below the 54th. *)
Lemma three_halves_pow_le_54 (i : Z) (a : dy) :
  0 <= i <= 54 -> pow three_halves i = Some a ->
  exists top, pow three_halves 54 = Some top /\ leb a top = true.
Proof.
  intros Hi Ha. destruct (Z.eq_dec i 54) as [->|Hne].
  - exists a. split; [exact Ha | apply leb_refl].
  - destruct (three_halves_pow_lt (Z.to_nat (54 - i - 1)) i)
      as (a' & b & Ha' & Hb & Hab); [lia | lia |].
    replace (i + Z.of_nat (S (Z.to_nat (54 - i - 1)))) with 54 in Hb by lia.
    rewrite Ha in Ha'. injection Ha' as <-.
    exists b. split; [exact Hb | apply ltb_leb, Hab].
Qed.

(** The powers of 1.5 from the 57th on stay above the 57th. *)
Lemma three_halves_pow_ge_57 (i : Z) (a : dy) :
  57 <= i -> pow three_halves i = Some a ->
  exists bottom, pow three_halves 57 = Some bottom /\ leb bottom a = true.
Proof.
  intros Hi Ha. destruct (Z.eq_dec i 57) as [->|Hne].
  - exists a. split; [exact Ha | apply leb_refl].
  - destruct (Z_le_gt_dec 1751 i) as [Hbig|Hsmall].
    + rewrite three_halves_pow_overflows in Ha by exact Hbig. discriminate.
    + destruct (three_halves_pow_lt (Z.to_nat (i - 57 - 1)) 57)
        as (b & a' & Hb & Ha' & Hab); [lia | lia |].
      replace (57 + Z.of_nat (S (Z.to_nat (i - 57 - 1)))) with i in Ha'
        by lia.
      rewrite Ha in Ha'. injection Ha' as <-.
      exists b. split; [exact Hb | apply ltb_leb, Hab].
Qed.

End Sleeps.

(** The pause [search] takes after a page: whatever the generator draws
    and whatever the clock reads, a binary64 number from 0.8 to 1.6
    seconds, both ends included, which [time.sleep] takes. *)
Lemma pause_run (w : World) (s : State) :
  exists pause,
    bind (random_uniform Binary64.lit_0_8 Binary64.lit_1_6) sleep w s
    = (Ok tt,
       mkState (S (n_draws s)) (n_gets s)
         (trace s ++ [EDraw DUniform (draws w (n_draws s)); ESleep pause])) /\
    Binary64.leb Binary64.lit_0_8 pause = true /\
    Binary64.leb pause Binary64.lit_1_6 = true.
Proof.
  destruct (pause_bounds (draws w (n_draws s))) as (Hlo & Hhi & Hb).
  cbn zeta in Hlo, Hhi, Hb.
  set (pause := Binary64.uniform_of_draw Binary64.lit_0_8 Binary64.lit_1_6
                  (draws w (n_draws s))) in *.
  exists pause. split; [|auto].
  assert (Hs : sleepable pause = true).
  { apply sleepable_below; [apply is_binary64_mant, Hb|].
    apply (leb_trans _ _ _ Hhi). vm_compute. reflexivity. }
  unfold random_uniform, draw, bind, ret. cbn [fst snd]. fold pause.
  rewrite (sleep_run pause w _ Hs). cbn [n_draws n_gets trace].
  rewrite <- app_assoc. reflexivity.
Qed.

(** X17. With the default backoff factor 1.5 the delay of every attempt
    from 1 to 55 can be computed and is slept, whatever the generator
    draws and the clock reads; from attempt 58 on an attempt of the
    recovery ends in [OverflowError] before it sends its request: the
    delay is beyond what [time.sleep] converts, or the power beyond
    binary64. *)
Theorem default_backoff_window (h : SoftBlockHandler) (attempt : Z) :
  backoff_factor h = Binary64.three_halves ->
  (1 <= attempt <= 55 -> forall raw, delay_ready h attempt raw) /\
  (58 <= attempt -> forall url w s,
     exists s',
       recovery_attempt h url attempt w s = (Raise OverflowError, s') /\
       n_gets s' = n_gets s).
Proof.
  intros Hf.
  assert (H3 : 0 <= Binary64.mant Binary64.three_halves) by (cbn; lia).
  split.
  - intros Ha raw. destruct (jitter_bounds raw) as [Hj0 Hj].
    unfold delay_ready, backoff_base. rewrite Hf.
    destruct (Z.gtb_spec attempt 0); [|lia].
    destruct (three_halves_pow_step (attempt - 1)) as (base & _ & Hb & _);
      [lia|].
    exists base. split; [exact Hb|].
    assert (Hi : 0 <= attempt - 1 <= 54) by lia.
    destruct (three_halves_pow_le_54 _ _ Hi Hb) as (top & Ht & Hle).
    assert (Bb : is_binary64 base) by exact (pow_is_binary64 _ _ _ H3 Hb).
    destruct (add_between base
                (Binary64.uniform_of_draw Binary64.zero Binary64.half raw)
                Binary64.zero (Binary64.Dy 1 32))
      as (_ & Hd & Bd); auto.
    + apply is_binary64_mant, Bb.
    + unfold is_binary64; repeat split; apply Z.leb_le; vm_compute;
        reflexivity.
    + unfold is_binary64; repeat split; apply Z.leb_le; vm_compute;
        reflexivity.
    + apply leb_zero, exact_sum_mant;
        [apply is_binary64_mant, Bb | exact Hj0].
    + apply (leb_trans _ (exact_sum top Binary64.half));
        [apply exact_sum_mono; [exact Hle | exact Hj]|].
      vm_compute in Ht. injection Ht as <-. vm_compute. reflexivity.
    + apply sleepable_below; [apply is_binary64_mant, Bd | exact Hd].
  - intros Ha url w s. unfold recovery_attempt. unfold bind at 1.
    destruct (backoff_base h attempt) as [base|] eqn:Hb.
    + rewrite (compute_backoff_run h attempt base w s Hb).
      destruct (jitter_bounds (draws w (n_draws s))) as [Hj0 Hj].
      set (d := Binary64.add base
                  (Binary64.uniform_of_draw Binary64.zero Binary64.half
                     (draws w (n_draws s)))).
      unfold backoff_base in Hb. rewrite Hf in Hb.
      destruct (Z.gtb_spec attempt 0); [|lia].
      assert (Hi : 57 <= attempt - 1) by lia.
      destruct (three_halves_pow_ge_57 _ _ Hi Hb) as (bottom & Hbot & Hle).
      assert (Bb : is_binary64 base) by exact (pow_is_binary64 _ _ _ H3 Hb).
      assert (Bbot : is_binary64 bottom)
        by exact (pow_is_binary64 _ _ _ H3 Hbot).
      assert (Hd0 : 0 <= Binary64.mant d).
      { unfold d. rewrite add_rounds_sum.
        apply is_binary64_mant, round_is_binary64, exact_sum_mant;
          [apply is_binary64_mant, Bb | exact Hj0]. }
      assert (Hbd : Binary64.leb bottom d = true).
      { unfold d. rewrite add_rounds_sum. apply round_ge; [exact Bbot | |].
        - apply exact_sum_mant; [apply is_binary64_mant, Bb | exact Hj0].
        - apply (leb_trans _ _ _ Hle). apply exact_sum_ge_l, Hj0. }
      assert (Hn : forall now,
                 sleep_refusal d now = Some OverflowError).
      { intros now. apply (refused_above bottom d now Hd0 Hbd).
        vm_compute in Hbot. injection Hbot as <-. vm_compute. reflexivity. }
      unfold bind at 1, log, emit. cbn [fst snd].
      unfold bind at 1, sleep. rewrite Hn.
      eexists. split; [reflexivity|]. reflexivity.
    + unfold compute_backoff, bind, raise. rewrite Hb.
      eexists. split; [reflexivity|]. reflexivity.
Qed.

Lemma default_backoff_window_witness :
  delay_ready default_handler 55 0 /\
  exists s',
    recovery_attempt default_handler Scenario.url 58 Scenario.always_blocked
      initial
    = (Raise OverflowError, s') /\
    n_gets s' = 0%nat.
Proof.
  split.
  - apply (proj1 (default_backoff_window default_handler 55 eq_refl)). lia.
  - apply (proj2 (default_backoff_window default_handler 58 eq_refl)). lia.
Defined.

(** ** Query orchestrator: the pause, and the edges of its arguments *)

(** X18. After every page it has fetched and extracted, the last one
    included, [search] pauses before it goes on: it draws once, sleeps
    for 0.8 to 1.6 seconds, both ends included, and never fails
    there, whatever the generator draws and the clock reads. *)
Theorem search_pauses_after_each_page
    {node : Type} {api : Soup node} (sc : BingSearchScraper) (term : string)
    (rp : Z) (mkt lang : string) (page : Z) (rest : list Z)
    (results : list PageRecord) (w : World) (s s1 s2 : State)
    (markup : string) (record : PageRecord) :
  let url := _build_search_url term page rp mkt lang in
  _fetch_page sc url w s = (Ok markup, s1) ->
  _parse_page sc markup (mkMeta term rp page url mkt lang) w s1
  = (Ok record, s2) ->
  exists pause,
    Binary64.leb Binary64.lit_0_8 pause = true /\
    Binary64.leb pause Binary64.lit_1_6 = true /\
    search_loop sc term rp mkt lang (page :: rest) results w s
    = search_loop sc term rp mkt lang rest (results ++ [record])%list w
        (mkState (S (n_draws s2)) (n_gets s2)
           (trace s2
            ++ [EDraw DUniform (draws w (n_draws s2)); ESleep pause])).
Proof.
  cbn zeta. intros Hf Hp.
  destruct (pause_run w s2) as (pause & Hrun & Hlo & Hhi).
  exists pause. split; [exact Hlo|]. split; [exact Hhi|].
  cbn [search_loop]. cbn zeta.
  rewrite (bind_run _ _ _ _ _ _ Hf), (bind_run _ _ _ _ _ _ Hp).
  unfold bind at 1 2. unfold bind at 1 in Hrun.
  destruct (random_uniform Binary64.lit_0_8 Binary64.lit_1_6 w s2)
    as [[p|e|] s3]; try discriminate.
  rewrite Hrun. reflexivity.
Qed.

Lemma search_pauses_after_each_page_witness :
  exists pause out s',
    @search _ (DomSoup Scenario.parser) default_scraper "rocq" 1
      None None None Scenario.always_serp initial
    = (Ok out, s') /\
    length out = 1%nat /\
    last (trace s') (ELog DEBUG "") = ESleep pause /\
    Binary64.leb Binary64.lit_0_8 pause = true.
Proof.
  edestruct (@search_pauses_after_each_page _ (DomSoup Scenario.parser)
               default_scraper "rocq" 10 "en-US" "en" 1 [] []
               Scenario.always_serp initial)
    as (pause & Hlo & _ & Hrun).
  - vm_compute. reflexivity.
  - vm_compute. reflexivity.
  - exists pause. eexists. eexists. split; [exact Hrun|].
    split; [reflexivity|]. split; [|exact Hlo].
    cbn [trace].
    match goal with
    | |- last (?l ++ [?a; ?b]) _ = _ =>
        change (l ++ [a; b])%list with (l ++ [a] ++ [b])%list
    end.
    rewrite app_assoc. apply last_last.
Defined.

(** X19. Asked for no page, or for a negative number of pages, [search]
    returns the empty list and does nothing: no draw, no request, no
    pause, no line in the log. *)
Theorem search_without_pages
    {node : Type} {api : Soup node} (sc : BingSearchScraper) (term : string)
    (pages : Z) (rp_arg : option Z) (mkt_arg lang_arg : option string)
    (w : World) (s : State) :
  pages <= 0 ->
  search sc term pages rp_arg mkt_arg lang_arg w s = (Ok [], s).
Proof.
  intros Hp. unfold search, py_range.
  replace (Z.to_nat (pages + 1 - 1)) with 0%nat by lia. reflexivity.
Qed.

Lemma search_without_pages_witness :
  @search _ (DomSoup Scenario.parser) default_scraper "rocq" (-3)
    None None None Scenario.always_serp initial
  = (Ok [], initial).
Proof.
  apply (@search_without_pages _ (DomSoup Scenario.parser)). lia.
Defined.

